(** * A shallow embedding of the Svelte pretty-printer plugin (src/plugin.js)

    The development follows the layout of the source file: JavaScript
    strings and the few built-ins the plugin relies on, the embedded-region
    codec ([snipTagContent] / [unsnipContent]), the helper predicates on
    syntax-tree nodes and on documents, and finally the printer [print]
    with its module-level [ignoreNext] flag threaded as explicit state. *)

From Stdlib Require Import Ascii String.
From Stdlib Require Import List NArith ZArith Bool Lia Arith.
Import ListNotations.

Set Implicit Arguments.
Set Warnings "-register-all".

(** ** JavaScript strings

    A JavaScript string is a sequence of UTF-16 code units.  The marker
    attribute of the codec contains U+2702, and [btoa] distinguishes code
    units above 255, so code units are kept as numbers. *)

Definition jschar := N.
Bind Scope N_scope with jschar.
Definition jsstring := list jschar.

Definition str (s : string) : jsstring :=
  map N_of_ascii (list_ascii_of_string s).
Arguments str s%_string.

Fixpoint seqb (a b : jsstring) : bool :=
  match a, b with
  | [], [] => true
  | x :: a', y :: b' => N.eqb x y && seqb a' b'
  | _, _ => false
  end.

Definition opt_seqb (a b : option jsstring) : bool :=
  match a, b with
  | None, None => true
  | Some x, Some y => seqb x y
  | _, _ => false
  end.

Definition in_range (lo hi c : N) : bool := N.leb lo c && N.leb c hi.

(** WhiteSpace and LineTerminator code units: the set stripped by
    [String.prototype.trim] and matched by the class [\s]. *)
Definition isJSWhitespace (c : jschar) : bool :=
  in_range 9 13 c || N.eqb c 32 || N.eqb c 160 || N.eqb c 5760
  || in_range 8192 8202 c || N.eqb c 8232 || N.eqb c 8233
  || N.eqb c 8239 || N.eqb c 8287 || N.eqb c 12288 || N.eqb c 65279.

(** The class [.] (without the [s] flag): anything but a line terminator. *)
Definition isLineTerminator (c : jschar) : bool :=
  N.eqb c 10 || N.eqb c 13 || N.eqb c 8232 || N.eqb c 8233.

(** The class [\w]. *)
Definition isWordChar (c : jschar) : bool :=
  in_range 65 90 c || in_range 97 122 c || in_range 48 57 c || N.eqb c 95.

Fixpoint dropWhile (p : jschar -> bool) (s : jsstring) : jsstring :=
  match s with
  | [] => []
  | c :: s' => if p c then dropWhile p s' else s
  end.

Definition trimStart (s : jsstring) : jsstring := dropWhile isJSWhitespace s.
Definition trimEnd (s : jsstring) : jsstring := rev (dropWhile isJSWhitespace (rev s)).
Definition js_trim (s : jsstring) : jsstring := trimEnd (trimStart s).

(** [s.slice(a, b)] for non-negative indices. *)
Definition js_slice (s : jsstring) (a b : nat) : jsstring :=
  firstn (b - a) (skipn a s).

Fixpoint startsWith (p s : jsstring) : bool :=
  match p, s with
  | [], _ => true
  | x :: p', y :: s' => N.eqb x y && startsWith p' s'
  | _ :: _, [] => false
  end.

Fixpoint js_includes (s p : jsstring) : bool :=
  startsWith p s || match s with [] => false | _ :: s' => js_includes s' p end.

(** [s.split(sep)] for a one-character separator. *)
Fixpoint splitOn (sep : jschar) (s : jsstring) : list jsstring :=
  match s with
  | [] => [[]]
  | c :: s' =>
      if N.eqb c sep then [] :: splitOn sep s'
      else match splitOn sep s' with
           | [] => [[c]]
           | w :: ws => (c :: w) :: ws
           end
  end.

(** [arr.join(sep)] on an array of strings. *)
Fixpoint joinStrings (sep : jsstring) (l : list jsstring) : jsstring :=
  match l with
  | [] => []
  | [x] => x
  | x :: l' => x ++ sep ++ joinStrings sep l'
  end.

Definition asciiLower (c : jschar) : jschar :=
  if in_range 65 90 c then (c + 32)%N else c.

(** ** Exceptions

    The plugin throws [Error("unknown node type: ...")]; the built-ins it
    calls throw [TypeError] (property access on [undefined]) and
    [InvalidCharacterError] (from [btoa] and [atob]); the external
    formatters may throw as well. *)

Inductive error : Type :=
| UnknownNodeType (type : jsstring)
| TypeError
| InvalidCharacterError
| FormatterError.

Inductive result (A : Type) : Type :=
| Ok (a : A)
| Throw (e : error).
Arguments Ok {A} a.
Arguments Throw {A} e.

Definition rbind {A B} (r : result A) (f : A -> result B) : result B :=
  match r with
  | Ok a => f a
  | Throw e => Throw e
  end.

(** ** Regular expressions

    A backtracking matcher for the fragment of ECMAScript regular
    expressions used by the plugin, written with continuations as in the
    language specification: greedy and lazy stars, capture groups,
    back-references, look-ahead and the two anchors.  Every pattern of the
    source is transcribed into this syntax next to its use. *)

Inductive regex : Type :=
| RChar (p : jschar -> bool)
| REmpty
| RSeq (a b : regex)
| RAlt (a b : regex)
| RStar (greedy : bool) (a : regex)
| RGroup (n : nat) (a : regex)
| RBackref (n : nat)
| RLookahead (a : regex)
| RBol
| REol.

Definition caps := list (nat * jsstring).

Fixpoint getCap (n : nat) (c : caps) : option jsstring :=
  match c with
  | [] => None
  | (m, s) :: c' => if Nat.eqb m n then Some s else getCap n c'
  end.

(** Captures are [undefined] when their group did not take part in the
    match; in a replacement callback they are only ever concatenated into
    template strings by the plugin's own patterns, where every group takes
    part in the match. *)
Definition capOr (n : nat) (c : caps) : jsstring :=
  match getCap n c with Some s => s | None => [] end.

(** Comparison of a pattern character under the [i] flag.  Every literal of
    the plugin's patterns is ASCII or U+2702, for which canonicalisation
    only identifies the two cases of an ASCII letter. *)
Definition ci_eq (a c : jschar) : bool :=
  N.eqb a c
  || (in_range 97 122 (asciiLower a) && N.eqb (asciiLower a) (asciiLower c)
      && N.ltb c 128).

Fixpoint matchPrefixBy (eq : jschar -> jschar -> bool) (p s : jsstring) : option jsstring :=
  match p, s with
  | [], _ => Some s
  | x :: p', y :: s' => if eq x y then matchPrefixBy eq p' s' else None
  | _ :: _, [] => None
  end.

(** The iteration of a star: [step] matches the body once, [fuel] bounds
    the number of iterations by the length of the input, every iteration
    having to consume at least one character. *)
Fixpoint starLoop (R : Type) (greedy : bool)
  (step : nat -> jsstring -> caps -> (nat -> jsstring -> caps -> option R) -> option R)
  (k : nat -> jsstring -> caps -> option R)
  (fuel i : nat) (s : jsstring) (c : caps) {struct fuel} : option R :=
  match fuel with
  | O => k i s c
  | S fuel' =>
      if greedy then
        match step i s c
                (fun i' s' c' => if Nat.eqb i' i then None
                                 else starLoop greedy step k fuel' i' s' c') with
        | Some x => Some x
        | None => k i s c
        end
      else
        match k i s c with
        | Some x => Some x
        | None =>
            step i s c
              (fun i' s' c' => if Nat.eqb i' i then None
                               else starLoop greedy step k fuel' i' s' c')
        end
  end.

Fixpoint rmatch (R : Type) (r : regex) (i : nat) (s : jsstring) (c : caps)
  (k : nat -> jsstring -> caps -> option R) {struct r} : option R :=
  match r with
  | RChar p =>
      match s with
      | x :: s' => if p x then k (S i) s' c else None
      | [] => None
      end
  | REmpty => k i s c
  | RSeq a b => rmatch a i s c (fun i' s' c' => rmatch b i' s' c' k)
  | RAlt a b =>
      match rmatch a i s c k with
      | Some x => Some x
      | None => rmatch b i s c k
      end
  | RStar g a => starLoop g (rmatch (R := R) a) k (length s) i s c
  | RGroup n a =>
      rmatch a i s c (fun i' s' c' => k i' s' ((n, firstn (i' - i) s) :: c'))
  | RBackref n =>
      match matchPrefixBy ci_eq (capOr n c) s with
      | Some s' => k (i + length (capOr n c)) s' c
      | None => None
      end
  | RLookahead a =>
      match rmatch a i s c (fun _ _ c' => Some c') with
      | Some c' => k i s c'
      | None => None
      end
  | RBol => if Nat.eqb i 0 then k i s c else None
  | REol => match s with [] => k i s c | _ :: _ => None end
  end.

(** Pattern-building helpers. *)
Definition rchar (c : jschar) : regex := RChar (N.eqb c).
Definition rchar_i (c : jschar) : regex := RChar (ci_eq c).
Definition rlit_i (s : jsstring) : regex :=
  fold_right (fun c r => RSeq (rchar_i c) r) REmpty s.
Definition rplus (g : bool) (a : regex) : regex := RSeq a (RStar g a).
Definition ropt (a : regex) : regex := RAlt a REmpty.
Definition rany : regex := RChar (fun _ => true).
Definition rdot : regex := RChar (fun c => negb (isLineTerminator c)).
Definition rspace : regex := RChar isJSWhitespace.
Definition rword : regex := RChar isWordChar.
Definition oneOf (s : jsstring) (c : jschar) : bool := existsb (N.eqb c) s.

Record regex_match : Type := mkMatch {
  m_index : nat;
  m_end : nat;
  m_text : jsstring;
  m_caps : caps
}.

(** One attempt at position [i], where [s] is the input from [i] on. *)
Definition matchAt (r : regex) (i : nat) (s : jsstring) : option regex_match :=
  rmatch r i s [] (fun e _ c => Some (mkMatch i e (firstn (e - i) s) c)).

(** [RegExp.prototype.exec]: the leftmost match at or after [i]. *)
Fixpoint execFrom (r : regex) (i : nat) (s : jsstring) : option regex_match :=
  match matchAt r i s with
  | Some m => Some m
  | None =>
      match s with
      | [] => None
      | _ :: s' => execFrom r (S i) s'
      end
  end.

Definition regex_test (r : regex) (s : jsstring) : bool :=
  match execFrom r 0 s with Some _ => true | None => false end.

(** [s.replace(r, f)] for a global pattern and a callback that may throw. *)
Fixpoint replaceFrom (fuel : nat) (r : regex) (f : regex_match -> result jsstring)
  (i : nat) (s : jsstring) : result jsstring :=
  match fuel with
  | O => Ok s
  | S fuel' =>
      match matchAt r i s with
      | Some m =>
          rbind (f m) (fun rep =>
            if Nat.eqb (m_end m) i then
              match s with
              | [] => Ok rep
              | x :: s' =>
                  rbind (replaceFrom fuel' r f (S i) s') (fun rest => Ok (rep ++ x :: rest))
              end
            else
              rbind (replaceFrom fuel' r f (m_end m) (skipn (m_end m - i) s))
                (fun rest => Ok (rep ++ rest)))
      | None =>
          match s with
          | [] => Ok []
          | x :: s' => rbind (replaceFrom fuel' r f (S i) s') (fun rest => Ok (x :: rest))
          end
      end
  end.

Definition regex_replace_all (r : regex) (f : regex_match -> result jsstring)
  (s : jsstring) : result jsstring :=
  replaceFrom (S (length s)) r f 0 s.

(** [s.split(r)] for a pattern that never matches the empty string. *)
Fixpoint splitFrom (fuel : nat) (r : regex) (i : nat) (acc s : jsstring) : list jsstring :=
  match fuel with
  | O => [rev acc ++ s]
  | S fuel' =>
      match s with
      | [] => [rev acc]
      | x :: s' =>
          match matchAt r i s with
          | Some m =>
              if Nat.eqb (m_end m) i then splitFrom fuel' r (S i) (x :: acc) s'
              else rev acc :: splitFrom fuel' r (m_end m) [] (skipn (m_end m - i) s)
          | None => splitFrom fuel' r (S i) (x :: acc) s'
          end
      end
  end.

Definition regex_split (r : regex) (s : jsstring) : list jsstring :=
  splitFrom (S (length s)) r 0 [] s.

(** ** The browser built-ins [btoa] and [atob]

    The plugin calls the two host functions; they are modelled after their
    definition in the HTML standard (forgiving-base64 encode and decode). *)

Definition base64Alphabet : jsstring :=
  str "ABCDEFGHIJKLMNOPQRSTUVWXYZabcdefghijklmnopqrstuvwxyz0123456789+/".

Definition padChar : jschar := 61%N.

Definition sextetChar (n : N) : jschar := nth (N.to_nat n) base64Alphabet 0%N.

Definition charSextet (c : jschar) : option N :=
  if in_range 65 90 c then Some (c - 65)%N
  else if in_range 97 122 c then Some (c - 71)%N
  else if in_range 48 57 c then Some (c + 4)%N
  else if N.eqb c 43 then Some 62%N
  else if N.eqb c 47 then Some 63%N
  else None.

(** The 6-bit groups of a byte sequence, the last one padded with zero bits. *)
Fixpoint sextetsOf (l : list N) : list N :=
  match l with
  | [] => []
  | [a] => [a / 4; (a mod 4) * 16]%N
  | [a; b] => [a / 4; (a mod 4) * 16 + b / 16; (b mod 16) * 4]%N
  | a :: b :: c :: rest =>
      [a / 4; (a mod 4) * 16 + b / 16; (b mod 16) * 4 + c / 64; c mod 64]%N
        ++ sextetsOf rest
  end.

Definition padding (n : nat) : jsstring :=
  match Nat.modulo n 3 with
  | 1 => [padChar; padChar]
  | 2 => [padChar]
  | _ => []
  end.

(** A code unit [btoa] accepts. *)
Definition isByte (c : jschar) : bool := N.leb c 255.

Definition btoa (s : jsstring) : result jsstring :=
  if forallb isByte s
  then Ok (map sextetChar (sextetsOf s) ++ padding (length s))
  else Throw InvalidCharacterError.

Definition isAsciiWhitespace (c : jschar) : bool :=
  N.eqb c 9 || N.eqb c 10 || N.eqb c 12 || N.eqb c 13 || N.eqb c 32.

Definition stripPadding (d : jsstring) : jsstring :=
  match rev d with
  | p1 :: p2 :: r =>
      if N.eqb p1 padChar then
        if N.eqb p2 padChar then rev r else rev (p2 :: r)
      else d
  | [p1] => if N.eqb p1 padChar then [] else d
  | [] => d
  end.

Fixpoint mapOpt {A B} (f : A -> option B) (l : list A) : option (list B) :=
  match l with
  | [] => Some []
  | x :: l' =>
      match f x, mapOpt f l' with
      | Some y, Some ys => Some (y :: ys)
      | _, _ => None
      end
  end.

(** The bytes of a sequence of 6-bit groups; left-over bits are dropped. *)
Fixpoint bytesOf (l : list N) : list N :=
  match l with
  | s1 :: s2 :: s3 :: s4 :: rest =>
      [s1 * 4 + s2 / 16; (s2 mod 16) * 16 + s3 / 4; (s3 mod 4) * 64 + s4]%N
        ++ bytesOf rest
  | [s1; s2; s3] => [s1 * 4 + s2 / 16; (s2 mod 16) * 16 + s3 / 4]%N
  | [s1; s2] => [s1 * 4 + s2 / 16]%N
  | _ => []
  end.

Definition atob (data : jsstring) : result jsstring :=
  let d := filter (fun c => negb (isAsciiWhitespace c)) data in
  let d := if Nat.eqb (Nat.modulo (length d) 4) 0 then stripPadding d else d in
  if Nat.eqb (Nat.modulo (length d) 4) 1 then Throw InvalidCharacterError
  else match mapOpt charSextet d with
       | Some sx => Ok (bytesOf sx)
       | None => Throw InvalidCharacterError
       end.

(** ** Embedded-region codec (plugin.js, lines 196-231) *)

Definition scissors : jschar := 9986%N.
Definition dquote : jschar := 34%N.

Definition snippedTagContentAttribute : jsstring :=
  scissors :: str "prettier:content" ++ [scissors].

(** The pattern built by [snipTagContent]:
    [[\s\n]*<tagName([^]*?)>([^]*?)</tagName>[\s\n]*] with flags [gi].
    The source splices [tagName] into the text of the pattern; [rlit_i]
    matches it as a literal, which is the same pattern when the name
    consists of ASCII word characters, as [style] and [script], the two
    names the plugin passes, do.  The properties of [snipTagContent] are
    stated for such names. *)
Definition snipRegex (tagName : jsstring) : regex :=
  RSeq (RStar true rspace)
  (RSeq (rchar_i 60)
  (RSeq (rlit_i tagName)
  (RSeq (RGroup 1 (RStar false rany))
  (RSeq (rchar_i 62)
  (RSeq (RGroup 2 (RStar false rany))
  (RSeq (rlit_i (str "</"))
  (RSeq (rlit_i tagName)
  (RSeq (rchar_i 62)
        (RStar true rspace))))))))).

(** The replacement callback of [snipTagContent]. *)
Definition snipReplacement (tagName placeholder attributes content : jsstring)
  : result jsstring :=
  rbind (btoa content) (fun encoded =>
    Ok (str "<" ++ tagName ++ attributes ++ str " " ++ snippedTagContentAttribute
          ++ str "=" ++ [dquote] ++ encoded ++ [dquote] ++ str ">" ++ placeholder
          ++ str "</" ++ tagName ++ str ">")).

Definition snipTagContent (tagName source placeholder : jsstring) : result jsstring :=
  regex_replace_all (snipRegex tagName)
    (fun m => snipReplacement tagName placeholder (capOr 1 (m_caps m)) (capOr 2 (m_caps m)))
    source.

Definition hasSnippedContent (text : jsstring) : bool :=
  js_includes text snippedTagContentAttribute.

(** The pattern of [unsnipContent], with flags [gi]: group 1 is [<\w+.*?],
    followed by [\s*], the marker attribute name, [=] and a double quote,
    group 2 [.*?], a double quote and [>], then [.*?] and the look-ahead
    [(?=<\/)]. *)
Definition unsnipRegex : regex :=
  RSeq (RGroup 1 (RSeq (rchar_i 60) (RSeq (rplus true rword) (RStar false rdot))))
  (RSeq (RStar true rspace)
  (RSeq (rlit_i snippedTagContentAttribute)
  (RSeq (rlit_i (str "=" ++ [dquote]))
  (RSeq (RGroup 2 (RStar false rdot))
  (RSeq (rlit_i (dquote :: str ">"))
  (RSeq (RStar false rdot)
        (RLookahead (rlit_i (str "</"))))))))).

Definition unsnipReplacement (start encodedContent : jsstring) : result jsstring :=
  rbind (atob encodedContent) (fun decoded => Ok (start ++ str ">" ++ decoded)).

Definition unsnipContent (text : jsstring) : result jsstring :=
  regex_replace_all unsnipRegex
    (fun m => unsnipReplacement (capOr 1 (m_caps m)) (capOr 2 (m_caps m)))
    text.

(** [parsers.svelte.preprocess]. *)
Definition preprocess (text : jsstring) : result jsstring :=
  rbind (snipTagContent (str "style") text []) (fun text =>
  rbind (snipTagContent (str "script") text (str "{}")) (fun text =>
  Ok (js_trim text))).


(** ** Documents

    The values built by [prettier.doc.builders]: strings and tagged objects.
    A line carries the optional [keepIfLonely] property the plugin adds. *)

Inductive doc : Type :=
| DString (s : jsstring)
| DConcat (parts : list doc)
| DIndent (contents : doc)
| DAlign (n : Z) (contents : doc)
| DGroup (contents : doc)
| DFill (parts : list doc)
| DBreakParent
| DLine (soft hard literal : bool) (keepIfLonely : option bool).

Definition concat (parts : list doc) : doc := DConcat parts.
Definition indent (contents : doc) : doc := DIndent contents.
Definition dedent (contents : doc) : doc := DAlign (-1) contents.
Definition group (contents : doc) : doc := DGroup contents.
Definition fill (parts : list doc) : doc := DFill parts.
Definition breakParent : doc := DBreakParent.
Definition line : doc := DLine false false false None.
Definition softline : doc := DLine true false false None.
Definition hardline : doc := concat [DLine false true false None; breakParent].
Definition literalline : doc := concat [DLine false true true None; breakParent].

Fixpoint joinParts (sep : doc) (arr : list doc) : list doc :=
  match arr with
  | [] => []
  | [x] => [x]
  | x :: arr' => x :: sep :: joinParts sep arr'
  end.
Definition join (sep : doc) (arr : list doc) : doc := concat (joinParts sep arr).

(** [Object.assign({}, line, { keepIfLonely: true, hard: true })]. *)
Definition keepIfLonelyLine : doc := DLine false true false (Some true).

(** JavaScript truthiness of a document: only the empty string is falsy. *)
Definition truthy (d : doc) : bool :=
  match d with
  | DString [] => false
  | _ => true
  end.

(** ** Syntax-tree nodes

    The objects produced by the Svelte parser, one constructor per value of
    [node.type] the printer distinguishes.  Every node carries its source
    range.  [Other] stands for a node of any type the printer has no case
    for. *)

Record loc : Type := mkLoc { loc_start : nat; loc_end : nat }.

(** The destructuring patterns walked by [expandNode]; [PNull] is [null] and
    [PString] the pre-v3.20 string form. *)
Inductive pattern : Type :=
| PNull
| PString (s : jsstring)
| ArrayPattern (elements : list pattern)
| AssignmentPattern (left right : pattern)
| PIdentifier (name : jsstring)
| PLiteral (raw : jsstring)
| ObjectPattern (properties : list pattern)
| Property (key value : pattern)
| RestElement (argument : pattern)
| POther (type : jsstring).

Inductive container_kind : Type :=
| Element | InlineComponent | Slot | Window | Head | Title.

Inductive block_kind : Type := ThenBlock | PendingBlock | CatchBlock.

Inductive node : Type :=
| Root (module instance css : option loc) (html : node)
| Fragment (l : loc) (children : list node)
| Text (l : loc) (raw : option jsstring) (data : jsstring)
| Container (kind : container_kind) (l : loc) (name : jsstring)
    (expression : option node) (attributes children : list node)
| OptionsOrBody (l : loc) (name : jsstring) (attributes : list node)
| Identifier (l : loc) (name : jsstring)
| AttributeShorthand (l : loc) (expression : node)
| Attribute (l : loc) (name : jsstring) (value : option (list node))
| MustacheTag (l : loc) (expression : node)
| IfBlock (l : loc) (expression : node) (children : list node) (else_ : option node)
| ElseBlock (l : loc) (children : list node)
| EachBlock (l : loc) (expression context : node) (index : option jsstring)
    (key : option node) (children : list node) (else_ : option node)
| AwaitBlock (l : loc) (expression : node) (value error : pattern)
    (pending then_ catch : node)
| SubBlock (kind : block_kind) (l : loc) (children : list node)
| EventHandler (l : loc) (name : jsstring) (modifiers : list jsstring)
    (expression : option node)
| Binding (l : loc) (name : jsstring) (expression : node)
| ClassDirective (l : loc) (name : jsstring) (expression : node)
| LetDirective (l : loc) (name : jsstring) (expression : option node)
| DebugTag (l : loc) (identifiers : list node)
| RefDirective (l : loc) (name : jsstring)
| Comment (l : loc) (data : jsstring)
| Transition (l : loc) (intro outro : bool) (name : jsstring)
    (modifiers : list jsstring) (expression : option node)
| Action (l : loc) (name : jsstring) (expression : option node)
| Animation (l : loc) (name : jsstring) (expression : option node)
| RawMustacheTag (l : loc) (expression : node)
| Spread (l : loc) (expression : node)
| Script (l : loc) (attributes : list node)
| BinaryExpression (l : loc) (left : node) (operator : jsstring) (right : node)
| Literal (l : loc) (raw : jsstring)
| ConditionalExpression (l : loc) (test consequent alternate : node)
| Other (l : loc) (type : jsstring).

(** The source position of a node; in an [Attribute], [value = None] is the
    JavaScript value [true]. *)
Definition locOf (n : node) : loc :=
  match n with
  | Root _ _ _ _ => mkLoc 0 0
  | Fragment l _ | Text l _ _ | Container _ l _ _ _ _ | OptionsOrBody l _ _
  | Identifier l _ | AttributeShorthand l _ | Attribute l _ _ | MustacheTag l _
  | IfBlock l _ _ _ | ElseBlock l _ | EachBlock l _ _ _ _ _ _
  | AwaitBlock l _ _ _ _ _ _ | SubBlock _ l _ | EventHandler l _ _ _
  | Binding l _ _ | ClassDirective l _ _ | LetDirective l _ _ | DebugTag l _
  | RefDirective l _ | Comment l _ | Transition l _ _ _ _ _ | Action l _ _
  | Animation l _ _ | RawMustacheTag l _ | Spread l _ | Script l _
  | BinaryExpression l _ _ _ | Literal l _ | ConditionalExpression l _ _ _
  | Other l _ => l
  end.

Definition locStart (n : node) : nat := loc_start (locOf n).
Definition locEnd (n : node) : nat := loc_end (locOf n).

(** [node.children], when the node has the property. *)
Definition childrenOf (n : node) : option (list node) :=
  match n with
  | Fragment _ cs | Container _ _ _ _ _ cs | IfBlock _ _ cs _ | ElseBlock _ cs
  | EachBlock _ _ _ _ _ cs _ | SubBlock _ _ cs => Some cs
  | _ => None
  end.

(** [node.name], when the node has the property. *)
Definition nameOf (n : node) : option jsstring :=
  match n with
  | Container _ _ name _ _ _ | OptionsOrBody _ name _ | Identifier _ name
  | Attribute _ name _ | EventHandler _ name _ _ | Binding _ name _
  | ClassDirective _ name _ | LetDirective _ name _ | RefDirective _ name
  | Transition _ _ _ name _ _ | Action _ name _ | Animation _ name _ => Some name
  | _ => None
  end.

Definition isElement (n : node) : bool :=
  match n with Container Element _ _ _ _ _ => true | _ => false end.

(** ** Tables and node predicates (plugin.js, lines 10-99 and 233-384) *)

Definition selfClosingTags : list jsstring :=
  map str ["area"; "base"; "br"; "col"; "embed"; "hr"; "img"; "input"; "link";
           "meta"; "param"; "source"; "track"; "wbr"]%string.

Definition inlineElements : list jsstring :=
  map str ["a"; "abbr"; "audio"; "b"; "bdi"; "bdo"; "br"; "button"; "canvas";
           "cite"; "code"; "data"; "datalist"; "del"; "dfn"; "em"; "embed"; "i";
           "iframe"; "img"; "input"; "ins"; "kbd"; "label"; "map"; "mark";
           "meter"; "noscript"; "object"; "output"; "picture"; "progress"; "q";
           "ruby"; "s"; "samp"; "select"; "slot"; "small"; "span"; "strong";
           "sub"; "sup"; "svg"; "template"; "textarea"; "time"; "u"; "var";
           "video"; "wbr"]%string.

Definition formattableAttributes : list jsstring := map str ["class"]%string.

Definition unsupportedLanguages : list jsstring :=
  map str ["coffee"; "coffeescript"; "pug"; "styl"; "stylus"; "sass"]%string.

(** [arr.includes(s)] on an array of strings. *)
Definition includes (arr : list jsstring) (s : jsstring) : bool := existsb (seqb s) arr.

Definition isASTNode (n : node) : bool :=
  match n with Root _ _ _ _ => true | _ => false end.

(** The test applied by [isPreTagContent] to each entry of [path.stack].
    [name.toLowerCase() === "pre"] holds exactly for the eight spellings of
    the three ASCII letters. *)
Definition isPreOrUnformattable (n : node) : bool :=
  match n with
  | Container Element _ name _ _ _ => seqb (map asciiLower name) (str "pre")
  | Attribute _ name _ => negb (includes formattableAttributes name)
  | _ => false
  end.

(** A path is the stack of nodes from the current one up to the root. *)
Definition isPreTagContent (stack : list node) : bool :=
  existsb isPreOrUnformattable stack.

Definition isInlineElement (n : node) : bool :=
  match n with
  | Container Element _ name _ _ _ => includes inlineElements name
  | _ => false
  end.

Definition isWhitespaceChar (ch : jschar) : bool := oneOf [32; 9; 10; 13]%N ch.

(** [node.raw || node.data] on a text node. *)
Definition rawOrData (raw : option jsstring) (data : jsstring) : jsstring :=
  match raw with
  | Some (c :: r) => c :: r
  | _ => data
  end.

(** [isWhitespaceChar(raw[i])]: indexing past the end yields [undefined],
    which [indexOf] does not find; [raw] itself may be [undefined]. *)
Definition canBreakAfter (n : node) : result bool :=
  match n with
  | Text _ raw _ =>
      match raw with
      | None => Throw TypeError
      | Some r => Ok (match rev r with c :: _ => isWhitespaceChar c | [] => false end)
      end
  | Container Element _ _ _ _ _ => Ok (negb (isInlineElement n))
  | _ => Ok true
  end.

Definition canBreakBefore (n : node) : result bool :=
  match n with
  | Text _ raw _ =>
      match raw with
      | None => Throw TypeError
      | Some r => Ok (match r with c :: _ => isWhitespaceChar c | [] => false end)
      end
  | Container Element _ _ _ _ _ => Ok (negb (isInlineElement n))
  | _ => Ok true
  end.

Definition isInlineNode (n : node) : bool :=
  match n with
  | Text _ raw data =>
      let text := rawOrData raw data in
      let isAllWhitespace := seqb (js_trim text) [] in
      negb isAllWhitespace || seqb text []
  | MustacheTag _ _ | EachBlock _ _ _ _ _ _ _ | IfBlock _ _ _ _ => true
  | Container Element _ _ _ _ _ => isInlineElement n
  | _ => false
  end.

Definition getChildren (n : node) : list node :=
  match childrenOf n with Some cs => cs | None => [] end.

(** [getNextNode] and [getPreviousNode]: [stack] is the path, the current
    node first.  Without a parent, [getChildren(null)] throws. *)
Definition getNextNode (stack : list node) : result (option node) :=
  match stack with
  | n :: parent :: _ =>
      let parent := match parent with Root _ _ _ html => html | _ => parent end in
      Ok (find (fun child => Nat.eqb (locStart child) (locEnd n)) (getChildren parent))
  | _ => Throw TypeError
  end.

Definition getPreviousNode (stack : list node) : result (option node) :=
  match stack with
  | n :: parent :: _ =>
      let parent := match parent with Root _ _ _ html => html | _ => parent end in
      Ok (find (fun child => Nat.eqb (locEnd child) (locStart n)) (getChildren parent))
  | _ => Throw TypeError
  end.

Definition isEmptyNode (n : node) : bool :=
  match n with
  | Text _ raw data => seqb (js_trim (rawOrData raw data)) []
  | _ => false
  end.

Definition isIgnoreDirective (n : node) : bool :=
  match n with
  | Comment _ data => seqb (js_trim data) (str "prettier-ignore")
  | _ => false
  end.

(** [printRaw]: the nodes with a [children] property are listed case by
    case (see [childrenOf]); [node.raw] exists on text and literal nodes. *)
Fixpoint printRaw (n : node) : jsstring :=
  match n with
  | Fragment _ children | Container _ _ _ _ _ children | IfBlock _ _ children _
  | ElseBlock _ children | EachBlock _ _ _ _ _ children _ | SubBlock _ _ children =>
      joinStrings [] (map printRaw children)
  | Text _ (Some raw) _ => raw
  | Literal _ raw => raw
  | _ => []
  end.

Definition isTextNode (n : node) : bool :=
  match n with Text _ _ _ => true | _ => false end.

(** [node["attributes"]], when the node has the property. *)
Definition attributesOf (n : node) : option (list node) :=
  match n with
  | Container _ _ _ _ attributes _ | OptionsOrBody _ _ attributes
  | Script _ attributes => Some attributes
  | _ => None
  end.

(** An attribute value as a JavaScript value: [undefined], [true] or an
    array of nodes. *)
Inductive attr_value : Type :=
| VUndefined
| VTrue
| VArray (nodes : list node).

Definition valueOf (n : node) : attr_value :=
  match n with
  | Attribute _ _ None => VTrue
  | Attribute _ _ (Some nodes) => VArray nodes
  | _ => VUndefined
  end.

Definition getAttributeValue (attributeName : jsstring) (n : node) : result attr_value :=
  match attributesOf n with
  | None => Throw TypeError
  | Some attributes =>
      match find (fun attribute => opt_seqb (nameOf attribute) (Some attributeName))
              attributes with
      | Some langAttribute => Ok (valueOf langAttribute)
      | None => Ok VUndefined
      end
  end.

Definition getAttributeTextValue (attributeName : jsstring) (n : node)
  : result (option jsstring) :=
  rbind (getAttributeValue attributeName n) (fun value =>
    match value with
    | VArray nodes =>
        match find isTextNode nodes with
        | Some (Text _ _ data) => Ok (Some data)
        | _ => Ok None
        end
    | _ => Ok None
    end).

(** [value.replace(/^text\//, "")]. *)
Definition stripTextPrefix (value : jsstring) : jsstring :=
  if startsWith (str "text/") value then skipn 5 value else value.

Definition getLangAttribute (n : node) : result (option jsstring) :=
  rbind (getAttributeTextValue (str "lang") n) (fun value =>
    match value with
    | Some v => Ok (Some (stripTextPrefix v))
    | None => Ok None
    end).

Definition isNodeSupportedLanguage (n : node) : result bool :=
  rbind (getLangAttribute n) (fun lang =>
    match lang with
    | Some (c :: l) => Ok (negb (includes unsupportedLanguages (c :: l)))
    | _ => Ok true
    end).

Definition isLoneMustacheTag (value : option (list node)) : bool :=
  match value with
  | Some [MustacheTag _ _] => true
  | _ => false
  end.

Definition isAttributeShorthand (value : option (list node)) : bool :=
  match value with
  | Some [AttributeShorthand _ _] => true
  | _ => false
  end.

(** [expression.type === "Identifier" && expression.name === name]. *)
Definition isIdentifierNamed (expression : node) (name : jsstring) : bool :=
  match expression with
  | Identifier _ x => seqb x name
  | _ => false
  end.

Definition isOrCanBeConvertedToShorthand (name : jsstring) (value : option (list node))
  : bool :=
  if isAttributeShorthand value then true
  else match value with
       | Some [MustacheTag _ expression] => isIdentifierNamed expression name
       | _ => false
       end.

Definition getSnippedContent (n : node) : result jsstring :=
  rbind (getAttributeTextValue snippedTagContentAttribute n) (fun encodedContent =>
    match encodedContent with
    | Some (c :: e) => atob (c :: e)
    | _ => Ok []
    end).

(** ** Predicates and trimming on documents (plugin.js, lines 386-474) *)

Definition isLine (d : doc) : bool :=
  match d with DLine _ _ _ _ => true | _ => false end.

Definition isKept (keepIfLonely : option bool) : bool :=
  match keepIfLonely with Some true => true | _ => false end.

Definition isLineDiscardedIfLonely (d : doc) : bool :=
  match d with
  | DLine _ _ _ k => negb (isKept k)
  | _ => false
  end.

(** [isEmptyDoc] with [isEmptyGroup] inlined at the nested call:
    [!parts.find(doc => !isEmptyDoc(doc))], where a found document is
    truthy. *)
Fixpoint isEmptyDoc (d : doc) : bool :=
  match d with
  | DString s => Nat.eqb (length s) 0
  | DLine _ _ _ k => negb (isKept k)
  | DIndent contents | DAlign _ contents | DGroup contents =>
      if truthy contents then isEmptyDoc contents else false
  | DConcat parts | DFill parts =>
      match find (fun d' => negb (isEmptyDoc d')) parts with
      | Some found => negb (truthy found)
      | None => true
      end
  | DBreakParent => false
  end.

Definition isEmptyGroup (g : list doc) : bool :=
  match find (fun d => negb (isEmptyDoc d)) g with
  | Some found => negb (truthy found)
  | None => true
  end.

Definition getParts (d : doc) : option (list doc) :=
  match d with
  | DFill parts | DConcat parts => Some parts
  | _ => None
  end.

Fixpoint findIndex {A} (p : A -> bool) (l : list A) : option nat :=
  match l with
  | [] => None
  | x :: l' => if p x then Some 0 else option_map S (findIndex p l')
  end.

(** [findLastIndex(isMatch, items)]; [None] is the result [-1]. *)
Fixpoint findLastIndex {A} (isMatch : A -> bool) (items : list A) : option nat :=
  match items with
  | [] => None
  | x :: l' =>
      match findLastIndex isMatch l' with
      | Some i => Some (S i)
      | None => if isMatch x then Some 0 else None
      end
  end.

(** The trimming helpers splice their argument in place and recurse into
    the [parts] array of its first (last) element.  Here they return the
    removed documents ([None] for [undefined]) together with the array
    after the splice; [trimLeftIn d] is [trimLeft(getParts(d))] followed by
    the update of [d]. *)
Section Trim.
Variable isWhitespace : doc -> bool.

Definition trimLeftStep (nested : doc -> option (list doc) * doc) (g : list doc)
  : option (list doc) * list doc :=
  let firstNonWhitespace :=
    match findIndex (fun d => negb (isWhitespace d)) g with
    | Some i => i
    | None => length g
    end in
  if Nat.ltb 0 firstNonWhitespace
  then (Some (firstn firstNonWhitespace g), skipn firstNonWhitespace g)
  else match g with
       | d :: rest => let (removed, d') := nested d in (removed, d' :: rest)
       | [] => (None, [])
       end.

Fixpoint trimLeftIn (d : doc) : option (list doc) * doc :=
  match d with
  | DConcat parts =>
      let (removed, parts') := trimLeftStep trimLeftIn parts in (removed, DConcat parts')
  | DFill parts =>
      let (removed, parts') := trimLeftStep trimLeftIn parts in (removed, DFill parts')
  | _ => (None, d)
  end.

Definition trimLeft (g : list doc) : option (list doc) * list doc :=
  trimLeftStep trimLeftIn g.

Fixpoint mapLast {A} (f : A -> A) (l : list A) : list A :=
  match l with
  | [] => []
  | [x] => [f x]
  | x :: l' => x :: mapLast f l'
  end.

Definition onLast (nested : doc -> option (list doc) * doc)
  : list doc -> option (list doc) * list doc :=
  fix go (g : list doc) :=
    match g with
    | [] => (None, [])
    | [d] => let (removed, d') := nested d in (removed, [d'])
    | x :: g' => let (removed, g'') := go g' in (removed, x :: g'')
    end.

Definition trimRightStep (nested : doc -> option (list doc) * doc) (g : list doc)
  : option (list doc) * list doc :=
  match g with
  | [] => (None, [])
  | _ :: _ =>
      let keep :=
        match findLastIndex (fun d => negb (isWhitespace d)) g with
        | Some i => S i
        | None => 0
        end in
      if Nat.ltb keep (length g)
      then (Some (skipn keep g), firstn keep g)
      else onLast nested g
  end.

Fixpoint trimRightIn (d : doc) : option (list doc) * doc :=
  match d with
  | DConcat parts =>
      let (removed, parts') := trimRightStep trimRightIn parts in (removed, DConcat parts')
  | DFill parts =>
      let (removed, parts') := trimRightStep trimRightIn parts in (removed, DFill parts')
  | _ => (None, d)
  end.

Definition trimRight (g : list doc) : option (list doc) * list doc :=
  trimRightStep trimRightIn g.

Definition trim (docs : list doc) : list doc :=
  snd (trimRight (snd (trimLeft docs))).
End Trim.

Definition orEmpty (o : option (list doc)) : list doc :=
  match o with Some l => l | None => [] end.

(** [dedentFinalNewline]. *)
Definition dedentFinalNewline (docs : list doc) : list doc :=
  let (trimmedRight, docs) := trimRight isLine docs in
  match trimmedRight with
  | Some removed => docs ++ [dedent (last removed (DString []))]
  | None => docs
  end.

(** [extractOutermostNewlines]. *)
Definition extractOutermostNewlines (docs : list doc) : list doc :=
  let (leadingLines, docs) := trimLeft isLine docs in
  let (trailingLines, docs) := trimRight isLine docs in
  orEmpty leadingLines
    ++ (if negb (isEmptyGroup docs) then [fill docs] else [])
    ++ orEmpty trailingLines.

(** ** Splitting text into words (plugin.js, lines 1068-1080) *)

Definition blank : jschar -> bool := oneOf [9; 12; 13; 32]%N.
Definition newline : jschar := 10%N.

(** [/[\t\n\f\r ]+/] *)
Definition wordSeparator : regex := rplus true (RChar (oneOf [9; 10; 12; 13; 32]%N)).

(** [/^([\t\f\r ]*\n){2}/] *)
Definition leadingBlankLine : regex :=
  let g := RGroup 1 (RSeq (RStar true (RChar blank)) (rchar newline)) in
  RSeq RBol (RSeq g g).

(** [/( \n [\t\f\r ]* ){2} $/], written here with spaces between its parts. *)
Definition trailingBlankLine : regex :=
  let g := RGroup 1 (RSeq (rchar newline) (RStar true (RChar blank))) in
  RSeq g (RSeq g REol).

(** [/\n\r?\s*\n\r?/] *)
Definition emptyLine : regex :=
  RSeq (rchar newline) (RSeq (ropt (rchar 13)) (RSeq (RStar true rspace)
    (RSeq (rchar newline) (ropt (rchar 13))))).

Definition isEmptyStringDoc (d : doc) : bool :=
  match d with DString [] => true | _ => false end.

(** [docs[0] = x]: assignment at index 0 extends an empty array. *)
Definition setFirst (x : doc) (docs : list doc) : list doc :=
  match docs with
  | [] => [x]
  | _ :: rest => x :: rest
  end.

(** [docs[docs.length - 1] = x]: on an empty array the index is [-1] and no
    element is added. *)
Definition setLast (x : doc) (docs : list doc) : list doc :=
  mapLast (fun _ => x) docs.

Definition splitTextToDocs (text : jsstring) : list doc :=
  let docs := regex_split wordSeparator text in
  let docs := filter (fun s => negb (isEmptyStringDoc s))
                (joinParts line (map DString docs)) in
  let docs := if regex_test leadingBlankLine text then setFirst keepIfLonelyLine docs
              else docs in
  if regex_test trailingBlankLine text then setLast keepIfLonelyLine docs else docs.

(** ** [expandNode] (plugin.js, lines 1115-1150) *)

Definition undefinedString : jsstring := str "undefined".

(** [node.name] read off a pattern and used in a string concatenation;
    reading a property of [null] throws. *)
Definition patternName (p : pattern) : result (option jsstring) :=
  match p with
  | PNull => Throw TypeError
  | PIdentifier name => Ok (Some name)
  | _ => Ok None
  end.

Definition shown (o : option jsstring) : jsstring :=
  match o with Some s => s | None => undefinedString end.

Fixpoint sequenceResults {A} (l : list (result A)) : result (list A) :=
  match l with
  | [] => Ok []
  | r :: l' => rbind r (fun x => rbind (sequenceResults l') (fun xs => Ok (x :: xs)))
  end.

Fixpoint expandNode (p : pattern) : result jsstring :=
  match p with
  | PNull => Ok []
  | PString s => Ok (str " " ++ s)
  | ArrayPattern elements =>
      rbind (sequenceResults (map expandNode elements)) (fun parts =>
        Ok (str " [" ++ skipn 1 (joinStrings (str ",") parts) ++ str "]"))
  | AssignmentPattern lhs rhs =>
      rbind (expandNode lhs) (fun l =>
      rbind (expandNode rhs) (fun r => Ok (l ++ str " =" ++ r)))
  | PIdentifier name => Ok (str " " ++ name)
  | PLiteral raw => Ok (str " " ++ raw)
  | ObjectPattern properties =>
      rbind (sequenceResults (map expandNode properties)) (fun parts =>
        Ok (str " {" ++ joinStrings (str ",") parts ++ str " }"))
  | Property key value =>
      match value with
      | PNull => Throw TypeError
      | ObjectPattern _ =>
          rbind (patternName key) (fun k =>
          rbind (expandNode value) (fun v => Ok (str " " ++ shown k ++ str ":" ++ v)))
      | PIdentifier vname =>
          rbind (patternName key) (fun k =>
            if negb (opt_seqb k (Some vname)) then
              rbind (expandNode key) (fun ks =>
              rbind (expandNode value) (fun v => Ok (ks ++ str ":" ++ v)))
            else expandNode value)
      | _ => expandNode value
      end
  | RestElement argument =>
      rbind (patternName argument) (fun a => Ok (str " ..." ++ shown a))
  | POther type => Throw (UnknownNodeType type)
  end.

(** ** [extractAttributes] and [getText] (plugin.js, lines 104-151) *)

Definition isAsciiLetter (c : jschar) : bool := in_range 65 90 c || in_range 97 122 c.

(** [/<[a-z]+\s*(.*?)>/i] *)
Definition extractAttributesRegex : regex :=
  RSeq (rchar_i 60) (RSeq (rplus true (RChar isAsciiLetter))
    (RSeq (RStar true rspace) (RSeq (RGroup 1 (RStar false rdot)) (rchar_i 62)))).

(** [/([^\s=]+)(?:=(Q)(.*?)\2)?/gi], where [Q] is the alternative of the
    double and the single quote. *)
Definition attributeRegex : regex :=
  RSeq (RGroup 1 (rplus true (RChar (fun c => negb (isJSWhitespace c || N.eqb c 61)))))
    (ropt (RSeq (rchar_i 61) (RSeq (RGroup 2 (RAlt (rchar_i 34) (rchar_i 39)))
       (RSeq (RGroup 3 (RStar false rdot)) (RBackref 2))))).

Definition attributeOfMatch (m : regex_match) : node :=
  let name := capOr 1 (m_caps m) in
  let attrStart := m_index m in
  let valueNode :=
    match getCap 3 (m_caps m) with
    | Some (c :: v) =>
        let value := c :: v in
        let valueStart := attrStart + length name in
        let valueStart :=
          match getCap 2 (m_caps m) with
          | Some (_ :: _) => valueStart + 2
          | _ => valueStart
          end in
        Some [Text (mkLoc valueStart (valueStart + length value)) None value]
    | _ => None
    end in
  Attribute (mkLoc attrStart (attrStart + length (m_text m))) name valueNode.

(** The [exec] loop; each match consumes at least one character, so the
    length of the string bounds the number of iterations. *)
Fixpoint execLoop (fuel lastIndex : nat) (s : jsstring) : list node :=
  match fuel with
  | O => []
  | S fuel' =>
      match execFrom attributeRegex lastIndex (skipn lastIndex s) with
      | Some m => attributeOfMatch m :: execLoop fuel' (m_end m) s
      | None => []
      end
  end.

Definition extractAttributes (html : jsstring) : result (list node) :=
  match execFrom extractAttributesRegex 0 html with
  | None => Throw TypeError
  | Some m =>
      let attributesString := capOr 1 (m_caps m) in
      Ok (execLoop (S (length attributesString)) 0 attributesString)
  end.

(** ** Options *)

Record options : Type := mkOptions {
  svelteSortOrder : jsstring;
  svelteStrictMode : bool;
  svelteBracketNewLine : bool;
  svelteAllowShorthand : bool;
  svelteIndentScriptAndStyle : bool;
  originalText : jsstring
}.

Definition defaultOptions (text : jsstring) : options :=
  mkOptions (str "scripts-styles-markup") false false true true text.

Definition sortOrderSeparator : jschar := 45%N.
Definition parseSortOrder (sortOrder : jsstring) : list jsstring :=
  splitOn sortOrderSeparator sortOrder.

(** ** The printing monad

    [print] reads and writes the module-level variable [ignoreNext] and may
    throw.  A computation takes the current value of the flag and returns
    its outcome together with the new value; the flag keeps its value when
    an exception propagates, as a module-level variable does. *)

Definition M (A : Type) : Type := bool -> result A * bool.

Definition ret {A} (a : A) : M A := fun ignoreNext => (Ok a, ignoreNext).
Definition throw {A} (e : error) : M A := fun ignoreNext => (Throw e, ignoreNext).
Definition lift {A} (r : result A) : M A := fun ignoreNext => (r, ignoreNext).
Definition bind {A B} (m : M A) (f : A -> M B) : M B :=
  fun ignoreNext =>
    match m ignoreNext with
    | (Ok a, ignoreNext') => f a ignoreNext'
    | (Throw e, ignoreNext') => (Throw e, ignoreNext')
    end.
Definition getIgnoreNext : M bool := fun ignoreNext => (Ok ignoreNext, ignoreNext).
Definition setIgnoreNext (b : bool) : M unit := fun _ => (Ok tt, b).

Declare Scope printer_scope.
Delimit Scope printer_scope with printer.
Notation "x <- m ;; k" := (bind m (fun x => k))
  (at level 61, m at next level, right associativity) : printer_scope.
Notation "m ;;; k" := (bind m (fun _ => k))
  (at level 61, right associativity) : printer_scope.
Local Open Scope printer_scope.

Definition mapM {A B} (f : A -> M B) : list A -> M (list B) :=
  fix go (l : list A) : M (list B) :=
    match l with
    | [] => ret []
    | x :: l' => y <- f x ;; ys <- go l' ;; ret (y :: ys)
    end.

Definition optM {A B} (f : A -> M B) (o : option A) : M (option B) :=
  match o with
  | Some x => y <- f x ;; ret (Some y)
  | None => ret None
  end.

Definition dstr (s : string) : doc := DString (str s).
Arguments dstr s%_string.

(** ** [printChildren] (plugin.js, lines 958-1042)

    The three local variables of the function are the fields of
    [child_state]; [lastBreakIndex = None] is the value [-1]. *)

Record child_state : Type := mkChildState {
  childDocs : list doc;
  currentGroup : list (doc * node);
  lastBreakIndex : option nat
}.

Definition isTruthy (childDoc : option doc) : bool :=
  match childDoc with Some d => truthy d | None => false end.

Definition lastOf {A} (l : list A) : option A :=
  match rev l with x :: _ => Some x | [] => None end.

Definition linebreakPossible (st : child_state) : child_state :=
  let docs :=
    match lastBreakIndex st with
    | Some i =>
        if Nat.ltb (S i) (length (childDocs st))
        then firstn i (childDocs st) ++ [concat (skipn i (childDocs st))]
        else childDocs st
    | None => childDocs st
    end in
  mkChildState docs (currentGroup st) None.

Section PrintChildren.
(** [childPath.call(print)] on a child node. *)
Variable printChild : node -> M doc.
Variable isPreformat : bool.

Definition outputChildDoc (childDoc : option doc) (fromNodes : list node)
  (st : child_state) : result child_state :=
  rbind
    (if isPreformat then Ok st
     else
       rbind
         (if negb (isTruthy childDoc) then Ok true
          else match fromNodes with
               | firstNode :: _ => canBreakBefore firstNode
               | [] => Throw TypeError
               end)
         (fun breakBefore =>
            let st :=
              if breakBefore then
                let st := linebreakPossible st in
                match childDoc, lastOf (childDocs st) with
                | Some d, Some lastChild =>
                    if negb (isLineDiscardedIfLonely d) && negb (isLine lastChild)
                    then mkChildState (childDocs st ++ [softline])
                           (currentGroup st) (lastBreakIndex st)
                    else st
                | _, _ => st
                end
              else st in
            match lastBreakIndex st with
            | None =>
                if isTruthy childDoc then
                  match lastOf fromNodes with
                  | Some lastNode =>
                      rbind (canBreakAfter lastNode) (fun breakAfter =>
                        if negb breakAfter
                        then Ok (mkChildState (childDocs st) (currentGroup st)
                                   (Some (length (childDocs st))))
                        else Ok st)
                  | None => Throw TypeError
                  end
                else Ok st
            | Some _ => Ok st
            end))
    (fun st =>
       match childDoc with
       | Some d =>
           if truthy d
           then Ok (mkChildState (childDocs st ++ [d]) (currentGroup st)
                      (lastBreakIndex st))
           else Ok st
       | None => Ok st
       end).

Definition lastChildDocProduced (st : child_state) : result child_state :=
  outputChildDoc None [] st.

Fixpoint outputEach (docs : list doc) (fromNodes : list node) (st : child_state)
  : result child_state :=
  match docs with
  | [] => Ok st
  | d :: docs' =>
      rbind (outputChildDoc (Some d) fromNodes st) (outputEach docs' fromNodes)
  end.

Definition flush (st : child_state) : result child_state :=
  let groupDocs := map fst (currentGroup st) in
  let groupNodes := map snd (currentGroup st) in
  rbind (outputEach (extractOutermostNewlines groupDocs) groupNodes st) (fun st =>
    Ok (mkChildState (childDocs st) [] (lastBreakIndex st))).

(** The callback of [path.each]. *)
Definition eachChild (childNode : node) (st : child_state) : M child_state :=
  childDoc <- printChild childNode ;;
  if isInlineNode childNode then
    ret (mkChildState (childDocs st) (currentGroup st ++ [(childDoc, childNode)])
           (lastBreakIndex st))
  else
    st <- lift (flush st) ;;
    lift (outputChildDoc
            (Some (if isLine childDoc then childDoc else concat [breakParent; childDoc]))
            [childNode] st).

Definition forEachChild : list node -> child_state -> M child_state :=
  fix go (children : list node) (st : child_state) : M child_state :=
    match children with
    | [] => ret st
    | childNode :: rest => st <- eachChild childNode st ;; go rest st
    end.

Definition printChildren (children : list node) : M (list doc) :=
  st <- forEachChild children (mkChildState [] [] None) ;;
  st <- lift (flush st) ;;
  st <- lift (lastChildDocProduced st) ;;
  ret (childDocs st).

(** [printIndentedWithNewlines]. *)
Definition printIndentedWithNewlines (children : list node) : M doc :=
  docs <- printChildren children ;;
  ret (indent (concat ([softline] ++ trim isLine docs ++ [dedent softline]))).

(** [printIndentedPreservingWhitespace]. *)
Definition printIndentedPreservingWhitespace (children : list node) : M doc :=
  docs <- printChildren children ;;
  ret (indent (concat (dedentFinalNewline docs))).
End PrintChildren.

(** ** The printer (plugin.js, lines 489-957 and 1107-1114) *)

Section Printer.
(** [prettier.format] with the [babel] and with the [html] parser: the
    two external formatters the [Script] case hands text to. *)
Variable formatBabel : jsstring -> result jsstring.
Variable formatHtml : jsstring -> result jsstring.
Variable options__1 : options.

Definition strict : bool := svelteStrictMode options__1.
Definition open : jsstring := if strict then dquote :: str "{" else str "{".
Definition close : jsstring := if strict then str "}" ++ [dquote] else str "}".

(** [getText]; the nodes of this tree carry no [leadingComments]. *)
Definition getText (l : loc) : jsstring :=
  js_slice (originalText options__1) (loc_start l) (loc_end l).

(** The document returned for a node whose printing is suppressed: the
    source slice, split at line feeds, every piece but the first preceded
    by [literalline]. *)
Definition printIgnored (n : node) : doc :=
  match splitOn newline (js_slice (originalText options__1) (locStart n) (locEnd n)) with
  | [] => concat []
  | o :: rest =>
      concat (List.concat ([DString o] :: map (fun o => [literalline; DString o]) rest))
  end.

(** The test made on entry for every node but the root. *)
Definition unlessIgnored (n : node) (body : M doc) : M doc :=
  ignoreNext <- getIgnoreNext ;;
  if ignoreNext && (negb (isTextNode n) || negb (isEmptyNode n))
  then setIgnoreNext false ;;; ret (printIgnored n)
  else body.

Definition printScript (n : node) : M doc :=
  content <- lift (getSnippedContent n) ;;
  jsCode <- lift (formatBabel content) ;;
  htmlCode <- lift (formatHtml (str "<script>" ++ jsCode ++ str "</script>")) ;;
  ret (DString htmlCode).

Definition modifiersDoc (modifiers : list jsstring) : doc :=
  match modifiers with
  | [] => dstr ""
  | _ :: _ => concat [dstr "|"; join (dstr "|") (map DString modifiers)]
  end.

Definition assigned (e : doc) : doc :=
  concat [dstr "="; DString open; e; DString close].

Definition hasContent (block : node) : result bool :=
  match childrenOf block with
  | Some children => Ok (existsb (fun n => negb (isEmptyNode n)) children)
  | None => Throw TypeError
  end.

Fixpoint print (stack : list node) (n : node) {struct n} : M doc :=
  let path := n :: stack in
  (* [printJS(path, print, name)] and [path.call(print, name)] *)
  let printJS := print path in
  match n with
  | Root module instance css html =>
      let script (slot : option loc) (parts : list doc) : M (list doc) :=
        match slot with
        | Some l =>
            attributes <- lift (extractAttributes (getText l)) ;;
            d <- unlessIgnored (Script l attributes) (printScript (Script l attributes)) ;;
            ret (parts ++ [d])
        | None => ret parts
        end in
      let addPart (p : jsstring) (parts : list doc) : M (list doc) :=
        if seqb p (str "scripts") then
          parts <- script module parts ;; script instance parts
        else if seqb p (str "styles") then
          match css with
          | Some l =>
              d <- unlessIgnored (Other l (str "Style"))
                     (throw (UnknownNodeType (str "Style"))) ;;
              ret (parts ++ [d])
          | None => ret parts
          end
        else if seqb p (str "markup") then
          htmlDoc <- print path html ;;
          ret (if truthy htmlDoc then parts ++ [htmlDoc] else parts)
        else throw TypeError in
      parts <- (fix forEach (ps : list jsstring) (parts : list doc) : M (list doc) :=
                  match ps with
                  | [] => ret parts
                  | p :: ps' => parts <- addPart p parts ;; forEach ps' parts
                  end) (parseSortOrder (svelteSortOrder options__1)) [] ;;
      setIgnoreNext false ;;;
      ret (group (join hardline parts))
  | _ =>
    unlessIgnored n
    match n with
    | Root _ _ _ _ => ret (dstr "") (* handled above *)
    | Fragment _ children =>
        if Nat.eqb (length children) 0 || forallb isEmptyNode children then ret (dstr "")
        else if negb (isPreTagContent path) then
          docs <- printChildren (print path) (isPreTagContent path) children ;;
          ret (concat (trim isLine docs ++ [hardline]))
        else
          docs <- printChildren (print path) (isPreTagContent path) children ;;
          ret (concat docs)
    | Text _ raw data =>
        if negb (isPreTagContent path) then
          if isEmptyNode n
          then ret (DLine false false false
                      (Some (regex_test emptyLine (rawOrData raw data))))
          else ret (fill (splitTextToDocs (rawOrData raw data)))
        else ret (DString data)
    | Container kind _ name expression attributes children =>
        supported <- lift (if seqb name (str "template")
                           then isNodeSupportedLanguage n else Ok true) ;;
        let isSupportedLanguage := negb (seqb name (str "template") && negb supported) in
        let isEmpty := forallb isEmptyNode children in
        let isSelfClosingTag :=
          isEmpty && (negb strict || negb (isElement n) || includes selfClosingTags name) in
        body <- (if isEmpty then ret (dstr "")
                 else if negb isSupportedLanguage then ret (DString (printRaw n))
                 else if isInlineElement n || isPreTagContent path
                 then printIndentedPreservingWhitespace (print path)
                        (isPreTagContent path) children
                 else printIndentedWithNewlines (print path)
                        (isPreTagContent path) children) ;;
        this <- match kind, expression with
                | InlineComponent, Some e =>
                    d <- printJS e ;;
                    ret (concat [line; dstr "this="; DString open; d; DString close])
                | _, _ => ret (dstr "")
                end ;;
        attrs <- mapM (print path) attributes ;;
        ret (group (concat (
          [dstr "<"; DString name;
           indent (group (concat (
             [this] ++ attrs ++
             [if svelteBracketNewLine options__1
              then dedent (if isSelfClosingTag then line else softline)
              else dstr ""])))]
          ++ (if isSelfClosingTag
              then [if svelteBracketNewLine options__1 then dstr "" else dstr " ";
                    dstr "/>"]
              else [dstr ">"; body; DString (str "</" ++ name ++ str ">")]))))
    | OptionsOrBody _ name attributes =>
        attrs <- mapM (print path) attributes ;;
        ret (group (concat [dstr "<"; DString name;
                            indent (group (concat attrs)); dstr " />"]))
    | Identifier _ name => ret (DString name)
    | AttributeShorthand _ expression =>
        (* [node.expression.name].  The parser gives a shorthand an
           identifier; for an expression without a name the source returns
           [undefined], which is no document: the model has no value for
           it and stops here *)
        match nameOf expression with
        | Some name => ret (DString name)
        | None => throw TypeError
        end
    | Attribute _ name value =>
        if isOrCanBeConvertedToShorthand name value then
          if strict then
            ret (concat [line; DString name; DString (str "=" ++ dquote :: str "{");
                         DString name; DString (str "}" ++ [dquote])])
          else if svelteAllowShorthand options__1 then
            ret (concat [line; dstr "{"; DString name; dstr "}"])
          else
            ret (concat [line; DString name; dstr "={"; DString name; dstr "}"])
        else
          match value with
          | None => ret (concat [line; DString name])
          | Some nodes =>
              let quotes := negb (isLoneMustacheTag value) || strict in
              (* [printAttributeNodeValue] *)
              valueDocs <- mapM (print path) nodes ;;
              let attrNodeValue :=
                if negb quotes || negb (includes formattableAttributes name)
                then concat valueDocs
                else indent (group (concat (trim isLine valueDocs))) in
              if quotes then
                ret (concat [line; DString name; dstr "="; DString [dquote];
                             attrNodeValue; DString [dquote]])
              else
                ret (concat [line; DString name; dstr "="; attrNodeValue])
          end
    | MustacheTag _ expression =>
        e <- printJS expression ;;
        ret (concat [dstr "{"; e; dstr "}"])
    | IfBlock _ expression children else_ =>
        e <- printJS expression ;;
        body <- printIndentedWithNewlines (print path) (isPreTagContent path) children ;;
        elseDoc <- optM (print path) else_ ;;
        let def := [dstr "{#if "; e; dstr "}"; body]
                     ++ match elseDoc with Some d => [d] | None => [] end
                     ++ [dstr "{/if}"] in
        ret (concat [group (concat def); breakParent])
    | ElseBlock _ children =>
        let generic :=
          body <- printIndentedWithNewlines (print path) (isPreTagContent path) children ;;
          ret (group (concat [dstr "{:else}"; body])) in
        match children with
        | [IfBlock il iexpression ichildren ielse] =>
            let ifNode := IfBlock il iexpression ichildren ielse in
            match stack with
            | [] => throw TypeError
            | EachBlock _ _ _ _ _ _ _ :: _ => generic
            | _ :: _ =>
                e <- print (ifNode :: path) iexpression ;;
                body <- printIndentedWithNewlines (print (ifNode :: path))
                          (isPreTagContent (ifNode :: path)) ichildren ;;
                elseDoc <- optM (print (ifNode :: path)) ielse ;;
                ret (group (concat ([dstr "{:else if "; e; dstr "}"; body]
                       ++ match elseDoc with Some d => [d] | None => [] end)))
            end
        | _ => generic
        end
    | EachBlock _ expression context index key children else_ =>
        e <- printJS expression ;;
        c <- printJS context ;;
        k <- optM printJS key ;;
        body <- printIndentedWithNewlines (print path) (isPreTagContent path) children ;;
        elseDoc <- optM (print path) else_ ;;
        let def := [dstr "{#each "; e; dstr " as "; c]
                     ++ match index with
                        | Some (ch :: i) => [dstr ", "; DString (ch :: i)]
                        | _ => []
                        end
                     ++ match k with Some d => [dstr " ("; d; dstr ")"] | None => [] end
                     ++ [dstr "}"; body]
                     ++ match elseDoc with Some d => [d] | None => [] end
                     ++ [dstr "{/each}"] in
        ret (concat [group (concat def); breakParent])
    | AwaitBlock _ expression value error pending then_ catch =>
        hasPendingBlock <- lift (hasContent pending) ;;
        hasThenBlock <- lift (hasContent then_) ;;
        hasCatchBlock <- lift (hasContent catch) ;;
        block <- (if negb hasPendingBlock && hasThenBlock then
                    e <- printJS expression ;;
                    v <- lift (expandNode value) ;;
                    t <- print path then_ ;;
                    ret [group (concat [dstr "{#await "; e; dstr " then"; DString v;
                                        dstr "}"]);
                         indent t]
                  else
                    e <- printJS expression ;;
                    let block := [group (concat [dstr "{#await "; e; dstr "}"])] in
                    block <- (if hasPendingBlock
                              then p <- print path pending ;; ret (block ++ [indent p])
                              else ret block) ;;
                    if hasThenBlock then
                      v <- lift (expandNode value) ;;
                      t <- print path then_ ;;
                      ret (block ++ [group (concat [dstr "{:then"; DString v; dstr "}"]);
                                     indent t])
                    else ret block) ;;
        block <- (if hasCatchBlock then
                    v <- lift (expandNode error) ;;
                    c <- print path catch ;;
                    ret (block ++ [group (concat [dstr "{:catch"; DString v; dstr "}"]);
                                   indent c])
                  else ret block) ;;
        ret (group (concat (block ++ [dstr "{/await}"])))
    | SubBlock _ _ children =>
        docs <- printChildren (print path) (isPreTagContent path) children ;;
        ret (concat ([softline] ++ trim isLine docs ++ [dedent softline]))
    | EventHandler _ name modifiers expression =>
        e <- optM printJS expression ;;
        ret (concat [line; dstr "on:"; DString name; modifiersDoc modifiers;
                     match e with Some d => assigned d | None => dstr "" end])
    | Binding _ name expression =>
        if isIdentifierNamed expression name
        then ret (concat [line; dstr "bind:"; DString name; dstr ""])
        else e <- printJS expression ;;
             ret (concat [line; dstr "bind:"; DString name; assigned e])
    | ClassDirective _ name expression =>
        if isIdentifierNamed expression name
        then ret (concat [line; dstr "class:"; DString name; dstr ""])
        else e <- printJS expression ;;
             ret (concat [line; dstr "class:"; DString name; assigned e])
    | LetDirective _ name expression =>
        match expression with
        | None => ret (concat [line; dstr "let:"; DString name; dstr ""])
        | Some ex =>
            if isIdentifierNamed ex name
            then ret (concat [line; dstr "let:"; DString name; dstr ""])
            else e <- printJS ex ;;
                 ret (concat [line; dstr "let:"; DString name; assigned e])
        end
    | DebugTag _ identifiers =>
        match identifiers with
        | [] => ret (concat [dstr "{@debug"; dstr ""; dstr "}"])
        | _ :: _ =>
            ids <- mapM (print path) identifiers ;;
            ret (concat [dstr "{@debug"; concat [dstr " "; join (dstr ", ") ids];
                         dstr "}"])
        end
    | RefDirective _ name => ret (concat [line; dstr "ref:"; DString name])
    | Comment _ data =>
        let finish :=
          text <- (if hasSnippedContent data then lift (unsnipContent data)
                   else ret data) ;;
          ret (group (concat [dstr "<!--"; DString text; dstr "-->"])) in
        if isIgnoreDirective n then
          next <- lift (getNextNode path) ;;
          match next with
          | None => ret (dstr "")
          | Some _ => setIgnoreNext true ;;; finish
          end
        else finish
    | Transition _ intro outro name modifiers expression =>
        let kind := if intro && outro then dstr "transition"
                    else if intro then dstr "in" else dstr "out" in
        e <- optM printJS expression ;;
        ret (concat [line; kind; dstr ":"; DString name; modifiersDoc modifiers;
                     match e with Some d => assigned d | None => dstr "" end])
    | Action _ name expression =>
        e <- optM printJS expression ;;
        ret (concat [line; dstr "use:"; DString name;
                     match e with Some d => assigned d | None => dstr "" end])
    | Animation _ name expression =>
        e <- optM printJS expression ;;
        ret (concat [line; dstr "animate:"; DString name;
                     match e with Some d => assigned d | None => dstr "" end])
    | RawMustacheTag _ expression =>
        e <- printJS expression ;;
        ret (concat [dstr "{@html "; e; dstr "}"])
    | Spread _ expression =>
        e <- printJS expression ;;
        ret (concat [line; dstr "{..."; e; dstr "}"])
    | Script _ _ => printScript n
    | BinaryExpression _ lhs operator rhs =>
        l <- print path lhs ;;
        r <- print path rhs ;;
        ret (concat [l; dstr " "; DString operator; r])
    | Literal _ raw => ret (DString (str " " ++ raw))
    | ConditionalExpression _ test consequent alternate =>
        t <- print path test ;;
        c <- print path consequent ;;
        a <- print path alternate ;;
        ret (concat [t; dstr " ? "; c; dstr " : "; a])
    | Other _ type => throw (UnknownNodeType type)
    end
  end.
End Printer.

(** ** Auxiliary notions used in the statements below *)

(** [lit], compared as under the [i] flag, matches at some position inside
    [u] when [u] is followed by [v]. *)
Fixpoint matchesInside (lit u v : jsstring) : bool :=
  match u with
  | [] => false
  | _ :: u' =>
      match matchPrefixBy ci_eq lit (u ++ v) with
      | Some _ => true
      | None => matchesInside lit u' v
      end
  end.

(** The closing tag of an embedded region. *)
Definition closingTag (tagName : jsstring) : jsstring := str "</" ++ tagName ++ str ">".

(** What the replacement callback of [snipTagContent] writes for a region
    without attributes whose body encodes to [encoded]. *)
Definition snippedRegion (tagName placeholder encoded : jsstring) : jsstring :=
  str "<" ++ tagName ++ str " " ++ snippedTagContentAttribute ++ str "=" ++ [dquote]
    ++ encoded ++ [dquote] ++ str ">" ++ placeholder ++ closingTag tagName.

(** An embedded region without attributes, as it stands in the source. *)
Definition region (tagName body : jsstring) : jsstring :=
  str "<" ++ tagName ++ str ">" ++ body ++ closingTag tagName.

(** A document that forces the enclosing groups to break: it contains a
    [breakParent] or a hard line. *)
Fixpoint forcedBreak (d : doc) : bool :=
  match d with
  | DString _ => false
  | DConcat parts | DFill parts => existsb forcedBreak parts
  | DIndent contents | DAlign _ contents | DGroup contents => forcedBreak contents
  | DBreakParent => true
  | DLine _ hard _ _ => hard
  end.

(** The document of an element: the name, the indented attribute list and
    what follows it, either the self-closing bracket or the body and the
    end tag. *)
Definition elementDoc (opts : options) (name : jsstring) (this : doc) (attrs : list doc)
  (selfClosing : bool) (body : doc) : doc :=
  group (concat (
    [dstr "<"; DString name;
     indent (group (concat (
       [this] ++ attrs ++
       [if svelteBracketNewLine opts
        then dedent (if selfClosing then line else softline)
        else dstr ""])))]
    ++ (if selfClosing
        then [if svelteBracketNewLine opts then dstr "" else dstr " "; dstr "/>"]
        else [dstr ">"; body; DString (str "</" ++ name ++ str ">")]))).

(** A formatter that returns its input, for the examples in which no
    [Script] node is printed. *)
Definition unchanged (s : jsstring) : result jsstring := Ok s.

Definition LF : jschar := 10%N.

(** The number of line feeds of a text. *)
Definition lineFeeds (text : jsstring) : nat := count_occ N.eq_dec text LF.

(** The children are text nodes that carry their source text in [raw] and
    follow one another from offset [start] on; [sourceEnd] is the offset
    they end at. *)
Fixpoint sourceTexts (text : jsstring) (start : nat) (children : list node) : bool :=
  match children with
  | [] => true
  | Text l (Some raw) _ :: rest =>
      Nat.eqb (loc_start l) start && Nat.leb start (loc_end l)
      && seqb raw (js_slice text (loc_start l) (loc_end l))
      && sourceTexts text (loc_end l) rest
  | _ :: _ => false
  end.

Fixpoint sourceEnd (start : nat) (children : list node) : nat :=
  match children with
  | [] => start
  | child :: rest => sourceEnd (locEnd child) rest
  end.

(** *** Example trees

    Each tree is the parse of the source text given with it. *)

Definition textOf (start : nat) (s : jsstring) : node :=
  Text (mkLoc start (start + length s)) (Some s) s.

Definition elementOf (start end_ : nat) (name : string) (attributes children : list node)
  : node :=
  Container Element (mkLoc start end_) (str name) None attributes children.
Arguments elementOf start end_ name%_string attributes children.

Definition rootOf (end_ : nat) (children : list node) : node :=
  Root None None None (Fragment (mkLoc 0 end_) children).

(** [{#await p then v}x{/await}] *)
Definition awaitSource : jsstring := str "{#await p then v}x{/await}".
Definition awaitBlock : node :=
  AwaitBlock (mkLoc 0 26) (Identifier (mkLoc 8 9) (str "p")) (PIdentifier (str "v")) PNull
    (SubBlock PendingBlock (mkLoc 17 17) [])
    (SubBlock ThenBlock (mkLoc 17 18) [textOf 17 (str "x")])
    (SubBlock CatchBlock (mkLoc 18 18) []).
Definition awaitExample : node := rootOf 26 [awaitBlock].

(** [<template lang=QpugQ><b>x</b></template>], where [Q] stands for the
    double quote. *)
Definition templateSource : jsstring :=
  str "<template lang=" ++ [dquote] ++ str "pug" ++ [dquote] ++ str "><b>x</b></template>".
Definition templateElement : node :=
  elementOf 0 40 "template"
    [Attribute (mkLoc 10 20) (str "lang") (Some [textOf 16 (str "pug")])]
    [elementOf 21 29 "b" [] [textOf 24 (str "x")]].
Definition templateExample : node := rootOf 40 [templateElement].

(** The path of the only child of the fragment of a root built by [rootOf]. *)
Definition stackOf (root : node) : list node :=
  match root with
  | Root _ _ _ html => [html; root]
  | _ => []
  end.

(** [<!-- prettier-ignore -->], a line feed, [<p>x   y</p>] *)
Definition ignoreSource : jsstring :=
  str "<!-- prettier-ignore -->" ++ [LF] ++ str "<p>x   y</p>".
Definition ignoreComment : node := Comment (mkLoc 0 24) (str " prettier-ignore ").
Definition ignoreGap : node := textOf 24 [LF].
Definition ignoredParagraph : node := elementOf 25 37 "p" [] [textOf 28 (str "x   y")].
Definition ignoreExample : node := rootOf 37 [ignoreComment; ignoreGap; ignoredParagraph].

(** [<p>{#await p}<!-- prettier-ignore --> {:then {a = f()}}x{/await}</p>] *)
Definition leakSource : jsstring :=
  str "<p>{#await p}<!-- prettier-ignore --> {:then {a = f()}}x{/await}</p>".
Definition leakExample : node :=
  rootOf 68
    [elementOf 0 68 "p" []
       [AwaitBlock (mkLoc 3 64) (Identifier (mkLoc 11 12) (str "p"))
          (ObjectPattern
             [Property (PIdentifier (str "a"))
                (AssignmentPattern (PIdentifier (str "a")) (POther (str "CallExpression")))])
          PNull
          (SubBlock PendingBlock (mkLoc 13 38)
             [Comment (mkLoc 13 37) (str " prettier-ignore "); textOf 37 (str " ")])
          (SubBlock ThenBlock (mkLoc 38 56) [textOf 55 (str "x")])
          (SubBlock CatchBlock (mkLoc 56 56) [])]].

(** [<p>x   y</p>] *)
Definition paragraphSource : jsstring := str "<p>x   y</p>".
Definition paragraphExample : node :=
  rootOf 12 [elementOf 0 12 "p" [] [textOf 3 (str "x   y")]].

(** [<i>a</i> <i>b</i>]: a whitespace-only text between two siblings. *)
Definition gapSource : jsstring := str "<i>a</i> <i>b</i>".
Definition gapText : node := textOf 8 (str " ").
Definition gapExample : node :=
  rootOf 17 [elementOf 0 8 "i" [] [textOf 3 (str "a")]; gapText;
             elementOf 9 17 "i" [] [textOf 12 (str "b")]].


(** [<template lang=QpugQ>p hello</template>] *)
Definition pugSource : jsstring :=
  str "<template lang=" ++ [dquote] ++ str "pug" ++ [dquote] ++ str ">p hello</template>".
Definition pugElement : node :=
  elementOf 0 39 "template"
    [Attribute (mkLoc 10 20) (str "lang") (Some [textOf 16 (str "pug")])]
    [textOf 21 (str "p hello")].
Definition pugExample : node := rootOf 39 [pugElement].

(** [<script lang=QcoffeeQ>x = 1</script>], the text [preprocess] makes of
    it, and the parse of that text: an instance script and no markup. *)
Definition coffeeSource : jsstring :=
  str "<script lang=" ++ [dquote] ++ str "coffee" ++ [dquote] ++ str ">x = 1</script>".
Definition coffeeSnipped : jsstring :=
  str "<script lang=" ++ [dquote] ++ str "coffee" ++ [dquote] ++ str " "
    ++ snippedTagContentAttribute ++ str "=" ++ [dquote] ++ str "eCA9IDE=" ++ [dquote]
    ++ str ">{}</script>".
Definition coffeeExample : node :=
  Root None (Some (mkLoc 0 63)) None (Fragment (mkLoc 63 63) []).

(** [{#if a}b{/if}] *)
Definition ifSource : jsstring := str "{#if a}b{/if}".
Definition ifBlock : node :=
  IfBlock (mkLoc 0 13) (Identifier (mkLoc 5 6) (str "a")) [textOf 7 (str "b")] None.
Definition ifExample : node := rootOf 13 [ifBlock].

(** The default options with strict mode switched on. *)
Definition strictOptions (text : jsstring) : options :=
  mkOptions (str "scripts-styles-markup") true false true true text.

(** *** Notions used in the further properties *)

(** [lit] matches at no position of [s], compared as under the [i] flag. *)
Definition nowhere (lit s : jsstring) : Prop :=
  forall u v, s = u ++ v -> matchPrefixBy ci_eq lit v = None.

(** A list of documents that does not start, or does not end, with a
    line. *)
Definition startsPlain (g : list doc) : Prop :=
  match g with
  | d :: _ => isLine d = false
  | [] => True
  end.

Definition endsPlain (g : list doc) : Prop :=
  match lastOf g with
  | Some d => isLine d = false
  | None => True
  end.

(** The class of [wordSeparator]. *)
Definition isWordBreak : jschar -> bool := oneOf [9; 10; 12; 13; 32]%N.

(** The characters of the string parts of a list of documents, in order. *)
Definition stringsOf (docs : list doc) : jsstring :=
  List.concat (map (fun d => match d with DString s => s | _ => [] end) docs).

(** A part of the [fill] built from a text: a word or a line. *)
Definition isWordOrLine (d : doc) : bool :=
  match d with
  | DString (_ :: _) => true
  | DLine _ _ _ _ => true
  | _ => false
  end.

(** The documents gathered so far for the children contain a forced
    break. *)
Definition broken (st : child_state) : Prop :=
  existsb forcedBreak (childDocs st) = true.

(** * Properties *)

(** ** Round trip of [btoa] and [atob] *)

Ltac nlia := zify; Z.to_euclidean_division_equations; lia.


Lemma list_ind3 (A : Type) (P : list A -> Prop) :
P [] -> (forall a, P [a]) -> (forall a b, P [a; b]) ->
(forall a b c l, P l -> P (a :: b :: c :: l)) ->
forall l, P l.
Proof.
intros H0 H1 H2 H3.
fix IH 1.
intros [|a [|b [|c l]]]; [exact H0 | apply H1 | apply H2 | apply H3, IH].
Qed.

Lemma below_64_cases (P : N -> Prop) :
(forall k, (k < 64)%nat -> P (N.of_nat k)) -> forall n, (n < 64)%N -> P n.
Proof.
intros H n Hn. rewrite <- (N2Nat.id n). apply H. lia.
Qed.

Lemma forallb_seq_below (f : nat -> bool) (m : nat) :
forallb f (seq 0 m) = true -> forall k, (k < m)%nat -> f k = true.
Proof.
intros H k Hk. rewrite forallb_forall in H. apply H. apply in_seq. lia.
Qed.

Lemma charSextet_sextetChar n : (n < 64)%N -> charSextet (sextetChar n) = Some n.
Proof.
revert n. apply below_64_cases. intros k Hk.
pose (f := fun k => match charSextet (sextetChar (N.of_nat k)) with
                    | Some m => N.eqb m (N.of_nat k)
                    | None => false
                    end).
assert (E : f k = true)
  by (apply (@forallb_seq_below f 64); [vm_compute; reflexivity | exact Hk]).
unfold f in E. destruct (charSextet (sextetChar (N.of_nat k))); [|discriminate].
apply N.eqb_eq in E. now subst.
Qed.

Lemma sextetChar_plain n :
(n < 64)%N ->
isAsciiWhitespace (sextetChar n) = false /\ N.eqb (sextetChar n) padChar = false
/\ isLineTerminator (sextetChar n) = false /\ N.eqb (sextetChar n) dquote = false.
Proof.
revert n. apply below_64_cases. intros k Hk.
pose (f := fun k => negb (isAsciiWhitespace (sextetChar (N.of_nat k)))
                    && negb (N.eqb (sextetChar (N.of_nat k)) padChar)
                    && negb (isLineTerminator (sextetChar (N.of_nat k)))
                    && negb (N.eqb (sextetChar (N.of_nat k)) dquote)).
assert (E : f k = true)
  by (apply (@forallb_seq_below f 64); [vm_compute; reflexivity | exact Hk]).
unfold f in E. rewrite !andb_true_iff, !negb_true_iff in E. tauto.
Qed.


Lemma sextetsOf_below l :
forallb isByte l = true -> Forall (fun n => (n < 64)%N) (sextetsOf l).
Proof.
induction l as [|a|a b|a b c l IH] using list_ind3; simpl; intros H;
  unfold isByte in H; rewrite ?andb_true_iff, ?N.leb_le in H.
- constructor.
- destruct H as (Ha & _). repeat (constructor; [nlia|]). constructor.
- destruct H as (Ha & Hb & _). repeat (constructor; [nlia|]). constructor.
- destruct H as (Ha & Hb & Hc & Hl).
  repeat (constructor; [nlia|]). apply IH, Hl.
Qed.

Lemma bytesOf_sextetsOf l : forallb isByte l = true -> bytesOf (sextetsOf l) = l.
Proof.
induction l as [|a|a b|a b c l IH] using list_ind3; simpl; intros H;
  unfold isByte in H; rewrite ?andb_true_iff, ?N.leb_le in H.
- reflexivity.
- destruct H as (Ha & _). f_equal. nlia.
- destruct H as (Ha & Hb & _). f_equal; [nlia|]. f_equal. nlia.
- destruct H as (Ha & Hb & Hc & Hl). rewrite (IH Hl).
  f_equal; [nlia|]. f_equal; [nlia|]. f_equal. nlia.
Qed.

Lemma mapOpt_charSextet sx :
Forall (fun n => (n < 64)%N) sx -> mapOpt charSextet (map sextetChar sx) = Some sx.
Proof.
induction 1 as [|n sx Hn _ IH]; simpl; [reflexivity|].
now rewrite (charSextet_sextetChar Hn), IH.
Qed.

Lemma sextetsOf_length_mod l :
Nat.modulo (length (map sextetChar (sextetsOf l) ++ padding (length l))) 4 = 0.
Proof.
induction l as [|a|a b|a b c l IH] using list_ind3; try reflexivity.
change (sextetsOf (a :: b :: c :: l))
  with ([a / 4; a mod 4 * 16 + b / 16; b mod 16 * 4 + c / 64; c mod 64]%N ++ sextetsOf l).
assert (E : padding (length (a :: b :: c :: l)) = padding (length l)).
{ unfold padding. simpl length.
  replace (S (S (S (length l)))) with (length l + 1 * 3) by lia.
  now rewrite Nat.Div0.mod_add. }
rewrite E, map_app, <- app_assoc. simpl map. simpl app.
simpl length. 
replace (S (S (S (S (length (map sextetChar (sextetsOf l) ++ padding (length l)))))))
  with (length (map sextetChar (sextetsOf l) ++ padding (length l)) + 1 * 4) by lia.
now rewrite Nat.Div0.mod_add.
Qed.

Lemma stripPadding_two (x : jsstring) : stripPadding (x ++ [padChar; padChar]) = x.
Proof.
unfold stripPadding. rewrite rev_app_distr. simpl. apply rev_involutive.
Qed.

Lemma stripPadding_one (x : jsstring) (c : jschar) :
N.eqb c padChar = false -> stripPadding ((x ++ [c]) ++ [padChar]) = x ++ [c].
Proof.
intros H. unfold stripPadding. rewrite !rev_app_distr. simpl. rewrite H.
simpl. now rewrite rev_involutive.
Qed.

Lemma stripPadding_none (x : jsstring) :
Forall (fun c => N.eqb c padChar = false) x -> stripPadding x = x.
Proof.
intros H. unfold stripPadding.
destruct (rev x) as [|p1 [|p2 r]] eqn:E; try reflexivity.
- assert (I : In p1 x) by (apply in_rev; rewrite E; now left).
  rewrite Forall_forall in H. now rewrite (H _ I).
- assert (I : In p1 x) by (apply in_rev; rewrite E; now left).
  rewrite Forall_forall in H. now rewrite (H _ I).
Qed.

(** The structure of an encoding: the characters of the 6-bit groups and
  what [atob] does with the padding. *)
Lemma stripPadding_encoding l :
forallb isByte l = true ->
stripPadding (map sextetChar (sextetsOf l) ++ padding (length l))
= map sextetChar (sextetsOf l)
/\ Nat.eqb (Nat.modulo (length (map sextetChar (sextetsOf l))) 4) 1 = false.
Proof.
induction l as [|a|a b|a b c l IH] using list_ind3; intros H.
- split; reflexivity.
- split; [|reflexivity]. apply (stripPadding_two [_; _]).
- split; [|reflexivity].
  apply (stripPadding_one [_; _]).
  apply sextetChar_plain. apply andb_true_iff in H as [_ H].
  apply andb_true_iff in H as [H _]. unfold isByte in H. apply N.leb_le in H. nlia.
- assert (Hl : forallb isByte l = true).
  { simpl in H. rewrite !andb_true_iff in H. tauto. }
  destruct (IH Hl) as [IH1 IH2].
  assert (E : padding (length (a :: b :: c :: l)) = padding (length l)).
  { unfold padding. simpl length.
    replace (S (S (S (length l)))) with (length l + 1 * 3) by lia.
    now rewrite Nat.Div0.mod_add. }
  rewrite E. clear E.
  change (sextetsOf (a :: b :: c :: l))
    with ([a / 4; a mod 4 * 16 + b / 16; b mod 16 * 4 + c / 64; c mod 64]%N
            ++ sextetsOf l).
  rewrite map_app. split.
  + remember (map sextetChar (sextetsOf l)) as x.
    remember (map sextetChar [a / 4; a mod 4 * 16 + b / 16; b mod 16 * 4 + c / 64; c mod 64]%N) as h.
    assert (Hh : Forall (fun c => N.eqb c padChar = false) h).
    { subst h. apply Forall_map.
      pose proof (sextetsOf_below [a; b; c]) as B. simpl in B.
      assert (B' := B ltac:(simpl in H; rewrite !andb_true_iff in *; tauto)).
      eapply Forall_impl; [|exact B']. intros n Hn. now apply sextetChar_plain. }
    unfold padding in *. destruct (Nat.modulo (length l) 3) as [|[|[|k]]] eqn:Em.
    * rewrite app_nil_r in *. apply stripPadding_none.
      apply Forall_app; split; [exact Hh|].
      subst x. apply Forall_map. eapply Forall_impl; [|apply (sextetsOf_below _ Hl)].
      intros n Hn. now apply sextetChar_plain.
    * apply stripPadding_two.
    * destruct (rev x) as [|z zs] eqn:Ex.
      -- apply (f_equal (@rev _)) in Ex. rewrite rev_involutive in Ex. subst x.
         destruct l as [|l1 [|l2 [|l3 l']]]; discriminate.
      -- assert (Ez : x = rev zs ++ [z]).
         { apply (f_equal (@rev _)) in Ex. now rewrite rev_involutive in Ex. }
         rewrite Ez, (app_assoc h (rev zs) [z]). apply stripPadding_one.
         assert (Hx : Forall (fun c => N.eqb c padChar = false) x).
         { subst x. apply Forall_map.
           eapply Forall_impl; [|apply (sextetsOf_below _ Hl)].
           intros n Hn. now apply sextetChar_plain. }
         rewrite Forall_forall in Hx. apply Hx. rewrite Ez. apply in_or_app.
         right. now left.
    * rewrite app_nil_r in *. apply stripPadding_none.
      apply Forall_app; split; [exact Hh|].
      subst x. apply Forall_map. eapply Forall_impl; [|apply (sextetsOf_below _ Hl)].
      intros n Hn. now apply sextetChar_plain.
  + rewrite length_app. simpl length at 1.
    replace (4 + length (map sextetChar (sextetsOf l)))
      with (length (map sextetChar (sextetsOf l)) + 1 * 4) by lia.
    now rewrite Nat.Div0.mod_add.
Qed.

Lemma filter_encoding l :
forallb isByte l = true ->
filter (fun c => negb (isAsciiWhitespace c))
  (map sextetChar (sextetsOf l) ++ padding (length l))
= map sextetChar (sextetsOf l) ++ padding (length l).
Proof.
intros H. apply forallb_filter_id. rewrite forallb_app. apply andb_true_iff. split.
- apply forallb_forall. intros c Hc. apply in_map_iff in Hc as (n & <- & Hn).
  pose proof (sextetsOf_below _ H) as B. rewrite Forall_forall in B.
  apply negb_true_iff. now apply sextetChar_plain, B.
- unfold padding. now destruct (Nat.modulo (length l) 3) as [|[|[|k]]].
Qed.

(** [atob(btoa(s)) = s] for every string of code units below 256. *)
Lemma atob_btoa s : forallb isByte s = true -> rbind (btoa s) atob = Ok s.
Proof.
intros H. unfold btoa. rewrite H. simpl rbind. unfold atob. cbv zeta.
rewrite (filter_encoding _ H), sextetsOf_length_mod, Nat.eqb_refl.
destruct (stripPadding_encoding _ H) as [-> ->].
now rewrite (mapOpt_charSextet (sextetsOf_below _ H)), (bytesOf_sextetsOf _ H).
Qed.


(** ** The matcher on literals and on stars of a character class *)

Section MatcherLemmas.
Variable R : Type.
Implicit Types (k : nat -> jsstring -> caps -> option R) (s u v : jsstring).

Lemma rmatch_rlit_i p : forall i s c k,
  rmatch (rlit_i p) i s c k
  = match matchPrefixBy ci_eq p s with
    | Some s' => k (i + length p) s' c
    | None => None
    end.
Proof.
  induction p as [|x p IH]; intros i s c k; simpl.
  - now rewrite Nat.add_0_r.
  - destruct s as [|y s]; [reflexivity|].
    destruct (ci_eq x y); [|reflexivity].
    rewrite IH. now rewrite Nat.add_succ_r.
Qed.

Lemma starLoop_lazy_S step k fuel i s c :
  starLoop false step k (S fuel) i s c
  = match k i s c with
    | Some x => Some x
    | None =>
        step i s c (fun i' s' c' => if Nat.eqb i' i then None
                                    else starLoop false step k fuel i' s' c')
    end.
Proof. reflexivity. Qed.

Lemma starLoop_greedy_S step k fuel i s c :
  starLoop true step k (S fuel) i s c
  = match step i s c (fun i' s' c' => if Nat.eqb i' i then None
                                      else starLoop true step k fuel i' s' c') with
    | Some x => Some x
    | None => k i s c
    end.
Proof. reflexivity. Qed.

Lemma starLoop_O g step k i s c : starLoop g step k 0 i s c = k i s c.
Proof. reflexivity. Qed.

Lemma rmatch_char_cons p x s i c k :
  rmatch (RChar p) i (x :: s) c k = if p x then k (S i) s c else None.
Proof. reflexivity. Qed.

Lemma rmatch_char_nil p i c k : rmatch (RChar p) i [] c k = None.
Proof. reflexivity. Qed.

Lemma eqb_succ_self i : Nat.eqb (S i) i = false.
Proof. apply Nat.eqb_neq. lia. Qed.

(** A lazy star stops at the first position where the continuation
    succeeds. *)
Lemma lazy_star_first p k u : forall v i c fuel r,
  forallb p u = true ->
  (forall u1 x u2, u = u1 ++ x :: u2 -> k (i + length u1) (x :: u2 ++ v) c = None) ->
  k (i + length u) v c = Some r ->
  length u <= fuel ->
  starLoop false (rmatch (R := R) (RChar p)) k fuel i (u ++ v) c = Some r.
Proof.
  induction u as [|x u IH]; intros v i c fuel r Hp Hfail Hok Hfuel.
  - cbn [app length] in *. rewrite Nat.add_0_r in Hok.
    destruct fuel; [exact Hok|]. now rewrite starLoop_lazy_S, Hok.
  - destruct fuel as [|fuel]; [simpl in Hfuel; lia|].
    simpl in Hp. apply andb_true_iff in Hp as [Hx Hu].
    pose proof (Hfail [] x u eq_refl) as H0. simpl in H0.
    rewrite Nat.add_0_r in H0.
    rewrite <- app_comm_cons, starLoop_lazy_S, H0, rmatch_char_cons, Hx, eqb_succ_self.
    apply IH; auto.
    + intros u1 y u2 E. specialize (Hfail (x :: u1) y u2).
      simpl in Hfail. rewrite Nat.add_succ_r in Hfail. apply Hfail. now rewrite E.
    + simpl in Hok. now rewrite Nat.add_succ_r in Hok.
    + simpl in Hfuel. lia.
Qed.

(** A greedy star first tries the continuation after the longest run. *)
Lemma greedy_star_longest p k u : forall v i c fuel r,
  forallb p u = true ->
  match v with y :: _ => p y = false | [] => True end ->
  k (i + length u) v c = Some r ->
  length u <= fuel ->
  starLoop true (rmatch (R := R) (RChar p)) k fuel i (u ++ v) c = Some r.
Proof.
  induction u as [|x u IH]; intros v i c fuel r Hp Hv Hok Hfuel.
  - cbn [app length] in *. rewrite Nat.add_0_r in Hok. destruct fuel; [exact Hok|].
    rewrite starLoop_greedy_S.
    destruct v as [|y v]; [now rewrite rmatch_char_nil|].
    now rewrite rmatch_char_cons, Hv.
  - destruct fuel as [|fuel]; [simpl in Hfuel; lia|].
    simpl in Hp. apply andb_true_iff in Hp as [Hx Hu].
    rewrite <- app_comm_cons, starLoop_greedy_S, rmatch_char_cons, Hx, eqb_succ_self.
    rewrite (IH v (S i) c fuel r); auto.
    + simpl in Hok. now rewrite Nat.add_succ_r in Hok.
    + simpl in Hfuel. lia.
Qed.
End MatcherLemmas.

(** ** The codec: [snipTagContent] followed by [unsnipContent] *)

Lemma seqb_refl s : seqb s s = true.
Proof. induction s as [|c s IH]; simpl; [reflexivity|]. now rewrite N.eqb_refl. Qed.

Lemma seqb_eq a b : seqb a b = true -> a = b.
Proof.
  revert b. induction a as [|x a IH]; intros [|y b]; simpl; try discriminate; auto.
  intros H. apply andb_true_iff in H as [H1 H2]. apply N.eqb_eq in H1. subst.
  f_equal. now apply IH.
Qed.

Lemma ci_eq_refl c : ci_eq c c = true.
Proof. unfold ci_eq. now rewrite N.eqb_refl. Qed.

Lemma matchPrefixBy_app p s : matchPrefixBy ci_eq p (p ++ s) = Some s.
Proof. induction p as [|x p IH]; simpl; [reflexivity|]. now rewrite ci_eq_refl. Qed.

Lemma matchPrefixBy_split p q s :
  matchPrefixBy ci_eq (p ++ q) s
  = match matchPrefixBy ci_eq p s with
    | Some s' => matchPrefixBy ci_eq q s'
    | None => None
    end.
Proof.
  revert s. induction p as [|x p IH]; intros s; simpl; [reflexivity|].
  destruct s as [|y s]; [reflexivity|]. destruct (ci_eq x y); [apply IH|reflexivity].
Qed.

Lemma matchesInside_false lit u v :
  matchesInside lit u v = false ->
  forall u1 x u2, u = u1 ++ x :: u2 -> matchPrefixBy ci_eq lit (x :: u2 ++ v) = None.
Proof.
  induction u as [|y u IH]; intros H u1 x u2 E.
  - destruct u1; discriminate.
  - cbn [matchesInside] in H.
    destruct (matchPrefixBy ci_eq lit ((y :: u) ++ v)) eqn:M; [discriminate|].
    destruct u1 as [|z u1]; simpl in E; injection E as -> ->.
    + exact M.
    + now apply (IH H u1).
Qed.

Lemma firstn_exact (A : Type) (u v : list A) n : n = length u -> firstn n (u ++ v) = u.
Proof.
  intros ->. rewrite firstn_app, Nat.sub_diag, firstn_all. simpl. apply app_nil_r.
Qed.

Lemma skipn_exact (A : Type) (u v : list A) n : n = length u -> skipn n (u ++ v) = v.
Proof.
  intros ->. rewrite skipn_app, Nat.sub_diag, skipn_all. reflexivity.
Qed.

Lemma ci_eq_dquote x : ci_eq dquote x = N.eqb dquote x.
Proof. unfold ci_eq. apply orb_false_r. Qed.

Ltac lengths :=
  repeat progress (simpl length; rewrite ?length_app);
  unfold jsstring, jschar in *; try lia.

Section Unsnip.
Variables tagName tagRest placeholder encoded : jsstring.
Variable tagHead : jschar.
Hypothesis tag_cons : tagName = tagHead :: tagRest.
Hypothesis tag_word : forallb isWordChar tagName = true.
Hypothesis placeholder_line :
  forallb (fun c => negb (isLineTerminator c)) placeholder = true.
Hypothesis placeholder_open :
  matchesInside (str "</") placeholder (closingTag tagName) = false.
Hypothesis encoded_line : forallb (fun c => negb (isLineTerminator c)) encoded = true.
Hypothesis encoded_quote : forallb (fun c => negb (N.eqb dquote c)) encoded = true.

#[local] Abbreviation snipped := (snippedRegion tagName placeholder encoded).

Lemma unsnip_matchAt :
  exists m, matchAt unsnipRegex 0 snipped = Some m
    /\ m_end m = length snipped - length (closingTag tagName)
    /\ capOr 1 (m_caps m) = str "<" ++ tagName
    /\ capOr 2 (m_caps m) = encoded.
Proof.
  eexists. split.
  - unfold matchAt, unsnipRegex. cbn [rmatch rplus].
    unfold snippedRegion. rewrite tag_cons in *.
    cbn [forallb] in tag_word. apply andb_true_iff in tag_word as [Hh Hr].
    change (str "<" ++ (tagHead :: tagRest) ++ ?x) with (60%N :: tagHead :: tagRest ++ x).
    unfold rchar_i at 1. rewrite rmatch_char_cons. change (ci_eq 60 60) with true. cbv iota.
    unfold rword at 1. rewrite rmatch_char_cons, Hh.
    unfold rword. apply greedy_star_longest; [exact Hr | reflexivity | | rewrite length_app; lia].
    unfold rdot at 1. apply lazy_star_first with (u := []); [reflexivity | | | cbn; lia].
    { intros [|? ?] ? ? E; discriminate E. }
    change (str " " ++ ?x) with ([32%N] ++ x).
    unfold rspace.
    apply greedy_star_longest with (u := [32%N]); [reflexivity | reflexivity | | cbn; lia].
    rewrite rmatch_rlit_i, matchPrefixBy_app, rmatch_rlit_i.
    rewrite (app_assoc (str "=") [dquote]), matchPrefixBy_app.
    unfold rdot at 1. apply lazy_star_first; [exact encoded_line | | | rewrite length_app; lia].
    { intros u1 x u2 E. rewrite rmatch_rlit_i. cbn [matchPrefixBy].
      rewrite ci_eq_dquote.
      assert (I : In x encoded) by (rewrite E; apply in_or_app; right; now left).
      rewrite forallb_forall in encoded_quote. apply encoded_quote in I.
      apply negb_true_iff in I. now rewrite I. }
    rewrite rmatch_rlit_i.
    rewrite (app_assoc [dquote] (str ">")).
    change ([dquote] ++ str ">") with (dquote :: str ">"). rewrite matchPrefixBy_app.
    unfold rdot. apply lazy_star_first; [exact placeholder_line | | | rewrite length_app; lia].
    { intros u1 x u2 E. rewrite rmatch_rlit_i.
      now rewrite (@matchesInside_false _ _ _ placeholder_open u1 x u2 E). }
    rewrite rmatch_rlit_i. unfold closingTag. rewrite matchPrefixBy_app. reflexivity.
  - cbn [m_end m_caps capOr getCap Nat.eqb]. unfold snippedRegion, closingTag.
    rewrite tag_cons. repeat split.
    + lengths.
    + change (60%N :: tagHead :: tagRest ++ ?x) with ((60%N :: tagHead :: tagRest) ++ x).
      apply firstn_exact. lengths.
    + apply firstn_exact. lengths.
Qed.

(** After the match, the closing tag is left: the pattern, which needs a
    word character after [<], matches nowhere in it. *)
Lemma unsnip_no_match_without_lt s : forall i,
  forallb (fun c => negb (N.eqb 60 c)) s = true ->
  matchAt unsnipRegex i s = None.
Proof.
  intros i H. unfold matchAt, unsnipRegex. cbn [rmatch rplus].
  destruct s as [|x s]; [reflexivity|].
  unfold rchar_i at 1. rewrite rmatch_char_cons.
  cbn [forallb] in H. apply andb_true_iff in H as [Hx _].
  apply negb_true_iff in Hx. unfold ci_eq. rewrite Hx. reflexivity.
Qed.

Lemma replaceFrom_without_lt (f : regex_match -> result jsstring) s : forall fuel i,
  forallb (fun c => negb (N.eqb 60 c)) s = true ->
  replaceFrom fuel unsnipRegex f i s = Ok s.
Proof.
  induction s as [|x s IH]; intros fuel i H; destruct fuel as [|fuel];
    try reflexivity.
  cbn [replaceFrom]. rewrite (@unsnip_no_match_without_lt (x :: s) i H).
    cbn [forallb] in H. apply andb_true_iff in H as [_ H].
    now rewrite (IH fuel (S i) H).
Qed.

Lemma replaceFrom_closingTag (f : regex_match -> result jsstring) fuel i :
  replaceFrom fuel unsnipRegex f i (closingTag tagName) = Ok (closingTag tagName).
Proof.
  destruct fuel as [|fuel]; [reflexivity|].
  unfold closingTag. change (str "</" ++ ?x) with (60%N :: 47%N :: x).
  cbn [replaceFrom].
  assert (M : matchAt unsnipRegex i (60%N :: 47%N :: tagName ++ str ">") = None)
    by reflexivity.
  rewrite M. rewrite replaceFrom_without_lt; [reflexivity|].
  cbn [forallb]. rewrite forallb_app, !andb_true_iff. repeat split; try reflexivity.
  apply forallb_forall. intros c Hc. rewrite forallb_forall in tag_word.
  specialize (tag_word _ Hc). apply negb_true_iff.
  destruct (N.eqb_spec 60 c) as [<-|]; [discriminate tag_word|reflexivity].
Qed.

(** [unsnipContent] applied to the text a replacement of [snipTagContent]
    consists of, when the marker value decodes to [content]. *)
Lemma unsnipContent_snipped content :
  atob encoded = Ok content ->
  unsnipContent snipped = Ok (str "<" ++ tagName ++ str ">" ++ content ++ closingTag tagName).
Proof.
  intros Hd. destruct unsnip_matchAt as (m & Hm & He & H1 & H2).
  unfold unsnipContent, regex_replace_all. cbn [replaceFrom]. rewrite Hm.
  unfold unsnipReplacement. rewrite H1, H2, Hd. cbn [rbind].
  assert (L : length snipped = length (str "<" ++ tagName ++ str " "
              ++ snippedTagContentAttribute ++ str "=" ++ [dquote] ++ encoded
              ++ [dquote] ++ str ">" ++ placeholder) + length (closingTag tagName)).
  { unfold snippedRegion. lengths. }
  replace (Nat.eqb (m_end m) 0) with false.
  2:{ symmetry. apply Nat.eqb_neq. rewrite He, L. lengths. }
  rewrite Nat.sub_0_r.
  replace (skipn (m_end m) snipped) with (closingTag tagName).
  2:{ symmetry. unfold snippedRegion. rewrite !app_assoc. apply skipn_exact.
      rewrite He. lengths. }
  rewrite replaceFrom_closingTag. cbn [rbind]. now rewrite <- !app_assoc.
Qed.
End Unsnip.

Section Snip.
Variables tagName placeholder body : jsstring.
Hypothesis body_closed :
  matchesInside (closingTag tagName) body (closingTag tagName) = false.

Lemma snip_matchAt :
  exists m, matchAt (snipRegex tagName) 0 (region tagName body) = Some m
    /\ m_end m = length (region tagName body)
    /\ capOr 1 (m_caps m) = []
    /\ capOr 2 (m_caps m) = body.
Proof.
  eexists. split.
  - unfold matchAt, snipRegex, region. cbn [rmatch].
    unfold rspace at 1.
    apply greedy_star_longest with (u := []); [reflexivity | reflexivity | | cbn; lia].
    change (str "<" ++ ?x) with (60%N :: x). change ((0 + length (@nil jschar))) with 0.
    unfold rchar_i at 1. rewrite rmatch_char_cons. change (ci_eq 60 60) with true. cbv iota.
    rewrite rmatch_rlit_i, matchPrefixBy_app.
    unfold rany at 1. apply lazy_star_first with (u := []); [reflexivity | | | cbn; lia].
    { intros [|? ?] ? ? E; discriminate E. }
    change (str ">" ++ ?x) with (62%N :: x).
    unfold rchar_i at 1. rewrite rmatch_char_cons. change (ci_eq 62 62) with true. cbv iota.
    unfold rany at 1. apply lazy_star_first; [now apply forallb_forall | | | lengths].
    { intros u1 x u2 E.
      pose proof (@matchesInside_false _ _ _ body_closed u1 x u2 E) as Hn.
      unfold closingTag in Hn at 1. rewrite matchPrefixBy_split in Hn.
      rewrite rmatch_rlit_i.
      destruct (matchPrefixBy ci_eq (str "</") (x :: u2 ++ closingTag tagName)) as [s1|];
        [|reflexivity].
      rewrite matchPrefixBy_split in Hn. rewrite rmatch_rlit_i.
      destruct (matchPrefixBy ci_eq tagName s1) as [s2|]; [|reflexivity].
      destruct s2 as [|y s2]; [reflexivity|].
      unfold rchar_i at 1. rewrite rmatch_char_cons.
      cbn [matchPrefixBy str map list_ascii_of_string] in Hn.
      change (N_of_ascii ">") with 62%N in Hn.
      destruct (ci_eq 62 y); [discriminate Hn|reflexivity]. }
    unfold closingTag.
    rewrite rmatch_rlit_i, matchPrefixBy_app, rmatch_rlit_i, matchPrefixBy_app.
    change (str ">") with [62%N].
    unfold rchar_i at 1. rewrite rmatch_char_cons. change (ci_eq 62 62) with true. cbv iota.
    unfold rspace. rewrite starLoop_O. reflexivity.
  - cbn [m_end m_caps capOr getCap Nat.eqb]. unfold region, closingTag. repeat split.
    + lengths.
    + apply (@firstn_exact _ []). lengths.
    + apply firstn_exact. lengths.
Qed.

Lemma snipTagContent_region :
  snipTagContent tagName (region tagName body) placeholder
  = snipReplacement tagName placeholder [] body.
Proof.
  destruct snip_matchAt as (m & Hm & He & H1 & H2).
  unfold snipTagContent, regex_replace_all. cbn [replaceFrom]. rewrite Hm, H1, H2.
  destruct (snipReplacement tagName placeholder [] body) as [rep|e]; [|reflexivity].
  cbn [rbind].
  replace (Nat.eqb (m_end m) 0) with false
    by (symmetry; apply Nat.eqb_neq; rewrite He; unfold region; lengths).
  rewrite He, Nat.sub_0_r, skipn_all.
  assert (E : replaceFrom (length (region tagName body)) (snipRegex tagName)
                (fun m => snipReplacement tagName placeholder (capOr 1 (m_caps m))
                            (capOr 2 (m_caps m)))
                (length (region tagName body)) [] = Ok []).
  { destruct (length (region tagName body)); reflexivity. }
  rewrite E. cbn [rbind]. now rewrite app_nil_r.
Qed.
End Snip.

Lemma btoa_plain s encoded :
  btoa s = Ok encoded ->
  forallb (fun c => negb (isLineTerminator c)) encoded = true
  /\ forallb (fun c => negb (N.eqb dquote c)) encoded = true.
Proof.
  unfold btoa. destruct (forallb isByte s) eqn:H; [|discriminate].
  intros [= <-]. rewrite !forallb_app, !andb_true_iff.
  assert (P : forall c, In c (map sextetChar (sextetsOf s)) ->
                isLineTerminator c = false /\ N.eqb c dquote = false).
  { intros c Hc. apply in_map_iff in Hc as (n & <- & Hn).
    pose proof (sextetsOf_below _ H) as B. rewrite Forall_forall in B.
    destruct (sextetChar_plain (B _ Hn)) as (_ & _ & A & B'). now split. }
  repeat split.
  - apply forallb_forall. intros c Hc. apply negb_true_iff. now apply P.
  - unfold padding. now destruct (Nat.modulo (length s) 3) as [|[|[|k]]].
  - apply forallb_forall. intros c Hc. apply negb_true_iff.
    rewrite N.eqb_sym. now apply P.
  - unfold padding. now destruct (Nat.modulo (length s) 3) as [|[|[|k]]].
Qed.

(** Unsnipping what the replacement callback of [snipTagContent] writes
    gives the region back, for a tag name made of word characters and a
    placeholder in which the look-ahead of [unsnipContent] does not stop
    early. *)
Lemma unsnip_replacement tagName placeholder body :
  tagName <> [] ->
  forallb isWordChar tagName = true ->
  forallb (fun c => negb (isLineTerminator c)) placeholder = true ->
  matchesInside (str "</") placeholder (closingTag tagName) = false ->
  forallb isByte body = true ->
  rbind (snipReplacement tagName placeholder [] body) unsnipContent
  = Ok (region tagName body).
Proof.
  intros Hne Hw Hpl Hpo Hb.
  unfold snipReplacement. pose proof (atob_btoa _ Hb) as RT.
  destruct (btoa body) as [encoded|] eqn:E; [|discriminate RT].
  cbn [rbind] in *. destruct (btoa_plain _ E) as [Hl Hq].
  destruct tagName as [|tagHead tagRest]; [contradiction|].
  exact (@unsnipContent_snipped _ _ _ _ _ eq_refl Hw Hpl Hpo Hl Hq _ RT).
Qed.

(** The same through [snipTagContent] itself, on a region whose body does
    not contain the closing tag. *)
Lemma snip_then_unsnip tagName placeholder body :
  tagName <> [] ->
  forallb isWordChar tagName = true ->
  forallb (fun c => negb (isLineTerminator c)) placeholder = true ->
  matchesInside (str "</") placeholder (closingTag tagName) = false ->
  forallb isByte body = true ->
  matchesInside (closingTag tagName) body (closingTag tagName) = false ->
  rbind (snipTagContent tagName (region tagName body) placeholder) unsnipContent
  = Ok (region tagName body).
Proof.
  intros Hne Hw Hpl Hpo Hb Hc.
  rewrite (@snipTagContent_region tagName placeholder body Hc).
  now apply unsnip_replacement.
Qed.

Lemma find_skips (A : Type) (f : A -> bool) before x after :
  forallb (fun a => negb (f a)) before = true -> f x = true ->
  find f (before ++ x :: after) = Some x.
Proof.
  intros Hb Hx. induction before as [|a before IH]; cbn [app find].
  - now rewrite Hx.
  - cbn [forallb] in Hb. apply andb_true_iff in Hb as [Ha Hb].
    apply negb_true_iff in Ha. rewrite Ha. now apply IH.
Qed.

(** [getSnippedContent] on a node whose first attribute of the marker name
    holds the encoding of [body]. *)
Lemma getSnippedContent_encoded body encoded l l1 l2 raw before after :
  forallb isByte body = true ->
  btoa body = Ok encoded ->
  forallb (fun a => negb (opt_seqb (nameOf a) (Some snippedTagContentAttribute))) before
  = true ->
  getSnippedContent
    (Script l (before
                 ++ Attribute l1 snippedTagContentAttribute (Some [Text l2 raw encoded])
                 :: after))
  = Ok body.
Proof.
  intros Hb E Hbefore. pose proof (atob_btoa _ Hb) as RT. rewrite E in RT.
  cbn [rbind] in RT.
  unfold getSnippedContent, getAttributeTextValue, getAttributeValue.
  cbn [attributesOf].
  rewrite (find_skips (fun a => opt_seqb (nameOf a) (Some snippedTagContentAttribute))
             before _ after Hbefore)
    by (cbn [nameOf opt_seqb]; apply seqb_refl).
  cbn [valueOf rbind find isTextNode].
  destruct encoded as [|c e]; [|exact RT].
  vm_compute in RT. exact RT.
Qed.

(** C2. For a body of code units below 256, the text [snipTagContent]
    writes for a [style] or [script] region decodes back to the region
    under [unsnipContent], also when the region is found by
    [snipTagContent] itself, and [getSnippedContent] returns the body from
    the marker attribute of the node. *)
Theorem embedded_region_roundtrip body :
  forallb isByte body = true ->
  (forall tagName placeholder,
      (tagName = str "style" /\ placeholder = [])
      \/ (tagName = str "script" /\ placeholder = str "{}") ->
      rbind (snipReplacement tagName placeholder [] body) unsnipContent
      = Ok (region tagName body)
      /\ (matchesInside (closingTag tagName) body (closingTag tagName) = false ->
          rbind (snipTagContent tagName (region tagName body) placeholder) unsnipContent
          = Ok (region tagName body)))
  /\ (forall encoded l l1 l2 raw before after,
        btoa body = Ok encoded ->
        forallb (fun a => negb (opt_seqb (nameOf a) (Some snippedTagContentAttribute)))
          before = true ->
        getSnippedContent
          (Script l (before
                       ++ Attribute l1 snippedTagContentAttribute
                            (Some [Text l2 raw encoded])
                       :: after))
        = Ok body).
Proof.
  intros Hb. split.
  - intros tagName placeholder [[-> ->]|[-> ->]]; split;
      try (intros Hc; apply snip_then_unsnip);
      try apply unsnip_replacement; try exact Hb; try exact Hc;
      try discriminate; reflexivity.
  - intros encoded l l1 l2 raw before after E Hbefore.
    now apply getSnippedContent_encoded.
Qed.

(** ** The printing monad *)

Lemma bind_Ok_inv A B (m : M A) (f : A -> M B) s b s' :
  bind m f s = (Ok b, s') ->
  exists a s1, m s = (Ok a, s1) /\ f a s1 = (Ok b, s').
Proof.
  unfold bind. destruct (m s) as [[a|e] s1]; intros H; [eauto|discriminate].
Qed.

Lemma ret_inv A (a b : A) s s' : ret a s = (Ok b, s') -> a = b /\ s = s'.
Proof. unfold ret. now intros [= -> ->]. Qed.

Ltac invM H :=
  repeat (cbv beta in H;
          match type of H with
          | bind _ _ _ = (Ok _, _) =>
              apply bind_Ok_inv in H; destruct H as (? & ? & ? & H)
          | ret _ _ = (Ok _, _) => apply ret_inv in H; destruct H as [? ?]
          end).

(** ** Whitespace *)

Lemma dropWhile_nil p s : dropWhile p s = [] -> forallb p s = true.
Proof.
  induction s as [|c s IH]; simpl; [reflexivity|].
  destruct (p c); [exact IH|discriminate].
Qed.

Lemma dropWhile_head p s c r : dropWhile p s = c :: r -> p c = false.
Proof.
  induction s as [|x s IH]; simpl; [discriminate|].
  destruct (p x) eqn:E; [exact IH|]. now intros [= <- _].
Qed.

Lemma forallb_rev (A : Type) (p : A -> bool) l : forallb p (rev l) = forallb p l.
Proof.
  induction l as [|x l IH]; simpl; [reflexivity|].
  rewrite forallb_app, IH. simpl. rewrite andb_true_r. apply andb_comm.
Qed.

(** A text trims to the empty string exactly when it is whitespace only. *)
Lemma trim_empty_whitespace s :
  seqb (js_trim s) [] = true -> forallb isJSWhitespace s = true.
Proof.
  intros H. apply seqb_eq in H. unfold js_trim, trimEnd, trimStart in H.
  apply (f_equal (@rev _)) in H. rewrite rev_involutive in H. simpl in H.
  apply dropWhile_nil in H. rewrite forallb_rev in H.
  destruct (dropWhile isJSWhitespace s) as [|c r] eqn:E.
  - now apply dropWhile_nil.
  - apply dropWhile_head in E. simpl in H. now rewrite E in H.
Qed.

Lemma dropWhile_In p s c : In c s -> p c = true \/ In c (dropWhile p s).
Proof.
  induction s as [|x s IH]; simpl; [tauto|].
  intros [->|Hc].
  - destruct (p c) eqn:E; [now left|right; now left].
  - destruct (p x); [now apply IH|right; now right].
Qed.

Lemma trim_In s c : In c s -> isJSWhitespace c = true \/ In c (js_trim s).
Proof.
  intros H. unfold js_trim, trimEnd, trimStart.
  destruct (dropWhile_In isJSWhitespace s c H) as [W|I]; [now left|].
  apply in_rev in I. destruct (dropWhile_In isJSWhitespace _ c I) as [W|I']; [now left|].
  right. now apply in_rev in I'.
Qed.

Lemma startsWith_In p s c r : p = c :: r -> startsWith p s = true -> In c s.
Proof.
  intros -> H. destruct s as [|y s]; simpl in H; [discriminate|].
  apply andb_true_iff in H as [H _]. apply N.eqb_eq in H. subst. now left.
Qed.

Lemma js_includes_In s p c r : p = c :: r -> js_includes s p = true -> In c s.
Proof.
  intros E. induction s as [|y s IH]; simpl; intros H.
  - apply orb_true_iff in H as [H|H]; [|discriminate].
    subst p. discriminate H.
  - apply orb_true_iff in H as [H|H].
    + exact (startsWith_In _ E H).
    + right. now apply IH.
Qed.

(** The text of an ignore directive holds no snipped region. *)
Lemma ignore_directive_not_snipped data :
  seqb (js_trim data) (str "prettier-ignore") = true -> hasSnippedContent data = false.
Proof.
  intros H. apply seqb_eq in H. unfold hasSnippedContent.
  destruct (js_includes data snippedTagContentAttribute) eqn:E; [|reflexivity].
  apply (js_includes_In _ eq_refl) in E.
  destruct (trim_In _ _ E) as [W|I]; [discriminate W|].
  rewrite H in I. simpl in I. repeat (destruct I as [I|I]; [discriminate I|]). contradiction.
Qed.

(** ** Source slices *)

Lemma firstn_plus (A : Type) (l : list A) n m :
  firstn (n + m) l = firstn n l ++ firstn m (skipn n l).
Proof.
  revert l. induction n as [|n IH]; intros l; [reflexivity|].
  destruct l as [|x l]; simpl; [now rewrite firstn_nil|]. now rewrite IH.
Qed.

Lemma js_slice_app s a b c :
  a <= b -> b <= c -> js_slice s a b ++ js_slice s b c = js_slice s a c.
Proof.
  intros H1 H2. unfold js_slice.
  replace (c - a) with ((b - a) + (c - b)) by lia.
  rewrite firstn_plus, skipn_skipn. now replace (b - a + a) with b by lia.
Qed.

Lemma sourceTexts_slice text children : forall start,
  sourceTexts text start children = true ->
  joinStrings [] (map printRaw children) = js_slice text start (sourceEnd start children)
  /\ start <= sourceEnd start children.
Proof.
  induction children as [|child rest IH]; intros start H.
  - split; [|apply Nat.le_refl]. unfold js_slice. simpl. now rewrite Nat.sub_diag.
  - cbn [sourceTexts] in H.
    destruct child as [| |l [raw|] data| | | | | | | | | | | | | | | | | | | | | | | | | | | |];
      try discriminate H.
    rewrite !andb_true_iff in H. destruct H as (((H1 & H2) & H3) & H4).
    apply Nat.eqb_eq in H1. apply Nat.leb_le in H2. apply seqb_eq in H3.
    destruct (IH _ H4) as [IH1 IH2]. cbn [sourceEnd].
    change (locEnd (Text l (Some raw) data)) with (loc_end l).
    split; [|lia].
    replace (joinStrings [] (map printRaw (Text l (Some raw) data :: rest)))
      with (raw ++ joinStrings [] (map printRaw rest)).
    2:{ cbn [map printRaw joinStrings]. destruct (map printRaw rest); [|reflexivity].
        now rewrite app_nil_r. }
    rewrite IH1, H3, H1. apply js_slice_app; lia.
Qed.

(** ** The pattern of the empty-line test *)

Section GreedyStar.
Variable R : Type.
Variable p : jschar -> bool.
Variable k : nat -> jsstring -> caps -> option R.

(** A greedy star succeeds as soon as the continuation succeeds after
    some run of the class. *)
Lemma greedy_star_some u : forall v i c fuel,
  forallb p u = true ->
  k (i + length u) v c <> None ->
  length u <= fuel ->
  starLoop true (rmatch (R := R) (RChar p)) k fuel i (u ++ v) c <> None.
Proof.
  induction u as [|x u IH]; intros v i c fuel Hp Hok Hfuel.
  - cbn [app length] in *. rewrite Nat.add_0_r in Hok. destruct fuel; [exact Hok|].
    rewrite starLoop_greedy_S. now destruct (rmatch _ _ _ _ _).
  - destruct fuel as [|fuel]; [simpl in Hfuel; lia|].
    simpl in Hp. apply andb_true_iff in Hp as [Hx Hu].
    rewrite <- app_comm_cons, starLoop_greedy_S, rmatch_char_cons, Hx, eqb_succ_self.
    assert (N : starLoop true (rmatch (R := R) (RChar p)) k fuel (S i) (u ++ v) c <> None).
    { apply IH; auto.
      - simpl in Hok. now rewrite Nat.add_succ_r in Hok.
      - simpl in Hfuel. lia. }
    now destruct (starLoop _ _ _ _ _ _ _).
Qed.

(** It fails when the continuation fails on every text that satisfies a
    property kept by taking tails. *)
Lemma greedy_star_none (P : jsstring -> Prop) :
  (forall x s, P (x :: s) -> P s) ->
  (forall i s c, P s -> k i s c = None) ->
  forall fuel i s c, P s ->
    starLoop true (rmatch (R := R) (RChar p)) k fuel i s c = None.
Proof.
  intros Htail Hk. induction fuel as [|fuel IH]; intros i s c Hs.
  - now apply Hk.
  - rewrite starLoop_greedy_S. destruct s as [|x s].
    + rewrite rmatch_char_nil. now apply Hk.
    + rewrite rmatch_char_cons, eqb_succ_self.
      destruct (p x); [rewrite (IH _ _ _ (Htail _ _ Hs))|]; now apply Hk.
Qed.
End GreedyStar.

Lemma lineFeeds_cons x s :
  lineFeeds (x :: s) = if N.eqb LF x then S (lineFeeds s) else lineFeeds s.
Proof.
  unfold lineFeeds. cbn [count_occ].
  destruct (N.eq_dec x LF) as [->|Hx]; [reflexivity|].
  destruct (N.eqb_spec LF x); [congruence|reflexivity].
Qed.

Lemma lineFeeds_split s :
  1 <= lineFeeds s -> exists u v, s = u ++ LF :: v.
Proof.
  intros H. apply in_split. apply (count_occ_In N.eq_dec). exact H.
Qed.

Lemma emptyLine_without_second_feed i x s :
  lineFeeds s = 0 -> matchAt emptyLine i (x :: s) = None.
Proof.
  intros H. unfold matchAt, emptyLine. cbn [rmatch ropt].
  unfold rchar at 1. rewrite rmatch_char_cons.
  destruct (N.eqb newline x); [|reflexivity].
  set (P := fun t : jsstring => lineFeeds t = 0).
  assert (Ptail : forall y t, P (y :: t) -> P t).
  { unfold P. intros y t. rewrite lineFeeds_cons. destruct (N.eqb LF y); [discriminate|auto]. }
  assert (K3 : forall (k : nat -> jsstring -> caps -> option regex_match) j t c,
             P t -> rmatch (rchar newline) j t c k = None).
  { intros k j [|y t] c Ht; [reflexivity|]. unfold rchar. rewrite rmatch_char_cons.
    unfold P in Ht. rewrite lineFeeds_cons in Ht.
    change newline with LF. destruct (N.eqb LF y); [discriminate|reflexivity]. }
  assert (K2 : forall (k : nat -> jsstring -> caps -> option regex_match) j t c, P t ->
             starLoop true (rmatch rspace)
               (fun i' s' c' => rmatch (rchar newline) i' s' c' k) (length t) j t c
             = None).
  { intros k j t c Ht. unfold rspace.
    apply (@greedy_star_none _ _ _ P Ptail); [|exact Ht].
    intros; now apply K3. }
  rewrite (K2 _ _ _ _ H).
  destruct s as [|y s]; [reflexivity|].
  unfold rchar at 1. rewrite rmatch_char_cons.
  destruct (N.eqb 13 y); [|reflexivity].
  now rewrite (K2 _ _ _ _ (Ptail _ _ H)).
Qed.

Lemma emptyLine_none s : forall i, lineFeeds s <= 1 -> execFrom emptyLine i s = None.
Proof.
  induction s as [|x s IH]; intros i H; [reflexivity|].
  cbn [execFrom]. rewrite lineFeeds_cons in H.
  destruct (N.eqb LF x) eqn:E.
  - rewrite emptyLine_without_second_feed by lia. apply IH. lia.
  - replace (matchAt emptyLine i (x :: s)) with (@None regex_match).
    + now apply IH.
    + unfold matchAt, emptyLine. cbn [rmatch]. unfold rchar at 1.
      rewrite rmatch_char_cons. change newline with LF. now rewrite E.
Qed.

Lemma emptyLine_with_second_feed i s :
  forallb isJSWhitespace s = true -> 1 <= lineFeeds s ->
  matchAt emptyLine i (LF :: s) <> None.
Proof.
  intros Hw H. unfold matchAt, emptyLine. cbn [rmatch ropt].
  unfold rchar at 1. rewrite rmatch_char_cons. change (N.eqb newline LF) with true.
  cbv iota.
  destruct (lineFeeds_split _ H) as (u & v & ->).
  rewrite forallb_app in Hw. apply andb_true_iff in Hw as [Hu _].
  match goal with
  | |- match ?a with Some x => Some x | None => ?b end <> None =>
      assert (N : b <> None); [|destruct a; [discriminate|exact N]]
  end.
  unfold rspace. apply greedy_star_some; [exact Hu | | lengths].
  unfold rchar at 1. rewrite rmatch_char_cons. change (N.eqb newline LF) with true.
  cbv iota. now destruct (rmatch _ _ _ _ _).
Qed.

Lemma emptyLine_some s : forall i,
  forallb isJSWhitespace s = true -> 2 <= lineFeeds s -> execFrom emptyLine i s <> None.
Proof.
  induction s as [|x s IH]; intros i Hw H; [unfold lineFeeds in H; simpl in H; lia|].
  cbn [execFrom]. rewrite lineFeeds_cons in H.
  cbn [forallb] in Hw. apply andb_true_iff in Hw as [_ Hw].
  destruct (N.eqb_spec LF x) as [<-|Hx].
  - pose proof (@emptyLine_with_second_feed i s Hw ltac:(lia)) as N.
    now destruct (matchAt emptyLine i (LF :: s)).
  - destruct (matchAt emptyLine i (x :: s)); [discriminate|]. now apply IH.
Qed.

(** On a whitespace-only text the pattern matches exactly when the text
    has two line feeds. *)
Lemma emptyLine_test s :
  forallb isJSWhitespace s = true ->
  regex_test emptyLine s = Nat.leb 2 (lineFeeds s).
Proof.
  intros Hw. unfold regex_test. destruct (Nat.leb_spec 2 (lineFeeds s)) as [H|H].
  - pose proof (@emptyLine_some s 0 Hw H) as N.
    now destruct (execFrom emptyLine 0 s).
  - rewrite emptyLine_none by lia. reflexivity.
Qed.

(** ** The printer *)

Section PrinterFacts.
Variables formatBabel formatHtml : jsstring -> result jsstring.
Variable opts : options.
#[local] Abbreviation pr := (print formatBabel formatHtml opts).

Lemma unlessIgnored_clear n body : unlessIgnored opts n body false = body false.
Proof. reflexivity. Qed.

Lemma unlessIgnored_set n body :
  isEmptyNode n = false ->
  unlessIgnored opts n body true = (Ok (printIgnored opts n), false).
Proof.
  intros H. unfold unlessIgnored, bind, getIgnoreNext. rewrite H.
  now rewrite orb_true_r.
Qed.

Lemma unlessIgnored_kept n body :
  isEmptyNode n = true -> unlessIgnored opts n body true = body true.
Proof.
  intros H. unfold unlessIgnored, bind, getIgnoreNext. rewrite H.
  destruct n; try discriminate H. reflexivity.
Qed.


(** C10. A fragment that has no child, or only whitespace-only text
    children, prints as the empty string: it contributes no output. *)
Theorem fragment_without_content_prints_nothing stack l children :
  forallb isEmptyNode children = true ->
  pr stack (Fragment l children) false = (Ok (DString []), false).
Proof.
  intros H. cbn [print]. rewrite unlessIgnored_clear, H, orb_true_r. reflexivity.
Qed.

(** C5. An attribute [x={x}] and an attribute in shorthand form print to
    the same document: to the shorthand [{x}] when shorthands are allowed
    and strict mode is off, to the quoted explicit form in strict mode. *)
Theorem shorthand_equivalence stack l1 l2 lm li ls name e :
  let explicit := Attribute l1 name (Some [MustacheTag lm (Identifier li name)]) in
  let shorthand := Attribute l2 name (Some [AttributeShorthand ls e]) in
  (svelteStrictMode opts = false -> svelteAllowShorthand opts = true ->
   pr stack explicit false = (Ok (concat [line; dstr "{"; DString name; dstr "}"]), false)
   /\ pr stack shorthand false = pr stack explicit false)
  /\ (svelteStrictMode opts = true ->
      pr stack explicit false
      = (Ok (concat [line; DString name; DString (str "=" ++ dquote :: str "{");
                     DString name; DString (str "}" ++ [dquote])]), false)
      /\ pr stack shorthand false = pr stack explicit false).
Proof.
  intros explicit shorthand. subst explicit shorthand. cbn [print].
  rewrite !unlessIgnored_clear. unfold isOrCanBeConvertedToShorthand.
  cbn [isAttributeShorthand isIdentifierNamed]. rewrite seqb_refl. unfold strict.
  split.
  - intros -> ->. split; reflexivity.
  - intros ->. split; reflexivity.
Qed.

(** The passthrough the code attempts: an element named [template] whose
    [lang] attribute names an unsupported language, and which has some
    content, is printed without descending into its children and without
    an error; its body is the string [printRaw] returns, which is the
    source text of the children when these are text nodes. *)
Lemma unsupported_template_passthrough stack l expression attributes children attrs fl :
  let n := Container Element l (str "template") expression attributes children in
  isNodeSupportedLanguage n = Ok false ->
  forallb isEmptyNode children = false ->
  mapM (pr (n :: stack)) attributes false = (Ok attrs, fl) ->
  pr stack n false
  = (Ok (elementDoc opts (str "template") (dstr "") attrs false (DString (printRaw n))), fl)
  /\ forall start,
       sourceTexts (originalText opts) start children = true ->
       printRaw n = js_slice (originalText opts) start (sourceEnd start children).
Proof.
  intros n Hlang Hcontent Hattrs. subst n. split.
  - cbn [print]. rewrite unlessIgnored_clear.
    change (seqb (str "template") (str "template")) with true. cbv iota.
    rewrite Hlang. unfold bind at 1, lift. rewrite Hcontent.
    cbn [andb negb]. unfold bind, ret. rewrite Hattrs. reflexivity.
  - intros start H. cbn [printRaw]. now apply sourceTexts_slice.
Qed.

(** C3. With the flag clear, a conditional and an iteration block print
    as their group followed by [breakParent]; an awaited-value block
    prints as a bare group, to which its own case attaches no break. *)
Theorem control_flow_block_shape stack n d fl :
  pr stack n false = (Ok d, fl) ->
  match n with
  | IfBlock _ _ _ _ | EachBlock _ _ _ _ _ _ _ =>
      (exists def, d = concat [group (concat def); breakParent])
      /\ forcedBreak d = true
  | AwaitBlock _ _ _ _ _ _ _ => exists block, d = group (concat block)
  | _ => True
  end.
Proof.
  intros H. destruct n; try exact I; cbn [print] in H;
    rewrite unlessIgnored_clear in H; invM H; subst d.
  - split; [eauto|]. unfold concat, breakParent. cbn [forcedBreak existsb orb].
    apply orb_true_r.
  - split; [eauto|]. unfold concat, breakParent. cbn [forcedBreak existsb orb].
    apply orb_true_r.
  - eauto.
Qed.

(** C7. An ignore directive followed by a sibling sets the flag.  While
    the flag is set, a whitespace-only text node prints as it does
    otherwise and leaves the flag set; any other node is replaced by its
    source slice, line feeds turned into [literalline], and clears the
    flag. *)
Theorem ignore_directive_suppresses_next_content stack :
  (forall l data next,
      isIgnoreDirective (Comment l data) = true ->
      getNextNode (Comment l data :: stack) = Ok (Some next) ->
      pr stack (Comment l data) false
      = (Ok (group (concat [dstr "<!--"; DString data; dstr "-->"])), true))
  /\ (forall n,
        isEmptyNode n = true ->
        pr stack n true = (fst (pr stack n false), true))
  /\ (forall n,
        isASTNode n = false -> isEmptyNode n = false ->
        pr stack n true = (Ok (printIgnored opts n), false)).
Proof.
  repeat split.
  - intros l data next Hd Hn. cbn [print]. rewrite unlessIgnored_clear, Hd.
    unfold bind at 1, lift. rewrite Hn. cbn [isIgnoreDirective] in Hd.
    rewrite (ignore_directive_not_snipped _ Hd). reflexivity.
  - intros n Hn. destruct n; try discriminate Hn. cbn [print].
    rewrite unlessIgnored_clear, (unlessIgnored_kept _ _ Hn), Hn.
    destruct (negb (isPreTagContent _)); reflexivity.
  - intros n Hr Hn. destruct n; try discriminate Hr; cbn [print];
      now rewrite (unlessIgnored_set _ _ Hn).
Qed.

(** C8. Outside preformatted content and with the flag clear, a
    whitespace-only text prints as a plain [line], neither soft nor hard,
    whose [keepIfLonely] property tells whether the text has at least
    two line feeds; the line is one of those discarded when lonely exactly
    when it has fewer. *)
Theorem whitespace_text_prints_line stack l raw data :
  isEmptyNode (Text l raw data) = true ->
  isPreTagContent (Text l raw data :: stack) = false ->
  let keep := Nat.leb 2 (lineFeeds (rawOrData raw data)) in
  pr stack (Text l raw data) false = (Ok (DLine false false false (Some keep)), false)
  /\ isLineDiscardedIfLonely (DLine false false false (Some keep)) = negb keep.
Proof.
  intros He Hp keep. split.
  - cbn [print]. rewrite unlessIgnored_clear, Hp, He. cbn [negb].
    cbn [isEmptyNode] in He.
    now rewrite (emptyLine_test _ (trim_empty_whitespace _ He)).
  - cbn [isLineDiscardedIfLonely isKept]. now destruct keep.
Qed.

(** A successful print of the root leaves the flag clear. *)
Lemma root_clears_flag stack module instance css html fl d fl' :
  pr stack (Root module instance css html) fl = (Ok d, fl') -> fl' = false.
Proof.
  intros H. cbn [print] in H.
  apply bind_Ok_inv in H. destruct H as (parts & s1 & _ & H).
  apply bind_Ok_inv in H. destruct H as ([] & s2 & Hs & H).
  unfold setIgnoreNext in Hs. injection Hs as <-. now apply ret_inv in H.
Qed.
End PrinterFacts.

(** ** The theorems at concrete inputs *)

Lemma embedded_region_roundtrip_witness :
  forallb isByte (str "if (a < b) { c() }") = true
  /\ rbind (snipTagContent (str "script") (region (str "script") (str "if (a < b) { c() }"))
              (str "{}")) unsnipContent
     = Ok (region (str "script") (str "if (a < b) { c() }")).
Proof.
  split; [reflexivity|].
  apply (proj1 (embedded_region_roundtrip (str "if (a < b) { c() }") eq_refl)
           (str "script") (str "{}")); [right; split; reflexivity | reflexivity].
Defined.

Lemma control_flow_block_shape_witness :
  print unchanged unchanged (defaultOptions ifSource) (stackOf ifExample) ifBlock false
  = (Ok (concat [group (concat [dstr "{#if "; DString (str "a"); dstr "}";
                               indent (concat [softline; fill [fill [DString (str "b")]];
                                               dedent softline]);
                               dstr "{/if}"]);
                 breakParent]), false)
  /\ forcedBreak
       (concat [group (concat [dstr "{#if "; DString (str "a"); dstr "}";
                               indent (concat [softline; fill [fill [DString (str "b")]];
                                               dedent softline]);
                               dstr "{/if}"]);
                breakParent]) = true.
Proof.
  split; [vm_compute; reflexivity|].
  apply (@control_flow_block_shape unchanged unchanged (defaultOptions ifSource)
           (stackOf ifExample) ifBlock _ false).
  vm_compute. reflexivity.
Defined.

(** C3, as stated, fails: the awaited-value block
    [{#await p then v}x{/await}] prints to a document without any forced
    break. *)
Lemma await_block_without_forced_break :
  exists d,
    print unchanged unchanged (defaultOptions awaitSource) (stackOf awaitExample)
      awaitBlock false = (Ok d, false)
    /\ forcedBreak d = false.
Proof. eexists. split; vm_compute; reflexivity. Qed.

Lemma unsupported_template_passthrough_witness :
  isNodeSupportedLanguage pugElement = Ok false
  /\ sourceTexts pugSource 21 [textOf 21 (str "p hello")] = true
  /\ print unchanged unchanged (defaultOptions pugSource) (stackOf pugExample) pugElement false
     = (Ok (elementDoc (defaultOptions pugSource) (str "template") (dstr "")
              [concat [line; DString (str "lang"); dstr "="; DString [dquote];
                       concat [DString (str "pug")]; DString [dquote]]]
              false (DString (printRaw pugElement))), false)
  /\ printRaw pugElement = js_slice pugSource 21 28.
Proof.
  pose proof (@unsupported_template_passthrough unchanged unchanged (defaultOptions pugSource)
                (stackOf pugExample) (mkLoc 0 39) None
                [Attribute (mkLoc 10 20) (str "lang") (Some [textOf 16 (str "pug")])]
                [textOf 21 (str "p hello")]
                [concat [line; DString (str "lang"); dstr "="; DString [dquote];
                         concat [DString (str "pug")]; DString [dquote]]]
                false eq_refl eq_refl eq_refl) as [H1 H2].
  split; [reflexivity|]. split; [reflexivity|]. split; [exact H1 | exact (H2 21 eq_refl)].
Defined.

(** C4. The body of a region in an unsupported language is not passed
    through.  In [<template lang=QpugQ><b>x</b></template>] the element
    is recognised as unsupported, its body is [<b>x</b>] in the source
    and [x] in the printed document: [printRaw] keeps the text of the
    leaves and loses the tags.  In [<script lang=QcoffeeQ>x = 1</script>]
    the script is in an unsupported language as well, and its body is
    handed to the JavaScript formatter like that of any other script,
    whatever the two formatters are. *)
Theorem unsupported_language_not_passed_through :
  (isNodeSupportedLanguage templateElement = Ok false
   /\ js_slice templateSource 21 29 = str "<b>x</b>"
   /\ print unchanged unchanged (defaultOptions templateSource) (stackOf templateExample)
        templateElement false
      = (Ok (elementDoc (defaultOptions templateSource) (str "template") (dstr "")
               [concat [line; DString (str "lang"); dstr "="; DString [dquote];
                        concat [DString (str "pug")]; DString [dquote]]]
               false (DString (str "x"))), false))
  /\ (preprocess coffeeSource = Ok coffeeSnipped
      /\ (exists attributes,
            extractAttributes (getText (defaultOptions coffeeSnipped) (mkLoc 0 63))
            = Ok attributes
            /\ isNodeSupportedLanguage (Script (mkLoc 0 63) attributes) = Ok false
            /\ getSnippedContent (Script (mkLoc 0 63) attributes) = Ok (str "x = 1"))
      /\ forall formatBabel formatHtml,
           print formatBabel formatHtml (defaultOptions coffeeSnipped) [] coffeeExample false
           = (rbind (formatBabel (str "x = 1")) (fun jsCode =>
              rbind (formatHtml (str "<script>" ++ jsCode ++ str "</script>"))
                (fun htmlCode => Ok (group (join hardline [DString htmlCode])))),
              false)).
Proof.
  split; [repeat split; vm_compute; reflexivity|].
  split; [vm_compute; reflexivity|]. split.
  - eexists. split; [vm_compute; reflexivity|]. split; vm_compute; reflexivity.
  - intros formatBabel formatHtml. vm_compute.
    destruct (formatBabel _) as [jsCode|e]; [|reflexivity].
    destruct (formatHtml _) as [htmlCode|e]; reflexivity.
Qed.

Lemma shorthand_equivalence_witness :
  print unchanged unchanged (defaultOptions (str "<p x={x}/>")) []
    (Attribute (mkLoc 3 8) (str "x")
       (Some [MustacheTag (mkLoc 5 8) (Identifier (mkLoc 6 7) (str "x"))])) false
  = (Ok (concat [line; dstr "{"; DString (str "x"); dstr "}"]), false)
  /\ print unchanged unchanged (strictOptions (str "<p {x}/>")) []
       (Attribute (mkLoc 3 6) (str "x")
          (Some [AttributeShorthand (mkLoc 4 5) (Identifier (mkLoc 4 5) (str "x"))])) false
     = (Ok (concat [line; DString (str "x"); DString (str "=" ++ dquote :: str "{");
                    DString (str "x"); DString (str "}" ++ [dquote])]), false).
Proof.
  split.
  - apply (proj1 (@shorthand_equivalence unchanged unchanged (defaultOptions (str "<p x={x}/>"))
                    [] (mkLoc 3 8) (mkLoc 3 8) (mkLoc 5 8) (mkLoc 6 7) (mkLoc 4 5) (str "x")
                    (Identifier (mkLoc 4 5) (str "x"))) eq_refl eq_refl).
  - destruct (proj2 (@shorthand_equivalence unchanged unchanged (strictOptions (str "<p {x}/>"))
                       [] (mkLoc 3 6) (mkLoc 3 6) (mkLoc 5 8) (mkLoc 6 7) (mkLoc 4 5) (str "x")
                       (Identifier (mkLoc 4 5) (str "x"))) eq_refl) as [H1 H2].
    rewrite H2. exact H1.
Defined.


Lemma ignore_directive_witness :
  isIgnoreDirective ignoreComment = true
  /\ getNextNode (ignoreComment :: stackOf ignoreExample) = Ok (Some ignoreGap)
  /\ print unchanged unchanged (defaultOptions ignoreSource) (stackOf ignoreExample)
       ignoreComment false
     = (Ok (group (concat [dstr "<!--"; DString (str " prettier-ignore "); dstr "-->"])),
        true)
  /\ print unchanged unchanged (defaultOptions ignoreSource) (stackOf ignoreExample)
       ignoredParagraph true
     = (Ok (printIgnored (defaultOptions ignoreSource) ignoredParagraph), false).
Proof.
  destruct (@ignore_directive_suppresses_next_content unchanged unchanged
              (defaultOptions ignoreSource) (stackOf ignoreExample)) as (H1 & _ & H3).
  split; [reflexivity|]. split; [reflexivity|]. split.
  - apply (H1 (mkLoc 0 24) (str " prettier-ignore ") ignoreGap); reflexivity.
  - apply H3; reflexivity.
Defined.

(** C7, as stated, fails: after the directive of [ignoreSource] the next
    sibling, a line feed, is printed as a line and not as its source slice,
    and the node suppressed is the paragraph after it. *)
Lemma ignore_directive_skips_whitespace_sibling :
  getNextNode (ignoreComment :: stackOf ignoreExample) = Ok (Some ignoreGap)
  /\ snd (print unchanged unchanged (defaultOptions ignoreSource) (stackOf ignoreExample)
            ignoreComment false) = true
  /\ print unchanged unchanged (defaultOptions ignoreSource) (stackOf ignoreExample)
       ignoreGap true
     = (Ok (DLine false false false (Some false)), true)
  /\ printIgnored (defaultOptions ignoreSource) ignoreGap
     = concat [DString []; literalline; DString []]
  /\ print unchanged unchanged (defaultOptions ignoreSource) (stackOf ignoreExample)
       ignoredParagraph true
     = (Ok (concat [DString (str "<p>x   y</p>")]), false)
  /\ fst (print unchanged unchanged (defaultOptions ignoreSource) (stackOf ignoreExample)
            ignoredParagraph false)
     <> Ok (concat [DString (str "<p>x   y</p>")]).
Proof. repeat split; try (vm_compute; reflexivity). vm_compute. discriminate. Qed.

Lemma whitespace_text_prints_line_witness :
  isEmptyNode gapText = true
  /\ isPreTagContent (gapText :: stackOf gapExample) = false
  /\ print unchanged unchanged (defaultOptions gapSource) (stackOf gapExample) gapText false
     = (Ok (DLine false false false (Some false)), false).
Proof.
  split; [reflexivity|]. split; [reflexivity|].
  apply (proj1 (@whitespace_text_prints_line unchanged unchanged (defaultOptions gapSource)
                  (stackOf gapExample) (mkLoc 8 9) (Some (str " ")) (str " ")
                  eq_refl eq_refl)).
Defined.

(** C8, as stated, fails: the whitespace between the two elements of
    [gapSource] prints as a plain line, which renders as a space in a flat
    group, not as a soft line; a text of two line feeds prints as a line
    that is not hard; and two carriage returns, two consecutive line
    terminators, are not marked. *)
Lemma whitespace_text_is_plain_line :
  print unchanged unchanged (defaultOptions gapSource) (stackOf gapExample) gapText false
  = (Ok (DLine false false false (Some false)), false)
  /\ print unchanged unchanged (defaultOptions gapSource) (stackOf gapExample)
       (textOf 8 [LF; LF]) false
     = (Ok (DLine false false false (Some true)), false)
  /\ print unchanged unchanged (defaultOptions gapSource) (stackOf gapExample)
       (textOf 8 [13; 13]%N) false
     = (Ok (DLine false false false (Some false)), false)
  /\ softline <> DLine false false false (Some false)
  /\ forcedBreak (DLine false false false (Some true)) = false.
Proof. repeat split; try (vm_compute; reflexivity). discriminate. Qed.

(** C9. The flag outlives an invocation that throws: printing
    [leakSource] fails with the flag set, and with the flag set the next
    invocation prints [paragraphSource] as its source text instead of the
    document a first invocation builds. *)
Lemma flag_survives_failed_invocation :
  print unchanged unchanged (defaultOptions leakSource) [] leakExample false
  = (Throw (UnknownNodeType (str "CallExpression")), true)
  /\ print unchanged unchanged (defaultOptions paragraphSource) [] paragraphExample true
     = (Ok (group (concat [concat [DString paragraphSource]])), false)
  /\ fst (print unchanged unchanged (defaultOptions paragraphSource) [] paragraphExample true)
     <> fst (print unchanged unchanged (defaultOptions paragraphSource) [] paragraphExample
               false).
Proof. repeat split; try (vm_compute; reflexivity). vm_compute. discriminate. Qed.

Lemma fragment_without_content_witness :
  forallb isEmptyNode [textOf 0 [LF]] = true
  /\ print unchanged unchanged (defaultOptions [LF]) [rootOf 1 [textOf 0 [LF]]]
       (Fragment (mkLoc 0 1) [textOf 0 [LF]]) false
     = (Ok (DString []), false).
Proof.
  split; [reflexivity|].
  apply fragment_without_content_prints_nothing. reflexivity.
Defined.

(** * Further properties *)

(** ** Patterns that match nowhere *)

Lemma nowhere_tail lit x s : nowhere lit (x :: s) -> nowhere lit s.
Proof. intros H u v E. apply (H (x :: u) v). now rewrite E. Qed.

Lemma nowhere_here lit s : nowhere lit s -> matchPrefixBy ci_eq lit s = None.
Proof. intros H. now apply (H [] s). Qed.

Lemma matchesInside_nowhere lit s :
  lit <> [] -> matchesInside lit s [] = false -> nowhere lit s.
Proof.
  intros Hl H u v E. destruct v as [|x v].
  - destruct lit; [contradiction|reflexivity].
  - rewrite <- (app_nil_r v). exact (@matchesInside_false _ _ _ H u x v E).
Qed.

Section StarFails.
Variable R : Type.
Variable p : jschar -> bool.
Variable k : nat -> jsstring -> caps -> option R.
Variable P : jsstring -> Prop.
Hypothesis P_tail : forall x s, P (x :: s) -> P s.
Hypothesis k_fails : forall i s c, P s -> k i s c = None.

(** A lazy star fails when its continuation fails on every text that
    satisfies a property kept by taking tails. *)
Lemma lazy_star_none : forall fuel i s c, P s ->
  starLoop false (rmatch (R := R) (RChar p)) k fuel i s c = None.
Proof.
  induction fuel as [|fuel IH]; intros i s c Hs.
  - now apply k_fails.
  - rewrite starLoop_lazy_S, (k_fails _ _ Hs). destruct s as [|x s].
    + apply rmatch_char_nil.
    + rewrite rmatch_char_cons, eqb_succ_self. destruct (p x); [|reflexivity].
      apply IH. exact (P_tail Hs).
Qed.
End StarFails.

(** A global replacement with a pattern that matches at no position
    returns the text. *)
Lemma replaceFrom_no_match r (f : regex_match -> result jsstring) s : forall fuel i,
  (forall j u v, s = u ++ v -> matchAt r j v = None) ->
  replaceFrom fuel r f i s = Ok s.
Proof.
  induction s as [|x s IH]; intros fuel i H; destruct fuel as [|fuel]; try reflexivity.
  - cbn [replaceFrom]. now rewrite (H i [] [] eq_refl).
  - cbn [replaceFrom]. rewrite (H i [] (x :: s) eq_refl).
    rewrite IH; [reflexivity|]. intros j u v E. apply (H j (x :: u) v). now rewrite E.
Qed.

Lemma snip_no_match tagName s j :
  nowhere (str "<" ++ tagName) s -> matchAt (snipRegex tagName) j s = None.
Proof.
  intros H. unfold matchAt, snipRegex. cbn [rmatch]. unfold rspace at 1.
  apply (@greedy_star_none _ _ _ (nowhere (str "<" ++ tagName)));
    [apply nowhere_tail | | exact H].
  intros i t c Ht. apply nowhere_here in Ht. destruct t as [|x t]; [reflexivity|].
  unfold rchar_i at 1. rewrite rmatch_char_cons.
  change (str "<" ++ tagName) with (60%N :: tagName) in Ht. cbn [matchPrefixBy] in Ht.
  destruct (ci_eq 60 x); [|reflexivity]. now rewrite rmatch_rlit_i, Ht.
Qed.

Lemma snipTagContent_without_tag tagName source placeholder :
  matchesInside (str "<" ++ tagName) source [] = false ->
  snipTagContent tagName source placeholder = Ok source.
Proof.
  intros H. apply matchesInside_nowhere in H; [|discriminate].
  unfold snipTagContent, regex_replace_all. apply replaceFrom_no_match.
  intros j u v E. apply snip_no_match. intros u' v' E'. apply (H (u ++ u') v').
  now rewrite E, E', app_assoc.
Qed.

(** X1. For a tag name of word characters, a source in which the opening
    of a region, [<] followed by the tag name in any letter case, occurs
    nowhere is returned unchanged by [snipTagContent]; when neither
    [<style] nor [<script] occurs, [preprocess] only trims the source. *)
Theorem source_without_regions_is_only_trimmed source :
  (forall tagName placeholder,
      forallb isWordChar tagName = true ->
      matchesInside (str "<" ++ tagName) source [] = false ->
      snipTagContent tagName source placeholder = Ok source)
  /\ (matchesInside (str "<style") source [] = false ->
      matchesInside (str "<script") source [] = false ->
      preprocess source = Ok (js_trim source)).
Proof.
  split.
  - intros tagName placeholder _ H. now apply snipTagContent_without_tag.
  - intros H1 H2. unfold preprocess.
    rewrite (@snipTagContent_without_tag (str "style") source [] H1). cbn [rbind].
    now rewrite (@snipTagContent_without_tag (str "script") source (str "{}") H2).
Qed.

Lemma source_without_regions_witness :
  snipTagContent (str "style") (str "  <p>a < b</p> ") [] = Ok (str "  <p>a < b</p> ")
  /\ preprocess (str "  <p>a < b</p> ") = Ok (str "<p>a < b</p>").
Proof.
  destruct (source_without_regions_is_only_trimmed (str "  <p>a < b</p> ")) as [H1 H2].
  split; [apply H1 | apply H2]; reflexivity.
Defined.

Lemma unsnip_no_match s j :
  nowhere snippedTagContentAttribute s -> matchAt unsnipRegex j s = None.
Proof.
  intros H. unfold matchAt, unsnipRegex. cbn [rmatch rplus].
  destruct s as [|x s]; [reflexivity|].
  unfold rchar_i at 1. rewrite rmatch_char_cons. destruct (ci_eq 60 x); [|reflexivity].
  apply nowhere_tail in H.
  destruct s as [|y s]; [reflexivity|]. unfold rword at 1. rewrite rmatch_char_cons.
  destruct (isWordChar y); [|reflexivity]. apply nowhere_tail in H.
  unfold rword.
  apply (@greedy_star_none _ _ _ (nowhere snippedTagContentAttribute));
    [apply nowhere_tail | | exact H].
  intros i t c Ht. unfold rdot at 1.
  apply (@lazy_star_none _ _ _ (nowhere snippedTagContentAttribute));
    [apply nowhere_tail | | exact Ht].
  intros i' t' c' Ht'. unfold rspace.
  apply (@greedy_star_none _ _ _ (nowhere snippedTagContentAttribute));
    [apply nowhere_tail | | exact Ht'].
  intros i'' t'' c'' Ht''. now rewrite rmatch_rlit_i, (nowhere_here Ht'').
Qed.

(** X2. A text in which the marker attribute name occurs nowhere, in any
    letter case, is returned unchanged by [unsnipContent]. *)
Theorem text_without_marker_is_unchanged text :
  matchesInside snippedTagContentAttribute text [] = false ->
  unsnipContent text = Ok text.
Proof.
  intros H. apply matchesInside_nowhere in H; [|discriminate].
  unfold unsnipContent, regex_replace_all. apply replaceFrom_no_match.
  intros j u v E. apply unsnip_no_match. intros u' v' E'. apply (H (u ++ u') v').
  now rewrite E, E', app_assoc.
Qed.

Lemma text_without_marker_witness :
  unsnipContent (str "<b>if a < b</b>") = Ok (str "<b>if a < b</b>").
Proof. apply text_without_marker_is_unchanged. reflexivity. Defined.

(** X3. For a tag name of word characters, a region whose body holds a
    code unit above 255 cannot be snipped: [btoa] rejects the body and the
    exception leaves [snipTagContent] and, for a style region,
    [preprocess]. *)
Theorem region_with_wide_character_is_rejected tagName placeholder body :
  forallb isWordChar tagName = true ->
  matchesInside (closingTag tagName) body (closingTag tagName) = false ->
  forallb isByte body = false ->
  snipTagContent tagName (region tagName body) placeholder = Throw InvalidCharacterError
  /\ (tagName = str "style" ->
      preprocess (region tagName body) = Throw InvalidCharacterError).
Proof.
  intros _ Hc Hb.
  assert (E : forall ph, snipTagContent tagName (region tagName body) ph
                         = Throw InvalidCharacterError).
  { intros ph. rewrite (@snipTagContent_region tagName ph body Hc).
    unfold snipReplacement, btoa. now rewrite Hb. }
  split; [apply E|]. intros ->. unfold preprocess. now rewrite E.
Qed.

Lemma region_with_wide_character_witness :
  preprocess (region (str "style") (str "p::after { content: '" ++ [8364%N] ++ str "' }"))
  = Throw InvalidCharacterError.
Proof.
  apply (proj2 (@region_with_wide_character_is_rejected (str "style") []
                  (str "p::after { content: '" ++ [8364%N] ++ str "' }")
                  eq_refl eq_refl eq_refl)).
  reflexivity.
Defined.

Lemma matchPrefixBy_longer eq p : forall w t,
  matchPrefixBy eq p w = None -> length p <= length w ->
  matchPrefixBy eq p (w ++ t) = None.
Proof.
  induction p as [|x p IH]; intros w t H L; [discriminate H|].
  destruct w as [|y w]; [simpl in L; lia|]. cbn [matchPrefixBy app] in *.
  destruct (eq x y); [|reflexivity]. apply IH; [exact H | simpl in L; lia].
Qed.

(** ** A region between whitespace *)

Section SnipPadded.
Variables tagName placeholder body before after : jsstring.
Hypothesis before_space : forallb isJSWhitespace before = true.
Hypothesis after_space : forallb isJSWhitespace after = true.
Hypothesis body_closed :
  matchesInside (closingTag tagName) body (closingTag tagName) = false.

Lemma snip_matchAt_padded :
  exists m,
    matchAt (snipRegex tagName) 0 (before ++ region tagName body ++ after) = Some m
    /\ m_end m = length (before ++ region tagName body ++ after)
    /\ capOr 1 (m_caps m) = []
    /\ capOr 2 (m_caps m) = body.
Proof.
  eexists. split.
  - unfold matchAt, snipRegex, region. cbn [rmatch].
    unfold rspace at 1.
    rewrite <- !app_assoc.
    apply greedy_star_longest; [exact before_space | reflexivity | | lengths].
    change (str "<" ++ ?x) with (60%N :: x).
    unfold rchar_i at 1. rewrite rmatch_char_cons. change (ci_eq 60 60) with true. cbv iota.
    rewrite rmatch_rlit_i, matchPrefixBy_app.
    unfold rany at 1. apply lazy_star_first with (u := []); [reflexivity | | | cbn; lia].
    { intros [|? ?] ? ? E; discriminate E. }
    change (str ">" ++ ?x) with (62%N :: x).
    unfold rchar_i at 1. rewrite rmatch_char_cons. change (ci_eq 62 62) with true. cbv iota.
    unfold rany at 1. apply lazy_star_first; [now apply forallb_forall | | | lengths].
    { intros u1 x u2 E.
      pose proof (@matchesInside_false _ _ _ body_closed u1 x u2 E) as Hn.
      apply (@matchPrefixBy_longer ci_eq _ _ after) in Hn; [|simpl; lengths].
      rewrite <- app_comm_cons, <- !app_assoc in Hn.
      unfold closingTag in Hn at 1. rewrite matchPrefixBy_split in Hn.
      rewrite rmatch_rlit_i.
      destruct (matchPrefixBy ci_eq (str "</") (x :: u2 ++ closingTag tagName ++ after))
        as [s1|]; [|reflexivity].
      rewrite matchPrefixBy_split in Hn. rewrite rmatch_rlit_i.
      destruct (matchPrefixBy ci_eq tagName s1) as [s2|]; [|reflexivity].
      destruct s2 as [|y s2]; [reflexivity|].
      unfold rchar_i at 1. rewrite rmatch_char_cons.
      cbn [matchPrefixBy str map list_ascii_of_string] in Hn.
      change (N_of_ascii ">") with 62%N in Hn.
      destruct (ci_eq 62 y); [discriminate Hn|reflexivity]. }
    unfold closingTag. rewrite <- !app_assoc.
    rewrite rmatch_rlit_i, matchPrefixBy_app, rmatch_rlit_i, matchPrefixBy_app.
    change (str ">" ++ after) with (62%N :: after).
    unfold rchar_i at 1. rewrite rmatch_char_cons. change (ci_eq 62 62) with true. cbv iota.
    unfold rspace. rewrite <- (app_nil_r after) at 1 2.
    apply greedy_star_longest; [exact after_space | exact I | reflexivity | lengths].
  - cbn [m_end m_caps capOr getCap Nat.eqb]. unfold region, closingTag. repeat split.
    + lengths.
    + apply (@firstn_exact _ []). lengths.
    + apply firstn_exact. lengths.
Qed.

Lemma snipTagContent_padded :
  snipTagContent tagName (before ++ region tagName body ++ after) placeholder
  = snipReplacement tagName placeholder [] body.
Proof.
  destruct snip_matchAt_padded as (m & Hm & He & H1 & H2).
  unfold snipTagContent, regex_replace_all. cbn [replaceFrom]. rewrite Hm, H1, H2.
  destruct (snipReplacement tagName placeholder [] body) as [rep|e]; [|reflexivity].
  cbn [rbind].
  replace (Nat.eqb (m_end m) 0) with false
    by (symmetry; apply Nat.eqb_neq; rewrite He; unfold region; lengths).
  rewrite He, Nat.sub_0_r, skipn_all.
  match goal with
  | |- rbind ?x _ = _ => assert (E : x = Ok [])
  end.
  { destruct (length (before ++ region tagName body ++ after)); reflexivity. }
  rewrite E. cbn [rbind]. now rewrite app_nil_r.
Qed.
End SnipPadded.

Lemma startsWith_app p s : startsWith p (p ++ s) = true.
Proof. induction p as [|x p IH]; simpl; [reflexivity|]. now rewrite N.eqb_refl. Qed.

Lemma js_includes_app u p v : js_includes (u ++ p ++ v) p = true.
Proof.
  induction u as [|x u IH].
  - cbn [app]. destruct (p ++ v) eqn:E; cbn [js_includes];
      rewrite <- E, startsWith_app; reflexivity.
  - cbn [app js_includes]. rewrite IH. apply orb_true_r.
Qed.

Lemma snipReplacement_marked tagName placeholder attributes content text :
  snipReplacement tagName placeholder attributes content = Ok text ->
  hasSnippedContent text = true.
Proof.
  unfold snipReplacement. destruct (btoa content) as [encoded|]; [|discriminate].
  intros H.
  assert (E : text = (str "<" ++ tagName ++ attributes ++ str " ")
                       ++ snippedTagContentAttribute
                       ++ (str "=" ++ [dquote] ++ encoded ++ [dquote] ++ str ">"
                             ++ placeholder ++ str "</" ++ tagName ++ str ">")).
  { cbn [rbind] in H. rewrite <- !app_assoc. congruence. }
  rewrite E. apply js_includes_app.
Qed.

(** X4. For a tag name of word characters, a region that stands between
    whitespace is replaced, together with that whitespace, by what the
    callback writes for a tag without attributes; the text that results
    is recognised by [hasSnippedContent]. *)
Theorem region_is_snipped_with_its_surrounding_whitespace
  tagName placeholder body before after :
  forallb isWordChar tagName = true ->
  forallb isJSWhitespace before = true ->
  forallb isJSWhitespace after = true ->
  matchesInside (closingTag tagName) body (closingTag tagName) = false ->
  snipTagContent tagName (before ++ region tagName body ++ after) placeholder
  = snipReplacement tagName placeholder [] body
  /\ forall text,
       snipTagContent tagName (before ++ region tagName body ++ after) placeholder = Ok text ->
       hasSnippedContent text = true.
Proof.
  intros _ Hb Ha Hc.
  pose proof (@snipTagContent_padded tagName placeholder body before after Hb Ha Hc) as E.
  split; [exact E|]. intros text H. rewrite E in H.
  exact (snipReplacement_marked _ _ _ _ H).
Qed.

Lemma region_is_snipped_witness :
  snipTagContent (str "style") ([10; 10]%N ++ region (str "style") (str "p{}") ++ [10]%N) []
  = Ok (snippedRegion (str "style") [] (str "cHt9")).
Proof.
  refine (eq_trans
            (proj1 (@region_is_snipped_with_its_surrounding_whitespace (str "style") []
                      (str "p{}") [10; 10]%N [10]%N eq_refl eq_refl eq_refl eq_refl)) _).
  reflexivity.
Defined.

(** ** The attributes of a snipped tag *)




Section SnippedAttributes.
Variable tagHead : jschar.
Variables tagRest placeholder encoded : jsstring.
Hypothesis tag_letters : forallb isAsciiLetter (tagHead :: tagRest) = true.
Hypothesis encoded_line : forallb (fun c => negb (isLineTerminator c)) encoded = true.
Hypothesis encoded_quote : forallb (fun c => negb (N.eqb dquote c)) encoded = true.
Hypothesis encoded_gt : forallb (fun c => negb (N.eqb 62 c)) encoded = true.

#[local] Abbreviation attributesString :=
  (snippedTagContentAttribute ++ str "=" ++ [dquote] ++ encoded ++ [dquote]).





End SnippedAttributes.








Section SnippedNodes.
Variables formatBabel formatHtml : jsstring -> result jsstring.
Variable opts : options.
#[local] Abbreviation pr := (print formatBabel formatHtml opts).

(** X6. The document of a [Script] node depends on its snipped content
    only: the position of the tag and its other attributes do not reach
    the output. *)
Theorem script_prints_from_its_snipped_content_only stack1 stack2 l1 l2 attributes1 attributes2 :
  getSnippedContent (Script l1 attributes1) = getSnippedContent (Script l2 attributes2) ->
  pr stack1 (Script l1 attributes1) false = pr stack2 (Script l2 attributes2) false.
Proof.
  intros H. cbn [print]. rewrite !unlessIgnored_clear. unfold printScript.
  now rewrite H.
Qed.

End SnippedNodes.

Lemma script_prints_witness :
  print unchanged unchanged (defaultOptions []) []
    (Script (mkLoc 0 9) [Attribute (mkLoc 0 16) (str "context") (Some [textOf 9 (str "module")])])
    false
  = print unchanged unchanged (defaultOptions []) [] (Script (mkLoc 0 9) []) false.
Proof.
  apply script_prints_from_its_snipped_content_only. reflexivity.
Defined.


Section ScriptAndMarkup.
Variables formatBabel formatHtml : jsstring -> result jsstring.
Variable opts : options.
#[local] Abbreviation pr := (print formatBabel formatHtml opts).

End ScriptAndMarkup.


(** ** Empty documents *)

Lemma found_doc_is_truthy g found :
  find (fun d => negb (isEmptyDoc d)) g = Some found -> truthy found = true.
Proof.
  intros H. apply find_some in H as [_ H].
  destruct found as [[|c s]| | | | | | |]; try reflexivity. discriminate H.
Qed.

Lemma find_not_empty g :
  match find (fun d => negb (isEmptyDoc d)) g with
  | Some found => negb (truthy found)
  | None => true
  end = forallb isEmptyDoc g.
Proof.
  destruct (find _ g) as [found|] eqn:E.
  - rewrite (found_doc_is_truthy _ E). apply find_some in E as [I E].
    symmetry. destruct (forallb isEmptyDoc g) eqn:F; [|reflexivity].
    rewrite forallb_forall in F. rewrite (F _ I) in E. discriminate E.
  - symmetry. apply forallb_forall. intros d I.
    apply (find_none _ _ E) in I. now apply negb_false_iff in I.
Qed.

(** X9. [isEmptyGroup] holds exactly when every document of the group is
    empty, and so do [isEmptyDoc] on a [concat] and on a [fill].  A
    [group] or an [indent] is empty when its contents are, unless the
    contents are the empty string: around a string, the empty one
    included, it never is. *)
Theorem empty_group_is_all_empty g :
  isEmptyGroup g = forallb isEmptyDoc g
  /\ isEmptyDoc (concat g) = forallb isEmptyDoc g
  /\ isEmptyDoc (fill g) = forallb isEmptyDoc g
  /\ (forall d, isEmptyDoc (group d) = truthy d && isEmptyDoc d
                /\ isEmptyDoc (indent d) = truthy d && isEmptyDoc d)
  /\ (forall s, isEmptyDoc (group (DString s)) = false
                /\ isEmptyDoc (indent (DString s)) = false).
Proof.
  split; [apply find_not_empty|]. split; [apply find_not_empty|].
  split; [apply find_not_empty|]. split.
  - intros d. split; cbn [group indent isEmptyDoc]; now destruct (truthy d).
  - intros [|c s]; split; reflexivity.
Qed.

(** ** Trimming *)

Section TrimFacts.
Variable isWhitespace : doc -> bool.

Lemma leading_whitespace_split g :
  let n := match findIndex (fun d => negb (isWhitespace d)) g with
           | Some i => i
           | None => length g
           end in
  forallb isWhitespace (firstn n g) = true
  /\ match skipn n g with
     | r :: _ => isWhitespace r = false
     | [] => True
     end.
Proof.
  induction g as [|x g IH]; [now split|].
  cbn [findIndex]. destruct (isWhitespace x) eqn:W; cbn [negb].
  - destruct (findIndex (fun d => negb (isWhitespace d)) g) as [i|];
      cbn [option_map length firstn skipn forallb] in *; now rewrite W.
  - now split.
Qed.

(** X10. On a list that starts with whitespace, [trimLeft] removes the
    longest prefix of whitespace and returns it: what is removed and what
    is left make up the list, and what is left does not start with
    whitespace. *)
Theorem trimLeft_removes_the_leading_whitespace d g :
  isWhitespace d = true ->
  exists removed rest,
    trimLeft isWhitespace (d :: g) = (Some removed, rest)
    /\ removed ++ rest = d :: g
    /\ forallb isWhitespace removed = true
    /\ match rest with
       | r :: _ => isWhitespace r = false
       | [] => True
       end.
Proof.
  intros W. unfold trimLeft, trimLeftStep.
  pose proof (leading_whitespace_split (d :: g)) as S. cbv zeta in S.
  set (n := match findIndex (fun d => negb (isWhitespace d)) (d :: g) with
            | Some i => i
            | None => length (d :: g)
            end) in *.
  assert (N : Nat.ltb 0 n = true).
  { apply Nat.ltb_lt. subst n. cbn [findIndex]. rewrite W. cbn [negb].
    destruct (findIndex _ g); cbn [option_map length]; lia. }
  rewrite N. exists (firstn n (d :: g)), (skipn n (d :: g)).
  split; [reflexivity|]. split; [apply firstn_skipn|]. exact S.
Qed.
End TrimFacts.

Lemma trimLeft_witness :
  exists removed rest,
    trimLeft isLine [line; softline; DString (str "a"); line] = (Some removed, rest)
    /\ removed ++ rest = [line; softline; DString (str "a"); line]
    /\ forallb isLine removed = true
    /\ match rest with
       | r :: _ => isLine r = false
       | [] => True
       end.
Proof. apply trimLeft_removes_the_leading_whitespace. reflexivity. Defined.

(** *** Both ends after [trim] *)

Lemma lastOf_cons (A : Type) (x y : A) l : lastOf (x :: y :: l) = lastOf (y :: l).
Proof.
  unfold lastOf. cbn [rev]. destruct (rev l ++ [y]) as [|z r] eqn:E.
  - destruct (rev l); discriminate E.
  - reflexivity.
Qed.

Lemma trimLeftIn_isLine d : isLine (snd (trimLeftIn isLine d)) = isLine d.
Proof.
  destruct d; try reflexivity; cbn [trimLeftIn];
    destruct (trimLeftStep isLine (trimLeftIn isLine) parts); reflexivity.
Qed.

Lemma trimRightIn_isLine d : isLine (snd (trimRightIn isLine d)) = isLine d.
Proof.
  destruct d; try reflexivity; cbn [trimRightIn];
    destruct (trimRightStep isLine (trimRightIn isLine) parts); reflexivity.
Qed.

Lemma trimLeft_startsPlain g : startsPlain (snd (trimLeft isLine g)).
Proof.
  unfold trimLeft, trimLeftStep.
  pose proof (leading_whitespace_split isLine g) as [_ S]. cbv zeta in S.
  destruct (findIndex (fun d => negb (isLine d)) g) as [i|] eqn:F.
  - destruct i as [|i].
    + cbn [Nat.ltb Nat.leb]. destruct g as [|d rest]; [exact I|].
      cbn [skipn] in S. pose proof (trimLeftIn_isLine d) as T.
      destruct (trimLeftIn isLine d) as [removed d']. cbn [snd startsPlain] in *. congruence.
    + exact S.
  - destruct g as [|d rest]; [exact I|]. exact S.
Qed.

Lemma kept_ends_plain g :
  let keep := match findLastIndex (fun d => negb (isLine d)) g with
              | Some i => S i
              | None => 0
              end in
  endsPlain (firstn keep g) /\ keep <= length g.
Proof.
  induction g as [|x g IH]; [split; [exact I|apply Nat.le_refl]|].
  cbn [findLastIndex]. cbv zeta in IH.
  destruct (findLastIndex (fun d => negb (isLine d)) g) as [i|].
  - destruct IH as [IH L]. split; [|simpl; lia].
    change (firstn (S (S i)) (x :: g)) with (x :: firstn (S i) g).
    destruct g as [|y g]; [simpl in L; lia|]. cbn [firstn] in *.
    unfold endsPlain in *. now rewrite lastOf_cons.
  - destruct (isLine x) eqn:W; cbn [negb].
    + split; [exact I|simpl; lia].
    + split; [|simpl; lia]. unfold endsPlain. cbn. exact W.
Qed.

Lemma onLast_cons nested x y g :
  onLast nested (x :: y :: g)
  = let (removed, g'') := onLast nested (y :: g) in (removed, x :: g'').
Proof. reflexivity. Qed.

Lemma onLast_nonempty nested : forall g x, snd (onLast nested (x :: g)) <> [].
Proof.
  induction g as [|y g IH]; intros x.
  - cbn [onLast]. destruct (nested x); discriminate.
  - rewrite onLast_cons. destruct (onLast nested (y :: g)); discriminate.
Qed.

Lemma onLast_ends g :
  endsPlain g -> endsPlain (snd (onLast (trimRightIn isLine) g)).
Proof.
  induction g as [|x g IH]; intros H; [exact I|].
  destruct g as [|y g].
  - cbn [onLast]. pose proof (trimRightIn_isLine x) as T.
    destruct (trimRightIn isLine x) as [removed x']. unfold endsPlain in *. cbn in *.
    congruence.
  - rewrite onLast_cons.
    unfold endsPlain in H. rewrite lastOf_cons in H. specialize (IH H).
    pose proof (@onLast_nonempty (trimRightIn isLine) g y) as NE.
    destruct (onLast (trimRightIn isLine) (y :: g)) as [removed g''].
    cbn [snd] in *. destruct g'' as [|z g'']; [contradiction|].
    unfold endsPlain. now rewrite lastOf_cons.
Qed.

Lemma onLast_starts g :
  startsPlain g -> startsPlain (snd (onLast (trimRightIn isLine) g)).
Proof.
  destruct g as [|x g]; intros H; [exact I|].
  destruct g as [|y g].
  - cbn [onLast]. pose proof (trimRightIn_isLine x) as T.
    destruct (trimRightIn isLine x) as [removed x']. cbn in *. congruence.
  - rewrite onLast_cons.
    destruct (onLast (trimRightIn isLine) (y :: g)). exact H.
Qed.

Lemma trimRight_ends g :
  endsPlain (snd (trimRight isLine g))
  /\ (startsPlain g -> startsPlain (snd (trimRight isLine g))).
Proof.
  unfold trimRight, trimRightStep. destruct g as [|x g]; [split; [exact I|auto]|].
  pose proof (kept_ends_plain (x :: g)) as [K L]. cbv zeta in K, L.
  set (keep := match findLastIndex (fun d => negb (isLine d)) (x :: g) with
               | Some i => S i
               | None => 0
               end) in *.
  destruct (Nat.ltb keep (length (x :: g))) eqn:N.
  - cbn [snd]. split; [exact K|]. intros H. destruct keep; [exact I|exact H].
  - apply Nat.ltb_ge in N. assert (E : keep = length (x :: g)) by lia.
    rewrite E, firstn_all in K. split; [now apply onLast_ends|apply onLast_starts].
Qed.

(** X11. What [trim] leaves, with [isLine] as the whitespace test, neither
    starts nor ends with a line. *)
Theorem trim_leaves_no_line_at_either_end docs :
  match trim isLine docs with
  | d :: _ => isLine d = false
  | [] => True
  end
  /\ match lastOf (trim isLine docs) with
     | Some d => isLine d = false
     | None => True
     end.
Proof.
  unfold trim. destruct (trimRight_ends (snd (trimLeft isLine docs))) as [E S].
  split; [apply S, trimLeft_startsPlain | exact E].
Qed.

(** ** Splitting at a character and joining again *)

Lemma splitOn_nonempty sep s : splitOn sep s <> [].
Proof.
  destruct s as [|c s]; cbn [splitOn]; [discriminate|].
  destruct (N.eqb c sep); [discriminate|]. destruct (splitOn sep s); discriminate.
Qed.

Lemma joinStrings_cons sep x y l :
  joinStrings sep (x :: y :: l) = x ++ sep ++ joinStrings sep (y :: l).
Proof. reflexivity. Qed.

Lemma joinStrings_splitOn sep s : joinStrings [sep] (splitOn sep s) = s.
Proof.
  induction s as [|c s IH]; [reflexivity|]. cbn [splitOn].
  pose proof (splitOn_nonempty sep s) as NE.
  destruct (N.eqb_spec c sep) as [->|Hc].
  - destruct (splitOn sep s) as [|w ws]; [contradiction|].
    rewrite joinStrings_cons, IH. reflexivity.
  - destruct (splitOn sep s) as [|w ws]; [contradiction|].
    destruct ws as [|w' ws].
    + cbn [joinStrings] in *. now rewrite IH.
    + rewrite joinStrings_cons in *. rewrite <- IH. reflexivity.
Qed.

Lemma concat_literal_lines (sep : doc) (f : jsstring -> doc) rest : forall o,
  List.concat ([f o] :: map (fun o => [sep; f o]) rest) = joinParts sep (map f (o :: rest)).
Proof.
  induction rest as [|o' rest IH]; intros o; [reflexivity|].
  cbn [map List.concat app joinParts] in *. f_equal. f_equal. apply (IH o').
Qed.

(** X12. A node whose printing is suppressed is printed as the lines of
    its source slice joined by [literalline], and these lines joined by
    line feeds are the slice: no character of it is lost. *)
Theorem ignored_node_is_printed_as_its_source_lines opts n :
  let source := js_slice (originalText opts) (locStart n) (locEnd n) in
  printIgnored opts n = join literalline (map DString (splitOn newline source))
  /\ joinStrings [newline] (splitOn newline source) = source.
Proof.
  intros source. split; [|apply joinStrings_splitOn].
  unfold printIgnored. fold source.
  pose proof (splitOn_nonempty newline source) as NE.
  destruct (splitOn newline source) as [|o rest]; [contradiction|].
  unfold join, concat. f_equal. apply concat_literal_lines.
Qed.

(** ** [expandNode] *)

Lemma joinStrings_after_hole (p : jsstring) ps :
  skipn 1 (joinStrings (str ",") ([] :: p :: ps)) = joinStrings (str ",") (p :: ps).
Proof. now rewrite joinStrings_cons. Qed.

(** X13. The text [expandNode] returns for a pattern other than [null]
    starts with a space, which is what separates it from the keyword the
    printer writes before it. *)
Theorem expanded_pattern_starts_with_a_space p : forall s,
  p <> PNull -> expandNode p = Ok s -> exists t, s = 32%N :: t.
Proof.
  induction p as [ |s0|elements|lhs IHl rhs IHr|name|raw|properties|key IHk value IHv
                 |argument IHa|type]; intros s Hp H; cbn [expandNode] in H.
  - contradiction.
  - injection H as <-. eauto.
  - destruct (sequenceResults (map expandNode elements)); [|discriminate].
    injection H as <-. eauto.
  - destruct (expandNode lhs) as [l|] eqn:El; [|discriminate]. cbn [rbind] in H.
    destruct (expandNode rhs) as [r|]; [|discriminate]. injection H as <-.
    destruct lhs;
      try (destruct (IHl l ltac:(discriminate) eq_refl) as [t ->]; eexists; reflexivity).
    cbn [expandNode] in El. injection El as <-. eexists; reflexivity.
  - injection H as <-. eauto.
  - injection H as <-. eauto.
  - destruct (sequenceResults (map expandNode properties)); [|discriminate].
    injection H as <-. eauto.
  - destruct value; try discriminate H;
      try (apply IHv; [discriminate|exact H]).
    + destruct (patternName key) as [k|] eqn:K; [|discriminate]. cbn [rbind] in H.
      destruct (negb (opt_seqb k (Some name))).
      * destruct (expandNode key) as [ks|] eqn:Ek; [|discriminate]. cbn [rbind] in H.
        destruct (expandNode (PIdentifier name)); [|discriminate]. injection H as <-.
        assert (Hk : key <> PNull) by (intros ->; discriminate K).
        destruct (IHk ks Hk eq_refl) as [t ->]. eexists; reflexivity.
      * apply IHv; [discriminate|exact H].
    + destruct (patternName key) as [k|]; [|discriminate]. cbn [rbind] in H.
      destruct (expandNode (ObjectPattern properties)); [|discriminate].
      injection H as <-. eauto.
  - destruct (patternName argument); [|discriminate]. injection H as <-. eauto.
  - discriminate.
Qed.

Lemma expanded_pattern_witness :
  exists t,
    str " { a, b: c }" = 32%N :: t.
Proof.
  apply (@expanded_pattern_starts_with_a_space
           (ObjectPattern [Property (PIdentifier (str "a")) (PIdentifier (str "a"));
                           Property (PIdentifier (str "b")) (PIdentifier (str "c"))]));
    [discriminate|].
  vm_compute. reflexivity.
Defined.

(** X14. A hole at the head of an array pattern is not written: the
    elements after it are expanded as if they stood first, the comma of
    the hole being the character [slice(1)] removes. *)
Theorem leading_hole_of_an_array_pattern_is_dropped e rest parts :
  sequenceResults (map expandNode (e :: rest)) = Ok parts ->
  expandNode (ArrayPattern (PNull :: e :: rest))
  = Ok (str " [" ++ joinStrings (str ",") parts ++ str "]")
  /\ expandNode (ArrayPattern (e :: rest))
     = Ok (str " [" ++ skipn 1 (joinStrings (str ",") parts) ++ str "]").
Proof.
  intros H. split.
  - cbn [expandNode]. change (map expandNode (PNull :: e :: rest))
      with (Ok [] :: map expandNode (e :: rest)).
    cbn [map sequenceResults rbind] in *.
    destruct (expandNode e) as [x|]; cbn [rbind] in *; [|discriminate].
    destruct (sequenceResults (map expandNode rest)) as [xs|]; cbn [rbind] in *;
      [|discriminate].
    injection H as <-. now rewrite joinStrings_after_hole.
  - cbn [expandNode]. now rewrite H.
Qed.

Lemma leading_hole_witness :
  expandNode (ArrayPattern [PNull; PIdentifier (str "b")]) = Ok (str " [ b]")
  /\ expandNode (ArrayPattern [PIdentifier (str "b")]) = Ok (str " [b]").
Proof.
  apply (@leading_hole_of_an_array_pattern_is_dropped (PIdentifier (str "b")) []
           [str " b"]).
  reflexivity.
Defined.

(** ** Directives, preformatted text, style blocks and languages *)

Section NodeFacts.
Variables formatBabel formatHtml : jsstring -> result jsstring.
Variable opts : options.
#[local] Abbreviation pr := (print formatBabel formatHtml opts).

(** X15. A [bind:], [class:] or [let:] directive whose expression is the
    identifier of its own name prints in the short form, whatever the
    options say about strict mode and shorthands. *)
Theorem directive_on_its_own_name_is_shortened stack l le name :
  let e := Identifier le name in
  pr stack (Binding l name e) false
  = (Ok (concat [line; dstr "bind:"; DString name; dstr ""]), false)
  /\ pr stack (ClassDirective l name e) false
     = (Ok (concat [line; dstr "class:"; DString name; dstr ""]), false)
  /\ pr stack (LetDirective l name (Some e)) false
     = (Ok (concat [line; dstr "let:"; DString name; dstr ""]), false).
Proof.
  intros e. subst e. cbn [print]. rewrite !unlessIgnored_clear.
  cbn [isIdentifierNamed]. rewrite seqb_refl. repeat split.
Qed.

Lemma existsb_In (A : Type) (f : A -> bool) l x : In x l -> f x = true -> existsb f l = true.
Proof. intros I H. apply existsb_exists. eauto. Qed.

(** X16. Below a [pre] element or an attribute other than [class], a text
    node prints as its [data], unchanged; hence an attribute other than
    [class] with a text value prints that value as it is, between double
    quotes. *)
Theorem preformatted_text_is_printed_as_it_is stack lt raw data :
  (forall p, In p stack -> isPreOrUnformattable p = true ->
             pr stack (Text lt raw data) false = (Ok (DString data), false))
  /\ (forall l name,
        includes formattableAttributes name = false ->
        pr stack (Attribute l name (Some [Text lt raw data])) false
        = (Ok (concat [line; DString name; dstr "="; DString [dquote];
                       concat [DString data]; DString [dquote]]), false)).
Proof.
  split.
  - intros p I H. cbn [print]. rewrite unlessIgnored_clear.
    unfold isPreTagContent. cbn [existsb isPreOrUnformattable orb].
    now rewrite (existsb_In _ _ _ I H).
  - intros l name H. cbn [print]. rewrite unlessIgnored_clear.
    unfold isOrCanBeConvertedToShorthand.
    cbn [isAttributeShorthand isLoneMustacheTag negb orb mapM].
    unfold bind at 1. unfold bind at 1. cbn [print]. rewrite unlessIgnored_clear.
    unfold isPreTagContent. cbn [existsb isPreOrUnformattable orb]. rewrite H.
    reflexivity.
Qed.

(** X17. The printer has no case for the node of a style block: when the
    order of parts reaches [styles] with the flag clear, printing a
    component that has a style block throws the unknown-node-type
    error. *)
Theorem style_block_cannot_be_printed stack l html before rest :
  parseSortOrder (svelteSortOrder opts) = before ++ str "styles" :: rest ->
  forallb (fun p => seqb p (str "scripts")) before = true ->
  pr stack (Root None None (Some l) html) false
  = (Throw (UnknownNodeType (str "Style")), false).
Proof.
  intros Ho Hb. cbn [print]. rewrite Ho. clear Ho.
  match goal with
  | |- bind (?F _ _) _ _ = _ =>
      assert (E : forall acc, F (before ++ str "styles" :: rest) acc false
                              = (Throw (UnknownNodeType (str "Style")), false))
  end.
  { induction before as [|p before IH]; intros acc.
    - reflexivity.
    - cbn [forallb] in Hb. apply andb_true_iff in Hb as [Hp Hb].
      cbn [app]. rewrite Hp. unfold bind at 1. unfold bind at 1. unfold bind at 1.
      cbn [ret]. apply (IH Hb). }
  unfold bind at 1. now rewrite E.
Qed.

(** X18. A node without a [lang] attribute is in a supported language;
    with one whose value is a text, it is supported exactly when the text,
    a leading [text/] removed, is not in [unsupportedLanguages]. *)
Theorem language_is_read_from_the_lang_attribute kind l name expression before children :
  forallb (fun a => negb (opt_seqb (nameOf a) (Some (str "lang")))) before = true ->
  isNodeSupportedLanguage (Container kind l name expression before children) = Ok true
  /\ forall la lt raw value after,
       isNodeSupportedLanguage
         (Container kind l name expression
            (before ++ Attribute la (str "lang") (Some [Text lt raw value]) :: after)
            children)
       = Ok (negb (includes unsupportedLanguages (stripTextPrefix value))).
Proof.
  intros H. unfold isNodeSupportedLanguage, getLangAttribute, getAttributeTextValue,
    getAttributeValue. cbn [attributesOf]. split.
  - replace (find (fun attribute => opt_seqb (nameOf attribute) (Some (str "lang"))) before)
      with (@None node); [reflexivity|].
    symmetry. induction before as [|a before' IH]; [reflexivity|].
    cbn [forallb find] in *. apply andb_true_iff in H as [Ha H].
    apply negb_true_iff in Ha. rewrite Ha. now apply IH.
  - intros la lt raw value after.
    rewrite (find_skips (fun a => opt_seqb (nameOf a) (Some (str "lang"))) before _ after H)
      by reflexivity.
    cbn [valueOf rbind find isTextNode]. now destruct (stripTextPrefix value).
Qed.
End NodeFacts.

Lemma preformatted_text_witness :
  print unchanged unchanged (defaultOptions []) [elementOf 0 17 "pre" [] [textOf 5 (str "a   b")]]
    (textOf 5 (str "a  b")) false
  = (Ok (DString (str "a  b")), false)
  /\ print unchanged unchanged (defaultOptions []) []
       (Attribute (mkLoc 3 16) (str "title") (Some [textOf 10 (str "a   b")])) false
     = (Ok (concat [line; DString (str "title"); dstr "="; DString [dquote];
                    concat [DString (str "a   b")]; DString [dquote]]), false).
Proof.
  split.
  - apply (proj1 (@preformatted_text_is_printed_as_it_is unchanged unchanged
                    (defaultOptions []) _ _ _ _)
             (elementOf 0 17 "pre" [] [textOf 5 (str "a   b")]));
      [now left | reflexivity].
  - apply (proj2 (@preformatted_text_is_printed_as_it_is unchanged unchanged
                    (defaultOptions []) _ _ _ _)).
    reflexivity.
Defined.

Lemma style_block_witness :
  print unchanged unchanged (defaultOptions (str "<style>p{}</style>")) []
    (Root None None (Some (mkLoc 0 18)) (Fragment (mkLoc 18 18) [])) false
  = (Throw (UnknownNodeType (str "Style")), false).
Proof.
  apply (@style_block_cannot_be_printed unchanged unchanged
           (defaultOptions (str "<style>p{}</style>")) [] (mkLoc 0 18)
           (Fragment (mkLoc 18 18) []) [str "scripts"] [str "markup"]);
    reflexivity.
Defined.

Lemma language_witness :
  isNodeSupportedLanguage (elementOf 0 40 "template" [] []) = Ok true
  /\ isNodeSupportedLanguage
       (elementOf 0 40 "template"
          [Attribute (mkLoc 10 25) (str "lang") (Some [textOf 16 (str "text/pug")])] [])
     = Ok false.
Proof.
  destruct (@language_is_read_from_the_lang_attribute Element (mkLoc 0 40) (str "template")
              None [] [] eq_refl) as [H1 H2].
  split; [exact H1|].
  exact (H2 (mkLoc 10 25) (mkLoc 16 24) (Some (str "text/pug")) (str "text/pug") []).
Defined.


(** ** Splitting a text into words *)

Lemma blank_isWordBreak x : blank x = true -> isWordBreak x = true.
Proof.
  unfold blank, isWordBreak, oneOf. cbn [existsb].
  destruct (N.eqb x 9), (N.eqb x 12), (N.eqb x 13), (N.eqb x 32), (N.eqb x 10);
    simpl; congruence.
Qed.

Lemma newline_isWordBreak x : N.eqb newline x = true -> isWordBreak x = true.
Proof. intros H. apply N.eqb_eq in H. now subst. Qed.

Lemma not_isWordBreak x :
  isWordBreak x = false -> blank x = false /\ N.eqb newline x = false.
Proof.
  intros H. split.
  - destruct (blank x) eqn:B; [|reflexivity]. apply blank_isWordBreak in B. congruence.
  - destruct (N.eqb newline x) eqn:B; [|reflexivity]. apply newline_isWordBreak in B.
    congruence.
Qed.

(** The longest run of a class at the head of a text. *)
Lemma longest_run (p : jschar -> bool) s :
  exists u, s = u ++ dropWhile p s /\ forallb p u = true
            /\ match dropWhile p s with y :: _ => p y = false | [] => True end.
Proof.
  induction s as [|x s (u & E & Hu & Hv)].
  - now exists [].
  - cbn [dropWhile]. destruct (p x) eqn:Px.
    + exists (x :: u). cbn [app forallb]. rewrite Px, Hu. split; [now rewrite <- E|auto].
    + exists []. cbn. auto.
Qed.

Lemma dropWhile_length (p : jschar -> bool) s : length (dropWhile p s) <= length s.
Proof.
  induction s as [|x s IH]; [apply Nat.le_refl|]. cbn [dropWhile].
  destruct (p x); simpl; lia.
Qed.

Lemma dropWhile_filter (p : jschar -> bool) s :
  filter (fun c => negb (p c)) s = filter (fun c => negb (p c)) (dropWhile p s).
Proof.
  induction s as [|x s IH]; [reflexivity|]. cbn [dropWhile filter].
  destruct (p x) eqn:Px; cbn [negb]; [exact IH|]. cbn [filter]. now rewrite Px.
Qed.

(** What [wordSeparator] matches at a position: the longest run of
    separators, when there is one. *)
Lemma wordSeparator_at i x s :
  matchAt wordSeparator i (x :: s)
  = if isWordBreak x
    then Some (mkMatch i (S i + (length s - length (dropWhile isWordBreak s)))
                 (firstn (S i + (length s - length (dropWhile isWordBreak s)) - i) (x :: s))
                 [])
    else None.
Proof.
  unfold matchAt, wordSeparator, rplus. cbn [rmatch].
  change (oneOf [9; 10; 12; 13; 32]%N) with isWordBreak.
  destruct (isWordBreak x); [|reflexivity].
  destruct (longest_run isWordBreak s) as (u & E & Hu & Hv).
  change (fun (i : nat) (s : jsstring) (c : caps)
            (k : nat -> jsstring -> caps -> option regex_match) =>
          match s with
          | [] => None
          | x :: s' => if isWordBreak x then k (S i) s' c else None
          end)
    with (rmatch (R := regex_match) (RChar isWordBreak)).
  assert (L : length s - length (dropWhile isWordBreak s) = length u).
  { rewrite E at 1. rewrite length_app. lia. }
  rewrite L. rewrite E at 1 2.
  apply greedy_star_longest; [exact Hu | exact Hv | reflexivity | lengths].
Qed.

Lemma wordSeparator_nil i : matchAt wordSeparator i [] = None.
Proof. reflexivity. Qed.

Lemma skipn_run s :
  skipn (length s - length (dropWhile isWordBreak s)) s = dropWhile isWordBreak s.
Proof.
  destruct (longest_run isWordBreak s) as (u & E & _ & _).
  rewrite E at 1 3. apply skipn_exact. rewrite length_app. lia.
Qed.

Lemma splitFrom_step fuel i acc x s :
  splitFrom (S fuel) wordSeparator i acc (x :: s)
  = if isWordBreak x
    then rev acc :: splitFrom fuel wordSeparator
                      (S i + (length s - length (dropWhile isWordBreak s))) []
                      (dropWhile isWordBreak s)
    else splitFrom fuel wordSeparator (S i) (x :: acc) s.
Proof.
  cbn [splitFrom]. rewrite wordSeparator_at. destruct (isWordBreak x); [|reflexivity].
  cbn [m_end].
  replace (Nat.eqb (S i + (length s - length (dropWhile isWordBreak s))) i) with false
    by (symmetry; apply Nat.eqb_neq; lia).
  replace (S i + (length s - length (dropWhile isWordBreak s)) - i)
    with (S (length s - length (dropWhile isWordBreak s))) by lia.
  cbn [skipn]. now rewrite skipn_run.
Qed.

Lemma splitFrom_nonempty r fuel i acc s : splitFrom fuel r i acc s <> [].
Proof.
  revert i acc s. induction fuel as [|fuel IH]; intros i acc s; [discriminate|].
  cbn [splitFrom]. destruct s as [|x s]; [discriminate|].
  destruct (matchAt r i (x :: s)) as [m|]; [|apply IH].
  destruct (Nat.eqb (m_end m) i); [apply IH|discriminate].
Qed.

(** The pieces, put together, are the text without its separators. *)
Lemma splitFrom_concat : forall fuel i acc s,
  length s < fuel ->
  List.concat (splitFrom fuel wordSeparator i acc s)
  = rev acc ++ filter (fun c => negb (isWordBreak c)) s.
Proof.
  induction fuel as [|fuel IH]; intros i acc s L; [lia|].
  destruct s as [|x s].
  - cbn. now rewrite !app_nil_r.
  - rewrite splitFrom_step. cbn [filter]. destruct (isWordBreak x) eqn:B; cbn [negb].
    + cbn [List.concat]. rewrite IH.
      * cbn [rev app]. now rewrite <- dropWhile_filter.
      * pose proof (dropWhile_length isWordBreak s). simpl in L. lia.
    + rewrite IH by (simpl in L; lia). cbn [rev]. now rewrite <- app_assoc.
Qed.

(** A text that ends with a separator ends with an empty piece. *)
Lemma dropWhile_last (p : jschar -> bool) s t y :
  s = t ++ [y] -> dropWhile p s = [] \/ exists t', dropWhile p s = t' ++ [y].
Proof.
  revert t. induction s as [|x s IH]; intros t E; [now left|].
  cbn [dropWhile]. destruct (p x); [|right; eauto].
  destruct t as [|z t]; cbn [app] in E; injection E as -> E.
  - subst s. now left.
  - exact (IH t E).
Qed.

Lemma splitFrom_last : forall fuel i acc s t y,
  length s < fuel -> s = t ++ [y] -> isWordBreak y = true ->
  exists init, init <> [] /\ splitFrom fuel wordSeparator i acc s = init ++ [[]].
Proof.
  induction fuel as [|fuel IH]; intros i acc s t y L E Hy; [lia|].
  destruct s as [|x s]; [destruct t; discriminate E|].
  rewrite splitFrom_step. destruct (isWordBreak x) eqn:B.
  - assert (E' : exists t', s = t' ++ [y] \/ s = []).
    { destruct t as [|z t]; cbn [app] in E; injection E as -> E;
        [exists []; now right | exists t; now left]. }
    destruct E' as [t' [E'|E']].
    + destruct (@dropWhile_last isWordBreak _ _ _ E') as [D|[t'' D]].
      * rewrite D. exists [rev acc]. split; [discriminate|]. now destruct fuel.
      * destruct (IH (S i + (length s - length (dropWhile isWordBreak s))) []
                    (dropWhile isWordBreak s) t'' y) as (init & Hi & ->); auto.
        { pose proof (dropWhile_length isWordBreak s). simpl in L. lia. }
        exists (rev acc :: init). split; [discriminate|reflexivity].
    + subst s. exists [rev acc]. split; [discriminate|]. now destruct fuel.
  - destruct t as [|z t]; cbn [app] in E; injection E as -> E.
    + subst s. cbn [isWordBreak] in *. congruence.
    + apply (IH (S i) (z :: acc) s t y); auto. simpl in L. lia.
Qed.

(** ** From pieces to documents *)

Lemma stringsOf_cons d docs :
  stringsOf (d :: docs) = match d with DString s => s | _ => [] end ++ stringsOf docs.
Proof. reflexivity. Qed.

Lemma stringsOf_app a b : stringsOf (a ++ b) = stringsOf a ++ stringsOf b.
Proof. unfold stringsOf. now rewrite map_app, concat_app. Qed.

Lemma joinParts_cons sep x y l :
  joinParts sep (x :: y :: l) = x :: sep :: joinParts sep (y :: l).
Proof. reflexivity. Qed.

Lemma words_of_pieces pieces :
  stringsOf (filter (fun s => negb (isEmptyStringDoc s))
               (joinParts line (map DString pieces)))
  = List.concat pieces.
Proof.
  induction pieces as [|x pieces IH]; [reflexivity|].
  destruct pieces as [|y pieces].
  - destruct x; reflexivity.
  - cbn [map] in *. rewrite joinParts_cons.
    change (List.concat (x :: y :: pieces)) with (x ++ List.concat (y :: pieces)).
    rewrite <- IH. cbn [filter]. cbn [isEmptyStringDoc line negb].
    destruct x; reflexivity.
Qed.

Lemma pieces_are_words_or_lines pieces :
  forallb isWordOrLine (filter (fun s => negb (isEmptyStringDoc s))
                          (joinParts line (map DString pieces))) = true.
Proof.
  induction pieces as [|x pieces IH]; [reflexivity|].
  destruct pieces as [|y pieces].
  - destruct x; reflexivity.
  - cbn [map] in *. rewrite joinParts_cons. cbn [filter].
    cbn [isEmptyStringDoc line negb]. destruct x; cbn [isEmptyStringDoc negb forallb];
      exact IH.
Qed.

Lemma docs_after_empty_piece pieces :
  pieces <> [] ->
  exists docs,
    filter (fun s => negb (isEmptyStringDoc s)) (joinParts line (map DString ([] :: pieces)))
    = line :: docs.
Proof.
  destruct pieces as [|y pieces]; [contradiction|]. intros _.
  cbn [map]. rewrite joinParts_cons. cbn [filter isEmptyStringDoc negb line]. eauto.
Qed.

Lemma docs_before_empty_piece init :
  init <> [] ->
  exists docs,
    filter (fun s => negb (isEmptyStringDoc s))
      (joinParts line (map DString (init ++ [[]])))
    = docs ++ [line].
Proof.
  induction init as [|x init IH]; [contradiction|]. intros _.
  destruct init as [|y init].
  - cbn [app map]. rewrite joinParts_cons. cbn [joinParts filter].
    cbn [isEmptyStringDoc line negb].
    destruct x as [|c x]; [now exists []|now exists [DString (c :: x)]].
  - destruct (IH ltac:(discriminate)) as (docs & E).
    cbn [app map] in *. rewrite joinParts_cons. cbn [filter]. rewrite E.
    cbn [isEmptyStringDoc line negb].
    destruct x as [|c x];
      [now exists (line :: docs)|now exists (DString (c :: x) :: line :: docs)].
Qed.

Lemma mapLast_app (A : Type) (f : A -> A) l x : mapLast f (l ++ [x]) = l ++ [f x].
Proof.
  induction l as [|y l IH]; [reflexivity|]. cbn [app].
  destruct (l ++ [x]) eqn:E; [destruct l; discriminate E|].
  cbn [mapLast]. now rewrite <- IH.
Qed.

(** ** The two blank-line tests *)

Lemma execFrom_anchored a : forall s i, execFrom (RSeq RBol a) (S i) s = None.
Proof. induction s as [|x s IH]; intros i; cbn [execFrom]; [reflexivity|apply IH]. Qed.

Lemma leadingBlankLine_head s :
  regex_test leadingBlankLine s = true ->
  exists x s', s = x :: s' /\ isWordBreak x = true.
Proof.
  unfold regex_test. destruct s as [|x s']; [vm_compute; discriminate|].
  intros H. exists x, s'. split; [reflexivity|].
  destruct (isWordBreak x) eqn:B; [reflexivity|]. exfalso.
  apply not_isWordBreak in B as [Bb Bn].
  cbn [execFrom] in H. unfold leadingBlankLine in H. cbv zeta in H.
  rewrite execFrom_anchored in H.
  replace (matchAt (RSeq RBol
                      (RSeq (RGroup 1 (RSeq (RStar true (RChar blank)) (rchar newline)))
                         (RGroup 1 (RSeq (RStar true (RChar blank)) (rchar newline)))))
             0 (x :: s'))
    with (@None regex_match) in H; [discriminate H|].
  symmetry. unfold matchAt. cbn [rmatch Nat.eqb length].
  rewrite starLoop_greedy_S. cbv beta iota. rewrite Bb.
  unfold rchar. rewrite rmatch_char_cons. now rewrite Bn.
Qed.

Lemma greedy_star_inv (R : Type) p (k : nat -> jsstring -> caps -> option R) :
  forall fuel i s c r,
    starLoop true (rmatch (R := R) (RChar p)) k fuel i s c = Some r ->
    exists u v, s = u ++ v /\ forallb p u = true /\ k (i + length u) v c = Some r.
Proof.
  induction fuel as [|fuel IH]; intros i s c r H.
  - exists [], s. cbn [length]. rewrite Nat.add_0_r. auto.
  - rewrite starLoop_greedy_S in H. destruct s as [|x s].
    + rewrite rmatch_char_nil in H. exists [], []. cbn [length].
      rewrite Nat.add_0_r. auto.
    + rewrite rmatch_char_cons, eqb_succ_self in H. destruct (p x) eqn:Px.
      * destruct (starLoop true (rmatch (RChar p)) k fuel (S i) s c) as [r'|] eqn:E.
        -- injection H as <-. destruct (IH _ _ _ _ E) as (u & v & -> & Hu & Hk).
           exists (x :: u), v. cbn [app forallb length]. rewrite Px, Hu.
           rewrite Nat.add_succ_r. auto.
        -- exists [], (x :: s). cbn [length]. rewrite Nat.add_0_r. auto.
      * exists [], (x :: s). cbn [length]. rewrite Nat.add_0_r. auto.
Qed.

Lemma ends_with_blank u x :
  isWordBreak x = true -> forallb blank u = true ->
  exists t y, x :: u = t ++ [y] /\ isWordBreak y = true.
Proof.
  intros Hx Hu. destruct (rev u) as [|y r] eqn:E.
  - apply (f_equal (@rev _)) in E. rewrite rev_involutive in E. subst u.
    now exists [], x.
  - apply (f_equal (@rev _)) in E. rewrite rev_involutive in E. cbn [rev] in E. subst u.
    rewrite forallb_app in Hu. apply andb_true_iff in Hu as [_ Hy]. cbn [forallb] in Hy.
    rewrite andb_true_r in Hy. exists (x :: rev r), y.
    split; [reflexivity|now apply blank_isWordBreak].
Qed.

Lemma trailingBlankLine_at j v m :
  matchAt trailingBlankLine j v = Some m ->
  exists t y, v = t ++ [y] /\ isWordBreak y = true.
Proof.
  unfold matchAt, trailingBlankLine. cbv zeta. cbn [rmatch]. intros H.
  change (fun (i : nat) (s : jsstring) (c : caps)
            (k : nat -> jsstring -> caps -> option regex_match) =>
          match s with
          | [] => None
          | x :: s' => if blank x then k (S i) s' c else None
          end)
    with (rmatch (R := regex_match) (RChar blank)) in H.
  unfold rchar in H.
  destruct v as [|x v]; [discriminate H|]. rewrite rmatch_char_cons in H.
  destruct (N.eqb newline x) eqn:Nx; [|discriminate H].
  apply greedy_star_inv in H as (u1 & v1 & -> & Hu1 & H). cbv beta in H.
  destruct v1 as [|x2 v2]; [discriminate H|]. rewrite rmatch_char_cons in H.
  destruct (N.eqb newline x2) eqn:Nx2; [|discriminate H].
  apply greedy_star_inv in H as (u2 & v3 & -> & Hu2 & H). cbv beta in H.
  destruct v3 as [|? ?]; [|discriminate H]. rewrite app_nil_r.
  destruct (@ends_with_blank u2 x2 (newline_isWordBreak _ Nx2) Hu2) as (t & y & E & Hy).
  exists ((x :: u1) ++ t), y. split; [|exact Hy].
  rewrite <- app_assoc, <- E. reflexivity.
Qed.

Lemma execFrom_suffix r : forall s i m,
  execFrom r i s = Some m -> exists j u v, s = u ++ v /\ matchAt r j v = Some m.
Proof.
  induction s as [|x s IH]; intros i m H; cbn [execFrom] in H.
  - destruct (matchAt r i []) eqn:M; [|discriminate]. injection H as <-.
    now exists i, [], [].
  - destruct (matchAt r i (x :: s)) eqn:M.
    + injection H as <-. now exists i, [], (x :: s).
    + destruct (IH _ _ H) as (j & u & v & -> & Hm). now exists j, (x :: u), v.
Qed.

Lemma trailingBlankLine_last s :
  regex_test trailingBlankLine s = true ->
  exists t y, s = t ++ [y] /\ isWordBreak y = true.
Proof.
  unfold regex_test. destruct (execFrom trailingBlankLine 0 s) as [m|] eqn:E;
    [|discriminate]. intros _.
  destruct (execFrom_suffix _ _ _ E) as (j & u & v & -> & Hm).
  destruct (trailingBlankLine_at _ _ Hm) as (t & y & -> & Hy).
  exists (u ++ t), y. now rewrite app_assoc.
Qed.

(** ** [splitTextToDocs] *)

Lemma setFirst_line k docs :
  isLine k = true ->
  match docs with d :: _ => isLine d = true | [] => True end ->
  stringsOf (setFirst k docs) = stringsOf docs
  /\ forallb isWordOrLine (setFirst k docs) = forallb isWordOrLine docs.
Proof.
  intros Hk H. destruct k; try discriminate Hk.
  destruct docs as [|d docs]; [now split|]. destruct d; try discriminate H. now split.
Qed.

Lemma setFirst_ends k docs d l1 :
  isLine k = true -> docs = d ++ [l1] -> isLine l1 = true ->
  exists d' l', setFirst k docs = d' ++ [l'] /\ isLine l' = true.
Proof.
  intros Hk -> Hl. destruct d as [|z d].
  - now exists [], k.
  - now exists (k :: d), l1.
Qed.

Lemma setLast_line k d l1 :
  isLine k = true -> isLine l1 = true ->
  stringsOf (setLast k (d ++ [l1])) = stringsOf (d ++ [l1])
  /\ forallb isWordOrLine (setLast k (d ++ [l1])) = forallb isWordOrLine (d ++ [l1]).
Proof.
  intros Hk Hl. unfold setLast. rewrite mapLast_app, !stringsOf_app, !forallb_app.
  destruct k; try discriminate Hk. destruct l1; try discriminate Hl. now split.
Qed.

Lemma splitTextToDocs_words text :
  stringsOf (splitTextToDocs text) = filter (fun c => negb (isWordBreak c)) text
  /\ forallb isWordOrLine (splitTextToDocs text) = true.
Proof.
  unfold splitTextToDocs.
  set (docs0 := filter (fun s => negb (isEmptyStringDoc s))
                  (joinParts line (map DString (regex_split wordSeparator text)))).
  assert (F1 : stringsOf docs0 = filter (fun c => negb (isWordBreak c)) text).
  { unfold docs0. rewrite words_of_pieces. unfold regex_split.
    now rewrite splitFrom_concat by lia. }
  assert (F2 : forallb isWordOrLine docs0 = true) by apply pieces_are_words_or_lines.
  set (docs1 := if regex_test leadingBlankLine text then setFirst keepIfLonelyLine docs0
                else docs0).
  assert (G : stringsOf docs1 = stringsOf docs0
              /\ forallb isWordOrLine docs1 = forallb isWordOrLine docs0
              /\ (forall d l1, docs0 = d ++ [l1] -> isLine l1 = true ->
                  exists d' l', docs1 = d' ++ [l'] /\ isLine l' = true)).
  { unfold docs1. destruct (regex_test leadingBlankLine text) eqn:T.
    - destruct (leadingBlankLine_head _ T) as (x & s' & -> & Hx).
      assert (E : exists docs, docs0 = line :: docs).
      { unfold docs0, regex_split. cbn [length]. rewrite splitFrom_step, Hx.
        apply docs_after_empty_piece, splitFrom_nonempty. }
      destruct E as (docs & E).
      destruct (@setFirst_line keepIfLonelyLine docs0 eq_refl) as [S1 S2];
        [now rewrite E|].
      split; [exact S1|]. split; [exact S2|].
      intros d l1 Ed Hl. exact (@setFirst_ends keepIfLonelyLine _ _ _ eq_refl Ed Hl).
    - split; [reflexivity|]. split; [reflexivity|]. intros d l1 Ed Hl. eauto. }
  destruct G as (G1 & G2 & G3).
  destruct (regex_test trailingBlankLine text) eqn:T.
  - destruct (trailingBlankLine_last _ T) as (t & y & Et & Hy).
    assert (E : exists d, docs0 = d ++ [line]).
    { unfold docs0, regex_split.
      destruct (@splitFrom_last (S (length text)) 0 [] text t y) as (init & Hi & ->);
        auto.
      now apply docs_before_empty_piece. }
    destruct E as (d & E). destruct (G3 d line E eq_refl) as (d' & l' & E1 & Hl').
    rewrite E1. destruct (@setLast_line keepIfLonelyLine d' l' eq_refl Hl') as [S1 S2].
    rewrite S1, S2, <- E1. split; congruence.
  - split; congruence.
Qed.

(** X19. The strings among the documents of [splitTextToDocs], put
    together in order, are the text without its separator characters;
    each document is a string that is not empty or a line. *)
Theorem text_is_split_into_its_words text :
  stringsOf (splitTextToDocs text) = filter (fun c => negb (isWordBreak c)) text
  /\ forallb isWordOrLine (splitTextToDocs text) = true.
Proof. apply splitTextToDocs_words. Qed.

(** ** A text node without [raw] *)

Lemma isWordOrLine_leaf w d :
  isWordOrLine d = true -> trimLeftIn w d = (None, d) /\ trimRightIn w d = (None, d).
Proof. destruct d; try discriminate; now split. Qed.

Lemma isWordOrLine_truthy d : isWordOrLine d = true -> truthy d = true.
Proof. destruct d as [[|? ?]| | | | | | |]; try discriminate; reflexivity. Qed.

Lemma trimLeft_words parts :
  forallb isWordOrLine parts = true ->
  (exists l r, fst (trimLeftStep isLine (trimLeftIn isLine) parts) = Some (l :: r)
               /\ isLine l = true)
  \/ trimLeftStep isLine (trimLeftIn isLine) parts = (None, parts).
Proof.
  intros H. destruct parts as [|d rest]; [now right|].
  cbn [forallb] in H. apply andb_true_iff in H as [Hd _].
  unfold trimLeftStep. cbn [findIndex]. destruct (isLine d) eqn:L; cbn [negb].
  - left. destruct (findIndex (fun d => negb (isLine d)) rest) as [i|];
      cbn [option_map length Nat.ltb Nat.leb firstn fst]; eauto.
  - right. cbn [Nat.ltb Nat.leb]. now rewrite (proj1 (isWordOrLine_leaf isLine _ Hd)).
Qed.

Lemma trailing_whitespace (isWhitespace : doc -> bool) g :
  let keep := match findLastIndex (fun d => negb (isWhitespace d)) g with
              | Some i => S i
              | None => 0
              end in
  forallb isWhitespace (skipn keep g) = true.
Proof.
  induction g as [|x g IH]; [reflexivity|]. cbv zeta in *. cbn [findLastIndex].
  destruct (findLastIndex (fun d => negb (isWhitespace d)) g) as [i|].
  - exact IH.
  - cbn [skipn] in IH. destruct (isWhitespace x) eqn:W; cbn [negb skipn forallb].
    + now rewrite W.
    + exact IH.
Qed.

Lemma onLast_leaves nested g :
  (forall d, In d g -> nested d = (@None (list doc), d)) -> onLast nested g = (None, g).
Proof.
  induction g as [|x g IH]; intros H; [reflexivity|].
  destruct g as [|y g].
  - cbn [onLast]. now rewrite (H x (or_introl eq_refl)).
  - rewrite onLast_cons, IH; [reflexivity|]. intros d I. apply H. now right.
Qed.

Lemma trimRight_words parts w :
  forallb isWordOrLine parts = true -> In w parts -> isLine w = false ->
  In w (snd (trimRightStep isLine (trimRightIn isLine) parts)).
Proof.
  intros H I L. unfold trimRightStep. destruct parts as [|x g]; [contradiction|].
  pose proof (trailing_whitespace isLine (x :: g)) as T. cbv zeta in T.
  set (keep := match findLastIndex (fun d => negb (isLine d)) (x :: g) with
               | Some i => S i
               | None => 0
               end) in *.
  destruct (Nat.ltb keep (length (x :: g))).
  - cbn [snd]. rewrite <- (firstn_skipn keep (x :: g)) in I.
    apply in_app_or in I as [I|I]; [exact I|].
    rewrite forallb_forall in T. rewrite (T _ I) in L. discriminate L.
  - rewrite onLast_leaves; [exact I|]. intros d Id.
    rewrite forallb_forall in H. exact (proj2 (isWordOrLine_leaf isLine _ (H _ Id))).
Qed.

(** The group built for a text that holds a word: its first document is
    a line or a [fill], never the empty string. *)
Lemma outermost_of_words parts w :
  forallb isWordOrLine parts = true -> In w parts -> isLine w = false ->
  exists d rest, extractOutermostNewlines [DFill parts] = d :: rest /\ truthy d = true.
Proof.
  intros H I L. unfold extractOutermostNewlines, trimLeft.
  unfold trimLeftStep at 1. cbn [findIndex isLine negb Nat.ltb Nat.leb trimLeftIn].
  destruct (trimLeft_words _ H) as [(l & r & E & Hl)|E].
  - destruct (trimLeftStep isLine (trimLeftIn isLine) parts) as [removed parts'].
    cbn [fst] in E. subst removed.
    destruct (trimRight isLine [DFill parts']) as [trailing docs].
    exists l. eexists. split; [reflexivity|]. now destruct l.
  - rewrite E. unfold trimRight. unfold trimRightStep at 1.
    cbn [findLastIndex isLine negb length Nat.ltb Nat.leb onLast trimRightIn].
    pose proof (trimRight_words _ _ H I L) as Iw.
    destruct (trimRightStep isLine (trimRightIn isLine) parts) as [trailing parts''].
    cbn [snd] in Iw. cbn [orEmpty app].
    assert (N : isEmptyGroup [DFill parts''] = false).
    { unfold isEmptyGroup. rewrite find_not_empty. cbn [forallb isEmptyDoc].
      rewrite find_not_empty. apply andb_false_iff. left.
      destruct (forallb isEmptyDoc parts'') eqn:F; [|reflexivity].
      rewrite forallb_forall in F, H. specialize (F _ Iw). specialize (H _ I).
      destruct w as [[|? ?]| | | | | | |]; discriminate. }
    rewrite N. cbn [negb app]. eexists. eexists. split; reflexivity.
Qed.

Lemma dropWhile_all (p : jschar -> bool) s : forallb p s = true -> dropWhile p s = [].
Proof.
  induction s as [|x s IH]; [reflexivity|]. cbn [forallb dropWhile].
  intros H. apply andb_true_iff in H as [-> H]. now apply IH.
Qed.

Lemma whitespace_trims_to_nothing s :
  forallb isJSWhitespace s = true -> js_trim s = [].
Proof.
  intros H. unfold js_trim, trimEnd, trimStart. now rewrite (dropWhile_all _ _ H).
Qed.

Lemma isWordBreak_whitespace c : isWordBreak c = true -> isJSWhitespace c = true.
Proof.
  unfold isWordBreak, oneOf. cbn [existsb]. rewrite !orb_true_iff.
  intros [H|[H|[H|[H|[H|H]]]]]; try discriminate H; apply N.eqb_eq in H; now subst.
Qed.

Lemma stringsOf_word docs :
  stringsOf docs <> [] -> exists c s, In (DString (c :: s)) docs.
Proof.
  induction docs as [|d docs IH]; intros H; [now contradiction H|].
  rewrite stringsOf_cons in H. destruct d as [[|c s]| | | | | | |];
    try (destruct (IH H) as (c' & s' & I); exists c', s'; now right).
  exists c, s. now left.
Qed.

(** A text that is not blank holds a word. *)
Lemma text_holds_a_word text :
  seqb (js_trim text) [] = false ->
  exists w, In w (splitTextToDocs text) /\ isLine w = false.
Proof.
  intros H. destruct (splitTextToDocs_words text) as [S _].
  assert (N : stringsOf (splitTextToDocs text) <> []).
  { rewrite S. intros F.
    assert (W : forallb isJSWhitespace text = true).
    { apply forallb_forall. intros c I.
      destruct (isWordBreak c) eqn:B; [now apply isWordBreak_whitespace|].
      assert (I' : In c (filter (fun c => negb (isWordBreak c)) text))
        by (apply filter_In; now rewrite B).
      rewrite F in I'. contradiction. }
    now rewrite (whitespace_trims_to_nothing _ W) in H. }
  destruct (stringsOf_word _ N) as (c & s & I). now exists (DString (c :: s)).
Qed.

Section TextWithoutRaw.
Variables formatBabel formatHtml : jsstring -> result jsstring.
Variable opts : options.
#[local] Abbreviation pr := (print formatBabel formatHtml opts).

(** X20. A text node that is not blank and carries no [raw] cannot be
    laid out among children: [canBreakBefore] reads [raw] without the
    fallback to [data] that [isEmptyNode] and [isInlineNode] have, and
    printing the fragment throws a type error. *)
Theorem text_without_raw_cannot_be_laid_out stack l lt data :
  isEmptyNode (Text lt None data) = false ->
  isPreTagContent stack = false ->
  pr stack (Fragment l [Text lt None data]) false = (Throw TypeError, false).
Proof.
  intros He Hp. cbn [print]. rewrite unlessIgnored_clear.
  cbn [length Nat.eqb forallb orb]. rewrite He. cbn [andb].
  unfold isPreTagContent. cbn [existsb isPreOrUnformattable orb].
  fold (isPreTagContent stack). rewrite Hp. cbn [negb].
  unfold printChildren. cbn [forEachChild]. unfold eachChild.
  cbn [print]. unfold bind. rewrite unlessIgnored_clear.
  unfold isPreTagContent. cbn [existsb isPreOrUnformattable orb].
  fold (isPreTagContent stack). rewrite Hp, He. cbn [negb rawOrData].
  replace (isInlineNode (Text lt None data)) with true
    by (cbn [isInlineNode isEmptyNode rawOrData] in *; now rewrite He).
  cbn [isEmptyNode rawOrData] in He.
  destruct (text_holds_a_word _ He) as (w & Iw & Lw).
  destruct (@outermost_of_words (splitTextToDocs data) w
              (proj2 (splitTextToDocs_words data)) Iw Lw) as (d & rest & E & Td).
  unfold ret, lift, flush. cbn [currentGroup childDocs lastBreakIndex map fst snd app].
  unfold fill. rewrite E. cbn [outputEach]. unfold outputChildDoc at 1.
  cbn [isTruthy]. rewrite Td. reflexivity.
Qed.
End TextWithoutRaw.

Lemma text_without_raw_witness :
  print unchanged unchanged (defaultOptions (str "a b")) [rootOf 3 [Text (mkLoc 0 3) None (str "a b")]]
    (Fragment (mkLoc 0 3) [Text (mkLoc 0 3) None (str "a b")]) false
  = (Throw TypeError, false).
Proof. apply text_without_raw_cannot_be_laid_out; reflexivity. Defined.

(** ** Documents that are not lines *)

Section NotALine.
Variables formatBabel formatHtml : jsstring -> result jsstring.
Variable opts : options.
#[local] Abbreviation pr := (print formatBabel formatHtml opts).

Lemma printIgnored_not_line n : isLine (printIgnored opts n) = false.
Proof. unfold printIgnored. now destruct (splitOn _ _). Qed.

Lemma unlessIgnored_inv n body fl d fl' :
  unlessIgnored opts n body fl = (Ok d, fl') -> isTextNode n = false ->
  d = printIgnored opts n \/ body false = (Ok d, fl').
Proof.
  intros H T. destruct fl.
  - left. unfold unlessIgnored, bind, getIgnoreNext in H. rewrite T in H.
    cbn in H. now injection H as <- _.
  - right. exact H.
Qed.

Ltac split_result H :=
  repeat first
    [ progress invM H
    | match type of H with
      | (if ?b then _ else _) _ = (Ok _, _) => destruct b
      | (match ?x with _ => _ end) _ = (Ok _, _) => destruct x
      | throw _ _ = (Ok _, _) => discriminate H
      end ].

Lemma print_not_line stack n fl d fl' :
  pr stack n fl = (Ok d, fl') -> isTextNode n = false -> isLine d = false.
Proof.
  intros H T. destruct n; try discriminate T; cbn [print] in H.
  1:{ invM H. now subst. }
  all: apply unlessIgnored_inv in H; [|reflexivity];
    destruct H as [->|H]; [apply printIgnored_not_line|].
  all: split_result H; subst; try reflexivity.
  unfold printScript in H. invM H. now subst.
Qed.
End NotALine.

(** ** Forced breaks among the documents of children *)

Lemma existsb_firstn_skipn (A : Type) (f : A -> bool) n l :
  existsb f l = existsb f (firstn n l) || existsb f (skipn n l).
Proof. now rewrite <- existsb_app, firstn_skipn. Qed.

Lemma linebreakPossible_broken st : broken st -> broken (linebreakPossible st).
Proof.
  unfold broken, linebreakPossible. intros H. cbn [childDocs].
  destruct (lastBreakIndex st) as [i|]; [|exact H].
  destruct (Nat.ltb (S i) (length (childDocs st))); [|exact H].
  rewrite existsb_app. cbn [existsb concat forcedBreak]. rewrite orb_false_r.
  now rewrite <- existsb_firstn_skipn.
Qed.

Section ChildrenFacts.
Variable printChild : node -> M doc.
Variable isPreformat : bool.

Lemma outputChildDoc_docs childDoc fromNodes st st' :
  outputChildDoc isPreformat childDoc fromNodes st = Ok st' ->
  (broken st -> broken st')
  /\ (forall d, childDoc = Some d -> truthy d = true -> forcedBreak d = true -> broken st').
Proof.
  unfold outputChildDoc. intros H.
  match type of H with rbind ?m _ = _ => destruct m as [st1|] eqn:E1 end;
    [|discriminate H].
  cbn [rbind] in H.
  assert (B1 : broken st -> broken st1).
  { intros B. destruct isPreformat; [now injection E1 as <-|].
    match type of E1 with rbind ?m _ = _ => destruct m as [breakBefore|] end;
      [|discriminate E1].
    cbn [rbind] in E1.
    match type of E1 with
    | match lastBreakIndex ?s with _ => _ end = _ =>
        assert (B2 : broken s); [|set (s2 := s) in *]
    end.
    { destruct breakBefore; [|exact B]. apply linebreakPossible_broken in B.
      destruct childDoc as [d|]; [|exact B].
      destruct (lastOf (childDocs (linebreakPossible st))); [|exact B].
      destruct (negb (isLineDiscardedIfLonely d) && negb (isLine d0)); [|exact B].
      unfold broken in *. cbn [childDocs]. rewrite existsb_app, B. reflexivity. }
    clearbody s2. destruct (lastBreakIndex s2); [now injection E1 as <-|].
    destruct (isTruthy childDoc); [|now injection E1 as <-].
    destruct (lastOf fromNodes); [|discriminate E1].
    destruct (canBreakAfter n) as [breakAfter|]; [|discriminate E1].
    cbn [rbind] in E1. destruct (negb breakAfter); now injection E1 as <-. }
  split.
  - intros B. apply B1 in B. destruct childDoc as [d|]; [|now injection H as <-].
    destruct (truthy d); injection H as <-; [|exact B].
    unfold broken in *. cbn [childDocs]. rewrite existsb_app, B. reflexivity.
  - intros d -> Td Fd. rewrite Td in H. injection H as <-.
    unfold broken. cbn [childDocs]. rewrite existsb_app. cbn [existsb]. rewrite Fd.
    apply orb_true_iff. right. reflexivity.
Qed.

Lemma outputEach_broken docs fromNodes : forall st st',
  outputEach isPreformat docs fromNodes st = Ok st' -> broken st -> broken st'.
Proof.
  induction docs as [|d docs IH]; intros st st' H B; cbn [outputEach] in H.
  - now injection H as <-.
  - destruct (outputChildDoc isPreformat (Some d) fromNodes st) as [st1|] eqn:E;
      [|discriminate H].
    cbn [rbind] in H. apply (IH _ _ H). exact (proj1 (@outputChildDoc_docs _ _ _ _ E) B).
Qed.

Lemma flush_broken st st' : flush isPreformat st = Ok st' -> broken st -> broken st'.
Proof.
  unfold flush. intros H B.
  match type of H with rbind ?m _ = _ => destruct m as [st1|] eqn:E end;
    [|discriminate H].
  cbn [rbind] in H. injection H as <-. exact (@outputEach_broken _ _ _ _ E B).
Qed.

Lemma eachChild_docs c st fl st' fl' :
  eachChild printChild isPreformat c st fl = (Ok st', fl') ->
  (broken st -> broken st')
  /\ (isInlineNode c = false ->
      (forall fl0 d fl1, printChild c fl0 = (Ok d, fl1) -> isLine d = false) ->
      broken st').
Proof.
  unfold eachChild. intros H. apply bind_Ok_inv in H as (d & fl1 & Hd & H).
  destruct (isInlineNode c).
  - apply ret_inv in H as [<- _]. split; [exact (fun B => B)|discriminate].
  - apply bind_Ok_inv in H as (st1 & fl2 & Hf & H).
    unfold lift in Hf, H. injection Hf as Hf _. injection H as H _.
    destruct (@outputChildDoc_docs _ _ _ _ H) as [P1 P2]. split.
    + intros B. apply P1. exact (@flush_broken _ _ Hf B).
    + intros _ Hl. rewrite (Hl _ _ _ Hd) in *. now apply (P2 _ eq_refl).
Qed.

Lemma forEachChild_docs c children : forall st fl st' fl',
  forEachChild printChild isPreformat children st fl = (Ok st', fl') ->
  (broken st -> broken st')
  /\ (In c children -> isInlineNode c = false ->
      (forall fl0 d fl1, printChild c fl0 = (Ok d, fl1) -> isLine d = false) ->
      broken st').
Proof.
  induction children as [|x children IH]; intros st fl st' fl' H; cbn [forEachChild] in H.
  - apply ret_inv in H as [<- _]. split; [exact (fun B => B)|contradiction].
  - apply bind_Ok_inv in H as (st1 & fl1 & Hx & H).
    destruct (@eachChild_docs _ _ _ _ _ Hx) as [X1 X2]. destruct (IH _ _ _ _ H) as [I1 I2].
    split; [auto|]. intros [->|I] Hc Hl; [apply I1, X2|apply I2]; auto.
Qed.

Lemma printChildren_docs c children fl docs fl' :
  printChildren printChild isPreformat children fl = (Ok docs, fl') ->
  In c children -> isInlineNode c = false ->
  (forall fl0 d fl1, printChild c fl0 = (Ok d, fl1) -> isLine d = false) ->
  existsb forcedBreak docs = true.
Proof.
  unfold printChildren. intros H I Hc Hl.
  apply bind_Ok_inv in H as (st1 & fl1 & H1 & H).
  apply bind_Ok_inv in H as (st2 & fl2 & H2 & H).
  apply bind_Ok_inv in H as (st3 & fl3 & H3 & H).
  apply ret_inv in H as [<- _]. unfold lift in H2, H3.
  injection H2 as H2 _. injection H3 as H3 _. unfold lastChildDocProduced in H3.
  apply (proj1 (@outputChildDoc_docs _ _ _ _ H3)), (@flush_broken _ _ H2).
  exact (proj2 (@forEachChild_docs c _ _ _ _ _ H1) I Hc Hl).
Qed.
End ChildrenFacts.

Section BlockChild.
Variables formatBabel formatHtml : jsstring -> result jsstring.
Variable opts : options.
#[local] Abbreviation pr := (print formatBabel formatHtml opts).

(** X21. When one of the children is neither an inline node nor a text,
    the documents [printChildren] returns contain a forced break: the
    child is wrapped with [breakParent], and joining documents at a
    possible line break keeps it. *)
Theorem block_level_child_forces_a_break stack isPreformat children c fl docs fl' :
  In c children -> isInlineNode c = false -> isTextNode c = false ->
  printChildren (pr stack) isPreformat children fl = (Ok docs, fl') ->
  existsb forcedBreak docs = true.
Proof.
  intros I Hc Ht H. apply (@printChildren_docs _ _ c _ _ _ _ H I Hc).
  intros fl0 d fl1 Hd. exact (@print_not_line _ _ _ _ _ _ _ _ Hd Ht).
Qed.
End BlockChild.

Lemma block_level_child_witness :
  printChildren
    (print unchanged unchanged (defaultOptions (str "<hr>"))
       (stackOf (rootOf 4 [elementOf 0 4 "hr" [] []])))
    false [elementOf 0 4 "hr" [] []] false
  = (Ok [concat [breakParent;
                 group (concat [dstr "<"; dstr "hr";
                                indent (group (concat [dstr ""; dstr ""]));
                                dstr " "; dstr "/>"])]], false)
  /\ existsb forcedBreak
       [concat [breakParent;
                group (concat [dstr "<"; dstr "hr";
                               indent (group (concat [dstr ""; dstr ""]));
                               dstr " "; dstr "/>"])]] = true.
Proof.
  split; [vm_compute; reflexivity|].
  apply (@block_level_child_forces_a_break unchanged unchanged (defaultOptions (str "<hr>"))
           (stackOf (rootOf 4 [elementOf 0 4 "hr" [] []])) false
           [elementOf 0 4 "hr" [] []] (elementOf 0 4 "hr" [] []) false _ false);
    [now left | reflexivity | reflexivity | vm_compute; reflexivity].
Defined.

Section LoneDirective.
Variables formatBabel formatHtml : jsstring -> result jsstring.
Variable opts : options.
#[local] Abbreviation pr := (print formatBabel formatHtml opts).

(** X22. An ignore directive that no sibling follows is dropped from the
    output: it prints as the empty string and leaves the flag clear. *)
Theorem ignore_directive_without_sibling_is_dropped stack l data :
  isIgnoreDirective (Comment l data) = true ->
  getNextNode (Comment l data :: stack) = Ok None ->
  pr stack (Comment l data) false = (Ok (dstr ""), false).
Proof.
  intros Hd Hn. cbn [print]. rewrite unlessIgnored_clear, Hd.
  unfold bind, lift. now rewrite Hn.
Qed.
End LoneDirective.

Lemma ignore_directive_without_sibling_witness :
  print unchanged unchanged (defaultOptions (str "<!-- prettier-ignore -->"))
    (stackOf (rootOf 24 [ignoreComment])) ignoreComment false
  = (Ok (dstr ""), false).
Proof. apply ignore_directive_without_sibling_is_dropped; reflexivity. Defined.

(** ** The flag after the root *)

(** X23. A print of the root that returns leaves the flag clear, whatever
    its value was on entry: the markup is always printed and, being no
    text node, uses up a flag that is set. *)
Theorem root_print_leaves_the_flag_clear
  formatBabel formatHtml opts stack module instance css html fl d fl' :
  print formatBabel formatHtml opts stack (Root module instance css html) fl = (Ok d, fl') ->
  fl' = false.
Proof. apply root_clears_flag. Qed.

Lemma root_print_witness :
  snd (print unchanged unchanged (defaultOptions paragraphSource) [] paragraphExample true)
  = false.
Proof.
  apply (@root_print_leaves_the_flag_clear unchanged unchanged (defaultOptions paragraphSource) []
           None None None (Fragment (mkLoc 0 12) [elementOf 0 12 "p" [] [textOf 3 (str "x   y")]])
           true
           (group (concat [concat [DString paragraphSource]]))).
  vm_compute. reflexivity.
Defined.
